(** * Padding transform of torch_geometric ([transforms/pad.py])

    A shallow embedding of the padding-value policies ([UniformPadding],
    [AttrNamePadding], [NodeTypePadding], [EdgeTypePadding]), of the size
    resolvers ([Pad._NumNodes], [Pad._NumEdges]) and of the [Pad] transform
    itself, followed by the properties established about them.

    Python objects that the code mutates are threaded explicitly: a method
    that can raise and mutate is a function from the state to an outcome
    and the state that is left behind, also when it raises. *)

From stdpp Require Import gmap strings list fin_maps.
From Stdlib Require Import ZArith Lia.

Local Open Scope string_scope.
Local Open Scope Z_scope.

(** ** Python values and exceptions *)

(** The scalars of [PadValTypes = (float, int)].  [bool] is a subclass of
    [int] in Python, so it passes the same [isinstance] tests.  A float is
    kept as its IEEE-754 binary64 bit pattern; the code never computes with
    one, it only hands it on.  [0.0] is the all-zero pattern. *)
Inductive PadVal :=
| PBool (b : bool)
| PInt (z : Z)
| PFloat (bits : Z).

Definition float_zero : PadVal := PFloat 0.

(** [1.0] *)
Definition float_one : PadVal := PFloat 4607182418800017408.

(** Every way in which the code under study raises.  All but the last four
    are [AssertionError]s of pad.py, one constructor per [assert]; the last
    four are raised by Python or torch themselves. *)
Inductive Error :=
| PaddingValuesNotDict                    (* MappingPadding._validate *)
| KeyTypeNotAccepted                      (* MappingPadding._validate_key_val *)
| ValTypeNotAccepted                      (* MappingPadding._validate_key_val *)
| UniformPaddingType                      (* UniformPadding._validate *)
| InvalidEdgeTypeArity (n : nat)          (* EdgeTypePadding._validate_key_val *)
| EdgeKeyElemType                         (* EdgeTypePadding._validate_key_val *)
| MaxNumNodesType                         (* _NumNodes.__init__ *)
| MaxNumEdgesType                         (* _NumEdges.__init__ *)
| ExcludedX                               (* Pad.__init__ *)
| InvalidPaddingArg (name : string)       (* Pad._process_padding_argument *)
| NodeKeyNotStr                           (* _NumNodes.get_val *)
| NodeSizeMissing (key : string)          (* _NumNodes.get_val *)
| EdgeKeyNotTriple                        (* _NumEdges.get_val *)
| NodesNotGreater (target current : Z)    (* Pad.__pad_node_store *)
| EdgesLower (target current : Z)         (* Pad.__pad_edge_store *)
| DataNodePadType                         (* Pad.__call__, Data branch *)
| DataEdgePadType
| DataNumNodesType
| DataNumEdgesType
| HeteroNodePadType                       (* Pad.__call__, HeteroData branch *)
| HeteroEdgePadType
| PyKeyError
| PyIndexError
| PyTypeError
| PyRuntimeError.

Inductive Res (A : Type) :=
| Ok (a : A)
| Raise (e : Error).
Arguments Ok {A} a.
Arguments Raise {A} e.

#[global] Instance Res_ret : MRet Res := λ A a, Ok a.
#[global] Instance Res_bind : MBind Res := λ A B k r,
  match r with
  | Ok a => k a
  | Raise e => Raise e
  end.

Definition assert (b : bool) (e : Error) : Res unit :=
  if b then Ok tt else Raise e.

Definition is_ok {A} (r : Res A) : bool :=
  match r with Ok _ => true | Raise _ => false end.

(** ** Padding policies *)

Abbreviation AttrNameType := string.
Abbreviation NodeStoreType := string.
Abbreviation EdgeStoreType := (string * string * string)%type.

(** The [store_type] argument of [get_val]: [None], a node type or an edge
    type. *)
Inductive StoreKey :=
| SKNone
| SKNode (t : NodeStoreType)
| SKEdge (t : EdgeStoreType).

Record UniformPadding := mkUniformPadding {
  uniform_padding_values : PadVal
}.

(** After [_process] every value of an [AttrNamePadding] is a
    [UniformPadding]. *)
Record AttrNamePadding := mkAttrNamePadding {
  attr_padding_values : gmap AttrNameType UniformPadding;
  attr_default_value : PadVal
}.

(** A value of a [NodeTypePadding] or an [EdgeTypePadding] after
    [_process]. *)
Inductive StorePadding :=
| SPUniform (u : UniformPadding)
| SPAttrName (a : AttrNamePadding).

Record NodeTypePadding := mkNodeTypePadding {
  node_padding_values : gmap NodeStoreType StorePadding;
  node_default_value : PadVal
}.

Record EdgeTypePadding := mkEdgeTypePadding {
  edge_padding_values : gmap EdgeStoreType StorePadding;
  edge_default_value : PadVal
}.

Inductive Padding :=
| PUniform (u : UniformPadding)
| PAttrName (a : AttrNamePadding)
| PNodeType (n : NodeTypePadding)
| PEdgeType (e : EdgeTypePadding).

(** What a caller can hand to a constructor before anything is checked. *)
#[warnings="-register-all"] Inductive pyobj :=
| PyNone
| PyNum (v : PadVal)
| PyStr (s : string)
| PyTuple (elems : list pyobj)
| PyList (elems : list pyobj)
| PyDict (items : list (pyobj * pyobj))
| PyPadding (p : Padding).

(** *** [isinstance] tests *)

Definition is_PadVal (o : pyobj) : bool :=
  match o with PyNum _ => true | _ => false end.
Definition is_str (o : pyobj) : bool :=
  match o with PyStr _ => true | _ => false end.
Definition is_tuple (o : pyobj) : bool :=
  match o with PyTuple _ => true | _ => false end.
Definition is_dict (o : pyobj) : bool :=
  match o with PyDict _ => true | _ => false end.
Definition is_UniformPadding (o : pyobj) : bool :=
  match o with PyPadding (PUniform _) => true | _ => false end.
Definition is_AttrNamePadding (o : pyobj) : bool :=
  match o with PyPadding (PAttrName _) => true | _ => false end.
Definition is_Padding (o : pyobj) : bool :=
  match o with PyPadding _ => true | _ => false end.

(** *** UniformPadding *)

Definition UniformPadding_init (padding_values : pyobj) : Res UniformPadding :=
  match padding_values with
  | PyNum v => Ok (mkUniformPadding v)
  | _ => Raise UniformPaddingType
  end.

Definition UniformPadding_get_val (self : UniformPadding)
    (store_type : StoreKey) (attr_name : option AttrNameType) : Res PadVal :=
  Ok (uniform_padding_values self).

(** *** MappingPadding *)

Section MappingPadding.
(** The class attributes [key_types] and [val_types], as the tests they
    are used for. *)
Variable key_types : pyobj → bool.
Variable val_types : pyobj → bool.

Definition MappingPadding_validate_key_val (key val : pyobj) : Res unit :=
  (assert (key_types key) KeyTypeNotAccepted;;
   assert (val_types val) ValTypeNotAccepted).

Variable validate_key_val : pyobj → pyobj → Res unit.

Fixpoint validate_items (items : list (pyobj * pyobj)) : Res unit :=
  match items with
  | [] => Ok tt
  | (key, val) :: rest =>
      (validate_key_val key val;; validate_items rest)
  end.

Definition MappingPadding_validate (padding_values : pyobj) : Res unit :=
  match padding_values with
  | PyDict items => validate_items items
  | _ => Raise PaddingValuesNotDict
  end.
End MappingPadding.

(** [padding_values = {}] when the argument is [None]. *)
Definition or_empty_dict (padding_values : pyobj) : pyobj :=
  match padding_values with
  | PyNone => PyDict []
  | o => o
  end.

Definition dict_items (o : pyobj) : list (pyobj * pyobj) :=
  match o with PyDict items => items | _ => [] end.

(** [_process] for one value: a scalar becomes [UniformPadding(pad_val)],
    a policy object stays. *)
Definition process_uniform (val : pyobj) : option UniformPadding :=
  match val with
  | PyNum v => Some (mkUniformPadding v)
  | PyPadding (PUniform u) => Some u
  | _ => None
  end.

Definition process_store_padding (val : pyobj) : option StorePadding :=
  match val with
  | PyNum v => Some (SPUniform (mkUniformPadding v))
  | PyPadding (PUniform u) => Some (SPUniform u)
  | PyPadding (PAttrName a) => Some (SPAttrName a)
  | _ => None
  end.

Definition as_str (o : pyobj) : option string :=
  match o with PyStr s => Some s | _ => None end.

Definition as_edge_type (o : pyobj) : option EdgeStoreType :=
  match o with
  | PyTuple [PyStr s; PyStr r; PyStr d] => Some (s, r, d)
  | _ => None
  end.

(** The dictionary an object holds after [_process], built from the items
    of the validated argument in their order (a later item for the same
    key replaces an earlier one). *)
Definition process_items {K V} `{Countable K}
    (as_key : pyobj → option K) (as_val : pyobj → option V)
    (items : list (pyobj * pyobj)) : gmap K V :=
  foldl (λ m kv,
           match as_key kv.1, as_val kv.2 with
           | Some k, Some v => <[k := v]> m
           | _, _ => m
           end) ∅ items.

(** *** AttrNamePadding *)

Definition AttrName_val_types (o : pyobj) : bool :=
  is_UniformPadding o || is_PadVal o.

Definition AttrNamePadding_init (padding_values : pyobj)
    (default_value : PadVal) : Res AttrNamePadding :=
  let padding_values := or_empty_dict padding_values in
  (MappingPadding_validate
     (MappingPadding_validate_key_val is_str AttrName_val_types)
     padding_values;;
   Ok (mkAttrNamePadding
         (process_items as_str process_uniform (dict_items padding_values))
         default_value)).

Definition AttrNamePadding_get_val (self : AttrNamePadding)
    (store_type : StoreKey) (attr_name : option AttrNameType) : Res PadVal :=
  match attr_name with
  | Some name =>
      if decide (name ∈ dom (attr_padding_values self)) then
        match attr_padding_values self !! name with
        | Some u => UniformPadding_get_val u SKNone None
        | None => Raise PyKeyError
        end
      else Ok (attr_default_value self)
  | None => Ok (attr_default_value self)
  end.

(** *** NodeTypePadding and EdgeTypePadding *)

Definition StoreType_val_types (o : pyobj) : bool :=
  is_UniformPadding o || is_AttrNamePadding o || is_PadVal o.

Definition StorePadding_get_val (self : StorePadding)
    (store_type : StoreKey) (attr_name : option AttrNameType) : Res PadVal :=
  match self with
  | SPUniform u => UniformPadding_get_val u store_type attr_name
  | SPAttrName a => AttrNamePadding_get_val a store_type attr_name
  end.

Definition NodeTypePadding_init (padding_values : pyobj)
    (default_value : PadVal) : Res NodeTypePadding :=
  let padding_values := or_empty_dict padding_values in
  (MappingPadding_validate
     (MappingPadding_validate_key_val is_str StoreType_val_types)
     padding_values;;
   Ok (mkNodeTypePadding
         (process_items as_str process_store_padding
            (dict_items padding_values))
         default_value)).

Definition NodeTypePadding_get_val (self : NodeTypePadding)
    (store_type : StoreKey) (attr_name : option AttrNameType) : Res PadVal :=
  match store_type with
  | SKNode t =>
      if decide (t ∈ dom (node_padding_values self)) then
        match node_padding_values self !! t with
        | Some p => StorePadding_get_val p SKNone attr_name
        | None => Raise PyKeyError
        end
      else Ok (node_default_value self)
  | _ => Ok (node_default_value self)
  end.

Definition key_num_elems : nat := 3.

Fixpoint validate_key_elems (elems : list pyobj) : Res unit :=
  match elems with
  | [] => Ok tt
  | key_elem :: rest =>
      (assert (is_str key_elem) EdgeKeyElemType;;
       validate_key_elems rest)
  end.

(** [len(key)] and the iteration over [key] are only reached for a tuple:
    the inherited check of the key type comes first. *)
Definition EdgeTypePadding_validate_key_val (key val : pyobj) : Res unit :=
  (MappingPadding_validate_key_val is_tuple StoreType_val_types key val;;
   match key with
   | PyTuple elems =>
       assert (bool_decide (length elems = key_num_elems))
              (InvalidEdgeTypeArity (length elems));;
       validate_key_elems elems
   | _ => Raise PyTypeError
   end).

Definition EdgeTypePadding_init (padding_values : pyobj)
    (default_value : PadVal) : Res EdgeTypePadding :=
  let padding_values := or_empty_dict padding_values in
  (MappingPadding_validate EdgeTypePadding_validate_key_val padding_values;;
   Ok (mkEdgeTypePadding
         (process_items as_edge_type process_store_padding
            (dict_items padding_values))
         default_value)).

Definition EdgeTypePadding_get_val (self : EdgeTypePadding)
    (store_type : StoreKey) (attr_name : option AttrNameType) : Res PadVal :=
  match store_type with
  | SKEdge t =>
      if decide (t ∈ dom (edge_padding_values self)) then
        match edge_padding_values self !! t with
        | Some p => StorePadding_get_val p SKNone attr_name
        | None => Raise PyKeyError
        end
      else Ok (edge_default_value self)
  | _ => Ok (edge_default_value self)
  end.

(** Dynamic dispatch of [get_val] on the class of the policy. *)
Definition get_val (self : Padding)
    (store_type : StoreKey) (attr_name : option AttrNameType) : Res PadVal :=
  match self with
  | PUniform u => UniformPadding_get_val u store_type attr_name
  | PAttrName a => AttrNamePadding_get_val a store_type attr_name
  | PNodeType n => NodeTypePadding_get_val n store_type attr_name
  | PEdgeType e => EdgeTypePadding_get_val e store_type attr_name
  end.

(** ** State and exceptions together *)

(** A method that mutates its receiver (or an argument) and may raise: the
    state after the call is returned in both cases, since an exception
    leaves the mutations made before it in place. *)
Definition SM (S A : Type) : Type := S → Res A * S.

#[global] Instance SM_ret S : MRet (SM S) := λ A a s, (Ok a, s).
#[global] Instance SM_bind S : MBind (SM S) := λ A B k m s,
  match m s with
  | (Ok a, s') => k a s'
  | (Raise e, s') => (Raise e, s')
  end.

Definition gets {S A} (f : S → A) : SM S A := λ s, (Ok (f s), s).
Definition modify {S} (f : S → S) : SM S unit := λ s, (Ok tt, f s).
Definition liftR {S A} (r : Res A) : SM S A := λ s, (r, s).

(** Run a computation on a part of the state. *)
Definition zoom {S T A} (get : S → T) (set : T → S → S) (m : SM T A) : SM S A :=
  λ s, let (r, t') := m (get s) in (r, set t' s).

(** [for x in xs: body(x)] *)
Fixpoint for_ {S A} (xs : list A) (body : A → SM S unit) : SM S unit :=
  match xs with
  | [] => mret tt
  | x :: rest => body x;; for_ rest body
  end.

(** ** Size resolvers *)

(** The arguments [max_num_nodes] and [max_num_edges] as a caller passes
    them: [None], an [int], a [dict] of counts, or an object of any other
    type (a float, a string, a list, ...). *)
Inductive SizeArg (D : Type) :=
| SzNone
| SzInt (n : Z)
| SzDict (d : D)
| SzOther.
Arguments SzNone {D}.
Arguments SzInt {D} n.
Arguments SzDict {D} d.
Arguments SzOther {D}.

(** The [value] attribute of an [_IntOrDict]. *)
Inductive IntOrDict (D : Type) :=
| VNone
| VInt (n : Z)
| VDict (d : D).
Arguments VNone {D}.
Arguments VInt {D} n.
Arguments VDict {D} d.

Module _IntOrDict.
(** [is_number] is assigned once, in [__init__], from the type of
    [value]; no method changes that type afterwards, so it is read off
    the value here. *)
Definition is_number {D} (value : IntOrDict D) : bool :=
  match value with VInt _ => true | _ => false end.

Definition is_none {D} (value : IntOrDict D) : bool :=
  match value with VNone => true | _ => false end.

(** [return self.value] in the homogeneous branch of [get_val]. *)
Definition scalar_value {D} (value : IntOrDict D) : option Z :=
  match value with VInt n => Some n | _ => None end.

Definition as_dict {D} `{Empty D} (value : IntOrDict D) : D :=
  match value with VDict d => d | _ => ∅ end.
End _IntOrDict.

(** Arithmetic on what a resolver returns: [None] is not a number. *)
Definition py_int (v : option Z) : Res Z :=
  match v with Some n => Ok n | None => Raise PyTypeError end.

Definition py_mul (a b : option Z) : Res Z :=
  x ← py_int a; y ← py_int b; Ok (x * y).

Record _NumNodes := mk_NumNodes {
  nodes_value : IntOrDict (gmap NodeStoreType Z)
}.

Definition _NumNodes_init (value : SizeArg (gmap NodeStoreType Z)) : Res _NumNodes :=
  match value with
  | SzInt n => Ok (mk_NumNodes (VInt n))
  | SzDict d => Ok (mk_NumNodes (VDict d))
  | SzNone | SzOther => Raise MaxNumNodesType
  end.

Definition _NumNodes_get_val (self : _NumNodes) (key : option NodeStoreType)
    : Res (option Z) :=
  if _IntOrDict.is_number (nodes_value self)
     || _IntOrDict.is_none (nodes_value self)
  then Ok (_IntOrDict.scalar_value (nodes_value self))
  else
    key ← match key with Some k => Ok k | None => Raise NodeKeyNotStr end;
    let d := _IntOrDict.as_dict (nodes_value self) in
    assert (bool_decide (key ∈ dom d)) (NodeSizeMissing key);;
    match d !! key with
    | Some n => Ok (Some n)
    | None => Raise PyKeyError
    end.

(** The two-level [defaultdict] of an [_NumEdges]: first the pair of node
    types, then the relation. *)
Abbreviation EdgeCache :=
  (gmap (NodeStoreType * NodeStoreType) (gmap string Z)).

(** [cache[src, dst][edge_type] = v]; the inner dictionary springs into
    existence when it is missing. *)
Definition cache_set (cache : EdgeCache)
    (src dst : NodeStoreType) (edge_type : string) (v : Z) : EdgeCache :=
  <[(src, dst) := <[edge_type := v]> (default ∅ (cache !! (src, dst)))]> cache.

(** The two membership tests of [_NumEdges.get_val] followed by the read. *)
Definition cache_get (cache : EdgeCache)
    (src dst : NodeStoreType) (edge_type : string) : option Z :=
  if decide ((src, dst) ∈ dom cache) then
    inner ← cache !! (src, dst);
    if decide (edge_type ∈ dom inner) then inner !! edge_type else None
  else None.

Record _NumEdges := mk_NumEdges {
  edges_value : IntOrDict EdgeCache;
  num_nodes : _NumNodes
}.

Definition seed_cache (value : gmap EdgeStoreType Z) : EdgeCache :=
  map_fold (λ k v num_edges,
              let '(src_node, edge_type, dst_node) := k in
              cache_set num_edges src_node dst_node edge_type v) ∅ value.

Definition _NumEdges_init (value : SizeArg (gmap EdgeStoreType Z))
    (num_nodes : _NumNodes) : Res _NumEdges :=
  match value with
  | SzOther => Raise MaxNumEdgesType
  | SzInt n => Ok (mk_NumEdges (VInt n) num_nodes)
  | SzDict d => Ok (mk_NumEdges (VDict (seed_cache d)) num_nodes)
  | SzNone =>
      if _IntOrDict.is_number (nodes_value num_nodes) then
        a ← _NumNodes_get_val num_nodes None;
        b ← _NumNodes_get_val num_nodes None;
        num_edges ← py_mul a b;
        Ok (mk_NumEdges (VInt num_edges) num_nodes)
      else Ok (mk_NumEdges (VDict ∅) num_nodes)
  end.

Definition _NumEdges_is_none (self : _NumEdges) : bool :=
  _IntOrDict.is_none (edges_value self).

Definition _NumEdges_get_val (key : option EdgeStoreType)
    : SM _NumEdges (option Z) := λ self,
  if _IntOrDict.is_number (edges_value self)
     || _IntOrDict.is_none (edges_value self)
  then (Ok (_IntOrDict.scalar_value (edges_value self)), self)
  else
    match key with
    | None => (Raise EdgeKeyNotTriple, self)
    | Some (src_v, edge_type, dst_v) =>
        let cache := _IntOrDict.as_dict (edges_value self) in
        match cache_get cache src_v dst_v edge_type with
        | Some n => (Ok (Some n), self)
        | None =>
            match (a ← _NumNodes_get_val (num_nodes self) (Some src_v);
                   b ← _NumNodes_get_val (num_nodes self) (Some dst_v);
                   py_mul a b) with
            | Raise e => (Raise e, self)
            | Ok max_num_edges =>
                let cache' := cache_set cache src_v dst_v edge_type max_num_edges in
                let self' := mk_NumEdges (VDict cache') (num_nodes self) in
                (match cache_get cache' src_v dst_v edge_type with
                 | Some n => Ok (Some n)
                 | None => Raise PyKeyError
                 end, self')
            end
        end
    end.

(** ** Tensors and the padding primitive *)

(** A dense tensor: its shape and the element at each index (only indices
    within the shape are meaningful). *)
Record Tensor := mkTensor {
  shape : list Z;
  item : list Z → PadVal
}.

Definition ndim (t : Tensor) : nat := length (shape t).

(** An index within a shape. *)
Definition in_shape (shape idx : list Z) : Prop :=
  Forall2 (λ i n, 0 ≤ i < n) idx shape.

(** Two tensors with the same content. *)
Definition tensor_eqv (t t' : Tensor) : Prop :=
  shape t = shape t' ∧ ∀ idx, in_shape (shape t) idx → item t idx = item t' idx.

(** The [pad] argument of [F.pad] lists (before, after) amounts starting
    from the last dimension. *)
Fixpoint pad_pairs (pads : list Z) : list (Z * Z) :=
  match pads with
  | before :: after :: rest => (before, after) :: pad_pairs rest
  | _ => []
  end.

(** The amounts per dimension, first dimension first. *)
Definition dim_pads (ndim : nat) (pads : list Z) : list (Z * Z) :=
  replicate (ndim - length (pad_pairs pads)) (0, 0) ++ reverse (pad_pairs pads).

Definition padded_shape (shape : list Z) (dp : list (Z * Z)) : list Z :=
  zip_with (λ n '(before, after), before + n + after) shape dp.

Definition in_source (shape : list Z) (dp : list (Z * Z)) (idx : list Z) : bool :=
  forallb (λ '(i, (n, (before, _))), (before <=? i) && (i <? before + n))
          (zip idx (zip shape dp)).

Definition source_index (dp : list (Z * Z)) (idx : list Z) : list Z :=
  zip_with (λ i '(before, _), i - before) idx dp.

(** Modelled from the spec: the tensor padding primitive
    ([torch.nn.functional.pad] in mode ['constant']), which is not part of
    the transform.  It returns a new tensor with the given number of
    additional slots along each padded dimension, all filled with [value];
    the original data is preserved and keeps its indices (shifted by the
    amount before, which the transform always leaves at zero). *)
Definition F_pad (input : Tensor) (pads : list Z) (value : PadVal) : Res Tensor :=
  if negb (Nat.even (length pads)) || (2 * ndim input <? length pads)%nat
  then Raise PyRuntimeError
  else
    let dp := dim_pads (ndim input) pads in
    let shape' := padded_shape (shape input) dp in
    if forallb (λ n, 0 <=? n) shape' then
      Ok (mkTensor shape'
            (λ idx, if in_source (shape input) dp idx
                    then item input (source_index dp idx)
                    else value))
    else Raise PyRuntimeError.

(** [l[i] = x] on a Python list: a negative index counts from the end. *)
Definition py_list_index {A} (l : list A) (i : Z) : option nat :=
  let n := Z.of_nat (length l) in
  let j := if i <? 0 then i + n else i in
  if (0 <=? j) && (j <? n) then Some (Z.to_nat j) else None.

Definition py_list_setitem {A} (l : list A) (i : Z) (x : A) : Res (list A) :=
  match py_list_index l i with
  | Some j => Ok (<[j := x]> l)
  | None => Raise PyIndexError
  end.

Definition _pad_tensor_dim (input : Tensor) (dim : Z) (length : Z)
    (pad_value : PadVal) : Res Tensor :=
  let pads := replicate (2 * ndim input) 0 in
  pads ← py_list_setitem pads (-2 * dim - 1) length;
  F_pad input pads pad_value.

(** [padded[row, start:] = value] on a tensor of at least two dimensions. *)
Definition setitem_row_from (padded : Tensor) (row start : Z) (value : PadVal)
    : Res Tensor :=
  match shape padded with
  | n0 :: _ :: _ =>
      if (0 <=? row) && (row <? n0) then
        Ok (mkTensor (shape padded)
              (λ idx, match idx with
                      | i :: j :: _ =>
                          if (i =? row) && (start <=? j) then value
                          else item padded idx
                      | _ => item padded idx
                      end))
      else Raise PyIndexError
  | _ => Raise PyIndexError
  end.

(** The callers pass node counts for the two pad values. *)
Definition _pad_edge_index (input : Tensor) (length : Z)
    (src_pad_value dst_pad_value : Z) : Res Tensor :=
  let pads := [0; length; 0; 0] in
  padded ← F_pad input pads (PInt src_pad_value);
  if bool_decide (src_pad_value ≠ dst_pad_value) then
    match shape input !! 1%nat with
    | Some n1 => setitem_row_from padded 1 n1 (PInt dst_pad_value)
    | None => Raise PyIndexError
    end
  else Ok padded.

(** ** Stores and records *)

(** The value of an attribute: a tensor, or any other Python object. *)
Inductive Attr :=
| ATensor (t : Tensor)
| AObject (o : pyobj).

(** A store: the attributes of one node type or one edge type (or of a
    whole homogeneous graph), by name. *)
Abbreviation Store := (gmap AttrNameType Attr).

(** [store.keys()] *)
Definition keys (store : Store) : list AttrNameType := (map_to_list store).*1.

(** The introspection that the storage classes of [torch_geometric.data]
    offer and that the transform consumes; they are not part of the
    transform, so every result below holds for whatever they answer. *)
Class Storage := {
  is_node_attr : Store → AttrNameType → bool;
  is_edge_attr : Store → AttrNameType → bool;
  store_num_nodes : Store → Z;
  store_num_edges : Store → Z;
  __cat_dim__ : AttrNameType → Tensor → Z
}.

(** A record: a [Data] object with its single store, or a [HeteroData]
    object with one store per node type and per edge type. *)
Inductive BaseData :=
| Data (_store : Store)
| HeteroData (_node_store_dict : gmap NodeStoreType Store)
             (_edge_store_dict : gmap EdgeStoreType Store).

Definition isinstance_Data (data : BaseData) : bool :=
  match data with Data _ => true | HeteroData _ _ => false end.

Inductive StoreId :=
| GlobalStore
| NodeStore (node_type : NodeStoreType)
| EdgeStore (edge_type : EdgeStoreType).

Definition get_store (sid : StoreId) (data : BaseData) : option Store :=
  match data, sid with
  | Data s, GlobalStore => Some s
  | HeteroData ns _, NodeStore t => ns !! t
  | HeteroData _ es, EdgeStore t => es !! t
  | _, _ => None
  end.

(** The store that [sid] names is mutated in place. *)
Definition set_store (sid : StoreId) (s : Store) (data : BaseData) : BaseData :=
  match data, sid with
  | Data _, GlobalStore => Data s
  | HeteroData ns es, NodeStore t => HeteroData (<[t := s]> ns) es
  | HeteroData ns es, EdgeStore t => HeteroData ns (<[t := s]> es)
  | _, _ => data
  end.

(** All stores of a record, with their names. *)
Definition stores (data : BaseData) : list StoreId :=
  match data with
  | Data _ => [GlobalStore]
  | HeteroData ns es =>
      (NodeStore <$> (map_to_list ns).*1) ++ (EdgeStore <$> (map_to_list es).*1)
  end.

(** [data.edge_items()] and [data.node_items()], by store name. *)
Definition edge_items (data : BaseData) : list EdgeStoreType :=
  match data with
  | HeteroData _ es => (map_to_list es).*1
  | Data _ => []
  end.

Definition node_items (data : BaseData) : list NodeStoreType :=
  match data with
  | HeteroData ns _ => (map_to_list ns).*1
  | Data _ => []
  end.

(** ** The transform *)

Record Pad := mkPad {
  _default_pad_value : UniformPadding;
  max_num_nodes : _NumNodes;
  max_num_edges : _NumEdges;
  exclude_keys : gset AttrNameType;
  node_pad : Padding;
  edge_pad : Padding;
  node_additional_attrs_pad : gmap AttrNameType PadVal
}.

Definition with_max_num_edges (e : _NumEdges) (self : Pad) : Pad :=
  mkPad (_default_pad_value self) (max_num_nodes self) e (exclude_keys self)
        (node_pad self) (edge_pad self) (node_additional_attrs_pad self).

Definition _process_padding_argument (self_default_pad_value : UniformPadding)
    (padding : pyobj) (name : string) : Res Padding :=
  match padding with
  | PyPadding p => Ok p
  | PyNone => Ok (PUniform self_default_pad_value)
  | _ =>
      match UniformPadding_init padding with
      | Ok u => Ok (PUniform u)
      | Raise _ => Raise (InvalidPaddingArg name)
      end
  end.

Definition mask_attrs : list AttrNameType :=
  ["train_mask"; "val_mask"; "test_mask"].

Definition Pad_init
    (max_num_nodes : SizeArg (gmap NodeStoreType Z))
    (max_num_edges : SizeArg (gmap EdgeStoreType Z))
    (node_pad_value edge_pad_value : pyobj)
    (mask_pad_value : option PadVal)
    (exclude_keys : option (list AttrNameType)) : Res Pad :=
  let _default_pad_value := mkUniformPadding float_zero in
  max_num_nodes ← _NumNodes_init max_num_nodes;
  max_num_edges ← _NumEdges_init max_num_edges max_num_nodes;
  let exclude_keys : gset AttrNameType :=
    match exclude_keys with Some l => list_to_set l | None => ∅ end in
  assert (bool_decide ("x" ∉ exclude_keys)) ExcludedX;;
  node_pad ← _process_padding_argument _default_pad_value node_pad_value "node_pad_value";
  edge_pad ← _process_padding_argument _default_pad_value edge_pad_value "edge_pad_value";
  let mask_pad_value := default float_zero mask_pad_value in
  Ok (mkPad _default_pad_value max_num_nodes max_num_edges exclude_keys
            node_pad edge_pad
            (list_to_map ((λ key, (key, mask_pad_value)) <$> mask_attrs))).

Definition node_key (node_type : option NodeStoreType) : StoreKey :=
  match node_type with Some t => SKNode t | None => SKNone end.

Definition edge_key (edge_type : option EdgeStoreType) : StoreKey :=
  match edge_type with Some t => SKEdge t | None => SKNone end.

(** [exclude_keys] is always a set, so the test [self.exclude_keys is None]
    of the two predicates is always false and is left out. *)
Definition __should_pad_node_attr (self : Pad) (attr_name : AttrNameType) : bool :=
  if bool_decide (attr_name ∈ dom (node_additional_attrs_pad self)) then true
  else if bool_decide (attr_name ∉ exclude_keys self) then true
  else false.

Definition __should_pad_edge_attr (self : Pad) (attr_name : AttrNameType) : bool :=
  if _NumEdges_is_none (max_num_edges self) then false
  else if bool_decide (attr_name = "edge_index") then true
  else if bool_decide (attr_name ∉ exclude_keys self) then true
  else false.

Definition __get_node_padding (self : Pad) (attr_name : AttrNameType)
    (node_type : option NodeStoreType) : Res PadVal :=
  if decide (attr_name ∈ dom (node_additional_attrs_pad self)) then
    match node_additional_attrs_pad self !! attr_name with
    | Some v => Ok v
    | None => Raise PyKeyError
    end
  else get_val (node_pad self) (node_key node_type) (Some attr_name).

Definition __get_edge_padding (self : Pad) (attr_name : AttrNameType)
    (edge_type : option EdgeStoreType) : Res PadVal :=
  get_val (edge_pad self) (edge_key edge_type) (Some attr_name).

(** The transform object and the store a method works on. *)
Definition PS : Type := Pad * Store.

Definition store_getitem (key : AttrNameType) : SM PS Attr := λ s,
  match s.2 !! key with
  | Some a => (Ok a, s)
  | None => (Raise PyKeyError, s)
  end.

Definition store_setitem (key : AttrNameType) (a : Attr) : SM PS unit :=
  modify (λ s, (s.1, <[key := a]> s.2)).

Definition store_delitem (key : AttrNameType) : SM PS unit :=
  modify (λ s, (s.1, delete key s.2)).

Definition as_tensor {S} (a : Attr) : SM S Tensor :=
  liftR (match a with ATensor t => Ok t | AObject _ => Raise PyTypeError end).

(** [self.max_num_edges.get_val(edge_type)], which may fill the cache. *)
Definition max_num_edges_get_val (edge_type : option EdgeStoreType)
    : SM PS (option Z) :=
  zoom (λ s : PS, max_num_edges s.1)
       (λ e s, (with_max_num_edges e s.1, s.2))
       (_NumEdges_get_val edge_type).

Section Transform.
Context `{Storage}.

Definition __pad_node_store (node_type : option NodeStoreType) : SM PS unit :=
  self ← gets fst;
  store ← gets snd;
  let attrs_to_pad :=
    List.filter (λ attr, is_node_attr store attr && __should_pad_node_attr self attr)
                (keys store) in
  match attrs_to_pad with
  | [] => mret tt
  | _ =>
      num_target_nodes ← liftR (_NumNodes_get_val (max_num_nodes self) node_type ≫= py_int);
      liftR (assert (store_num_nodes store <? num_target_nodes)
                    (NodesNotGreater num_target_nodes (store_num_nodes store)));;
      let num_pad_nodes := num_target_nodes - store_num_nodes store in
      for_ attrs_to_pad (λ attr_name,
        attr ← store_getitem attr_name;
        self ← gets fst;
        pad_value ← liftR (__get_node_padding self attr_name node_type);
        input ← as_tensor attr;
        let dim := __cat_dim__ attr_name input in
        padded ← liftR (_pad_tensor_dim input dim num_pad_nodes pad_value);
        store_setitem attr_name (ATensor padded))
  end.

Definition __pad_edge_store (num_nodes : Z + Z * Z)
    (edge_type : option EdgeStoreType) : SM PS unit :=
  self ← gets fst;
  store ← gets snd;
  let attrs_to_pad :=
    List.filter (λ attr, is_edge_attr store attr && __should_pad_edge_attr self attr)
                (keys store) in
  match attrs_to_pad with
  | [] => mret tt
  | _ =>
      num_target_edges ← (v ← max_num_edges_get_val edge_type; liftR (py_int v));
      liftR (assert (store_num_edges store <=? num_target_edges)
                    (EdgesLower num_target_edges (store_num_edges store)));;
      let num_pad_edges := num_target_edges - store_num_edges store in
      let '(src_pad_value, dst_pad_value) :=
        match num_nodes with
        | inr p => p
        | inl n => (n, n)
        end in
      for_ attrs_to_pad (λ attr_name,
        attr ← store_getitem attr_name;
        input ← as_tensor attr;
        let dim := __cat_dim__ attr_name input in
        if bool_decide (attr_name = "edge_index") then
          padded ← liftR (_pad_edge_index input num_pad_edges
                                          src_pad_value dst_pad_value);
          store_setitem attr_name (ATensor padded)
        else
          self ← gets fst;
          pad_value ← liftR (__get_edge_padding self attr_name edge_type);
          padded ← liftR (_pad_tensor_dim input dim num_pad_edges pad_value);
          store_setitem attr_name (ATensor padded))
  end.

(** [for key in self.exclude_keys: if key in store.keys(): del store[key]] *)
Definition del_excluded : SM PS unit :=
  self ← gets fst;
  for_ (elements (exclude_keys self)) (λ key,
    store ← gets snd;
    if decide (key ∈ dom store) then store_delitem key else mret tt).

(** The transform object and the record being padded. *)
Definition PD : Type := Pad * BaseData.

(** Work on one store of the record; the store object is shared with the
    record, so what is done to it is done to the record. *)
Definition on_store {A} (sid : StoreId) (m : SM PS A) : SM PD A :=
  zoom (λ s : PD, (s.1, default ∅ (get_store sid s.2)))
       (λ (t : PS) (s : PD), (t.1, set_store sid t.2 s.2))
       m.

(** [data[node_type].num_nodes] on a [HeteroData]: indexing with a node
    type that has no store yet creates an empty one. *)
Definition node_store_num_nodes (node_type : NodeStoreType) : SM PD Z := λ s,
  match s.2 with
  | HeteroData ns es =>
      match ns !! node_type with
      | Some store => (Ok (store_num_nodes store), s)
      | None => (Ok (store_num_nodes ∅), (s.1, HeteroData (<[node_type := ∅]> ns) es))
      end
  | Data _ => (Raise PyTypeError, s)
  end.

(** [data.num_nodes] on a [Data]. *)
Definition data_num_nodes : SM PD Z := λ s,
  match s.2 with
  | Data store => (Ok (store_num_nodes store), s)
  | HeteroData _ _ => (Raise PyTypeError, s)
  end.

Definition isinstance_homo (p : Padding) : bool :=
  match p with PUniform _ | PAttrName _ => true | _ => false end.
Definition isinstance_hetero_node (p : Padding) : bool :=
  match p with PUniform _ | PAttrName _ | PNodeType _ => true | _ => false end.
Definition isinstance_hetero_edge (p : Padding) : bool :=
  match p with PUniform _ | PAttrName _ | PEdgeType _ => true | _ => false end.

Definition call_Data : SM PD unit :=
  self ← gets fst;
  liftR (assert (isinstance_homo (node_pad self)) DataNodePadType);;
  liftR (assert (isinstance_homo (edge_pad self)) DataEdgePadType);;
  liftR (assert (_IntOrDict.is_number (nodes_value (max_num_nodes self)))
                DataNumNodesType);;
  liftR (assert (_IntOrDict.is_number (edges_value (max_num_edges self))
                 || _NumEdges_is_none (max_num_edges self))
                DataNumEdgesType);;
  data ← gets snd;
  for_ (stores data) (λ store,
    on_store store del_excluded;;
    num_nodes ← data_num_nodes;
    on_store store (__pad_edge_store (inl num_nodes) None);;
    on_store store (__pad_node_store None)).

Definition call_HeteroData : SM PD unit :=
  self ← gets fst;
  liftR (assert (isinstance_hetero_node (node_pad self)) HeteroNodePadType);;
  liftR (assert (isinstance_hetero_edge (edge_pad self)) HeteroEdgePadType);;
  data ← gets snd;
  for_ (edge_items data) (λ edge_type,
    on_store (EdgeStore edge_type) del_excluded;;
    let '(src_node_type, _, dst_node_type) := edge_type in
    src_num_nodes ← node_store_num_nodes src_node_type;
    dst_num_nodes ← node_store_num_nodes dst_node_type;
    on_store (EdgeStore edge_type)
      (__pad_edge_store (inr (src_num_nodes, dst_num_nodes)) (Some edge_type)));;
  data ← gets snd;
  for_ (node_items data) (λ node_type,
    on_store (NodeStore node_type) del_excluded;;
    on_store (NodeStore node_type) (__pad_node_store (Some node_type))).

(** The body of [__call__], up to the [return]. *)
Definition call_body : SM PD unit :=
  data ← gets snd;
  if isinstance_Data data then call_Data else call_HeteroData.

(** Records live on a heap and are passed by reference; the world of a
    call is the transform object together with that heap. *)
Definition World : Type := Pad * gmap positive BaseData.

Definition __call__ (data : positive) : SM World positive := λ w,
  match w.2 !! data with
  | None => (Raise PyKeyError, w)
  | Some d =>
      let (r, s) := call_body (w.1, d) in
      (r;; Ok data, (s.1, <[data := s.2]> w.2))
  end.
End Transform.

(** ** Reference definitions

    What the design document says the components compute, written down
    independently of the code above, to compare the code against. *)
Module Reference.
(** The policy resolver: a uniform policy yields its scalar; a policy by
    attribute name yields the value of the entry of that name, else the
    default; a policy by node or edge type hands the attribute name on to
    the entry of that type, else yields the default. *)
Definition resolve_uniform (u : UniformPadding) : PadVal :=
  uniform_padding_values u.

Definition resolve_by_name (a : AttrNamePadding)
    (attribute_name : option AttrNameType) : PadVal :=
  match attribute_name ≫= (attr_padding_values a !!.) with
  | Some u => resolve_uniform u
  | None => attr_default_value a
  end.

Definition resolve_entry (p : StorePadding)
    (attribute_name : option AttrNameType) : PadVal :=
  match p with
  | SPUniform u => resolve_uniform u
  | SPAttrName a => resolve_by_name a attribute_name
  end.

Definition resolve (p : Padding) (entity_type : StoreKey)
    (attribute_name : option AttrNameType) : PadVal :=
  match p with
  | PUniform u => resolve_uniform u
  | PAttrName a => resolve_by_name a attribute_name
  | PNodeType n =>
      match entity_type with
      | SKNode t =>
          match node_padding_values n !! t with
          | Some entry => resolve_entry entry attribute_name
          | None => node_default_value n
          end
      | _ => node_default_value n
      end
  | PEdgeType e =>
      match entity_type with
      | SKEdge t =>
          match edge_padding_values e !! t with
          | Some entry => resolve_entry entry attribute_name
          | None => edge_default_value e
          end
      | _ => edge_default_value e
      end
  end.

(** The shapes that construction accepts. *)
Definition name_key (key : pyobj) : Prop := ∃ s, key = PyStr s.
Definition edge_type_key (key : pyobj) : Prop :=
  ∃ src rel dst, key = PyTuple [PyStr src; PyStr rel; PyStr dst].
Definition scalar_or_uniform (val : pyobj) : Prop :=
  (∃ v, val = PyNum v) ∨ (∃ u, val = PyPadding (PUniform u)).
Definition scalar_uniform_or_by_name (val : pyobj) : Prop :=
  scalar_or_uniform val ∨ (∃ a, val = PyPadding (PAttrName a)).

(** A mapping all of whose keys and values have the expected shape; an
    absent argument stands for the empty mapping. *)
Definition well_shaped (key_ok val_ok : pyobj → Prop) (padding_values : pyobj) : Prop :=
  padding_values = PyNone ∨
  ∃ items, padding_values = PyDict items ∧
           Forall (λ kv, key_ok kv.1 ∧ val_ok kv.2) items.

(** A scalar value is wrapped into a uniform policy, a policy is kept. *)
Definition wrapped (val : pyobj) : option StorePadding :=
  match val with
  | PyNum v => Some (SPUniform (mkUniformPadding v))
  | PyPadding (PUniform u) => Some (SPUniform u)
  | PyPadding (PAttrName a) => Some (SPAttrName a)
  | _ => None
  end.
End Reference.

(** The state of an edge-count resolver after a series of resolutions,
    whatever their outcomes. *)
Fixpoint after_get_vals (keys : list (option EdgeStoreType)) (self : _NumEdges)
    : _NumEdges :=
  match keys with
  | [] => self
  | key :: rest => after_get_vals rest (_NumEdges_get_val key self).2
  end.

(** ** Auxiliary definitions for the proofs *)

(** What [del_excluded] leaves of a store. *)
Definition drop_excluded (excluded : gset AttrNameType) (store : Store) : Store :=
  filter (λ kv, kv.1 ∉ excluded) store.

(** One round of a padding loop whose new value depends on the attribute
    alone: read [store[attr_name]], compute, write back. *)
Definition update_attr (step : AttrNameType → Attr → Res Attr)
    (attr_name : AttrNameType) : SM PS unit := λ s,
  match s.2 !! attr_name with
  | None => (Raise PyKeyError, s)
  | Some attr =>
      match step attr_name attr with
      | Ok attr' => (Ok tt, (s.1, <[attr_name := attr']> s.2))
      | Raise e => (Raise e, s)
      end
  end.

Definition attr_tensor (attr : Attr) : Res Tensor :=
  match attr with ATensor t => Ok t | AObject _ => Raise PyTypeError end.

(** The two pad values that [__pad_edge_store] takes from its [num_nodes]
    argument. *)
Definition src_dst_pad_values (num_nodes : Z + Z * Z) : Z * Z :=
  match num_nodes with
  | inr p => p
  | inl n => (n, n)
  end.

(** Everything of the transform object but the content of the cache of
    the edge-count resolver. *)
Definition config (self : Pad) :=
  (_default_pad_value self, max_num_nodes self, exclude_keys self,
   node_pad self, edge_pad self, node_additional_attrs_pad self,
   num_nodes (max_num_edges self),
   _IntOrDict.scalar_value (edges_value (max_num_edges self)),
   _IntOrDict.is_none (edges_value (max_num_edges self))).

(** The transform objects that differ at most in the cache of the
    edge-count resolver. *)
Definition same_config (s s' : Pad) : Prop := config s' = config s.

(** On one store: the configuration and the attribute names stay. *)
Definition store_frame (s s' : PS) : Prop :=
  same_config s.1 s'.1 ∧ dom s'.2 = dom s.2.

(** Attribute values with the same content. *)
Definition attr_eqv (a a' : Attr) : Prop :=
  match a, a' with
  | ATensor t, ATensor t' => tensor_eqv t t'
  | AObject o, AObject o' => o = o'
  | _, _ => False
  end.

Section Steps.
Context `{Storage}.

(** The new value of one attribute in the loop of [__pad_node_store]. *)
Definition node_step (self : Pad) (node_type : option NodeStoreType)
    (num_pad_nodes : Z) (attr_name : AttrNameType) (attr : Attr) : Res Attr :=
  pad_value ← __get_node_padding self attr_name node_type;
  input ← attr_tensor attr;
  padded ← _pad_tensor_dim input (__cat_dim__ attr_name input) num_pad_nodes pad_value;
  Ok (ATensor padded).

(** The new value of one attribute in the loop of [__pad_edge_store]. *)
Definition edge_step (self : Pad) (edge_type : option EdgeStoreType)
    (num_pad_edges src_pad_value dst_pad_value : Z)
    (attr_name : AttrNameType) (attr : Attr) : Res Attr :=
  input ← attr_tensor attr;
  if bool_decide (attr_name = "edge_index") then
    padded ← _pad_edge_index input num_pad_edges src_pad_value dst_pad_value;
    Ok (ATensor padded)
  else
    pad_value ← __get_edge_padding self attr_name edge_type;
    padded ← _pad_tensor_dim input (__cat_dim__ attr_name input) num_pad_edges pad_value;
    Ok (ATensor padded).

(** An edge attribute that padding by nothing can handle: a tensor of
    non-negative sizes; the connectivity attribute has two dimensions
    (and at least two rows when the two pad values differ), any other
    attribute varies along one of its dimensions. *)
Definition paddable_edge_attr (src dst : Z) (k : AttrNameType) (a : Attr) : Prop :=
  ∃ t, a = ATensor t ∧ Forall (λ n, 0 ≤ n) (shape t) ∧
       if bool_decide (k = "edge_index")
       then ∃ r c, shape t = [r; c] ∧ (src = dst ∨ 1 < r)
       else - Z.of_nat (ndim t) ≤ __cat_dim__ k t < Z.of_nat (ndim t).

Definition node_attrs_to_pad (self : Pad) (store : Store) : list AttrNameType :=
  List.filter (λ attr, is_node_attr store attr && __should_pad_node_attr self attr)
              (keys store).

Definition edge_attrs_to_pad (self : Pad) (store : Store) : list AttrNameType :=
  List.filter (λ attr, is_edge_attr store attr && __should_pad_edge_attr self attr)
              (keys store).
End Steps.

(** ** A storage for the examples

    Modelled from the spec: the record and store introspection of
    [torch_geometric.data], which the transform consumes and which is not
    part of it.  A store exposes its attribute names, whether an attribute
    is node-level or edge-level, the dimension along which an attribute
    varies, and the number of entities present.  The instance below counts
    nodes along the first dimension of [x] and edges along the last
    dimension of [edge_index]; an attribute varies along its last
    dimension when its name contains [index] and along its first
    otherwise; a tensor is node-level (edge-level) when its size along
    that dimension is the number of nodes (edges), the name deciding when
    the two numbers coincide. *)
Fixpoint is_substring (p s : string) : bool :=
  String.prefix p s ||
  match s with
  | EmptyString => false
  | String _ rest => is_substring p rest
  end.

Definition size_along (t : Tensor) (dim : Z) : option Z :=
  py_list_index (shape t) dim ≫= (shape t !!.).

Definition example_cat_dim (key : AttrNameType) (t : Tensor) : Z :=
  if is_substring "index" key || bool_decide (key = "face") then -1 else 0.

Definition example_num_nodes (store : Store) : Z :=
  match store !! "x" with
  | Some (ATensor t) => default 0 (size_along t 0)
  | _ => 0
  end.

Definition example_num_edges (store : Store) : Z :=
  match store !! "edge_index" with
  | Some (ATensor t) => default 0 (size_along t (-1))
  | _ => 0
  end.

Definition example_is_node_attr (store : Store) (key : AttrNameType) : bool :=
  match store !! key with
  | Some (ATensor t) =>
      bool_decide (size_along t (example_cat_dim key t) = Some (example_num_nodes store))
      && (negb (example_num_nodes store =? example_num_edges store)
          || negb (is_substring "edge" key))
  | _ => false
  end.

Definition example_is_edge_attr (store : Store) (key : AttrNameType) : bool :=
  match store !! key with
  | Some (ATensor t) =>
      bool_decide (size_along t (example_cat_dim key t) = Some (example_num_edges store))
      && (negb (example_num_nodes store =? example_num_edges store)
          || is_substring "edge" key)
  | _ => false
  end.

Definition example_storage : Storage :=
  {| is_node_attr := example_is_node_attr;
     is_edge_attr := example_is_edge_attr;
     store_num_nodes := example_num_nodes;
     store_num_edges := example_num_edges;
     __cat_dim__ := example_cat_dim |}.

(** A computation all of whose runs relate the state before and the state
    after, whatever the outcome. *)
Definition sm_preserves {S A} (R : S → S → Prop) (m : SM S A) : Prop :=
  ∀ s, R s (m s).2.

(** ** Views of a record for the statements *)

(** [data[node_type]] on a [HeteroData]: the store of the node type, an
    empty one being created when there is none. *)
Definition ensure_node_store (node_type : NodeStoreType)
    (ns : gmap NodeStoreType Store) : gmap NodeStoreType Store :=
  match ns !! node_type with
  | Some _ => ns
  | None => <[node_type := ∅]> ns
  end.

(** The node stores after indexing the record with node types: stores are
    kept, and an empty store may have been created where there was none. *)
Definition nodes_extended (ns ns' : gmap NodeStoreType Store) : Prop :=
  ∀ t, ns' !! t = ns !! t ∨ (ns !! t = None ∧ ns' !! t = Some ∅).

Section Views.
Context `{Storage}.

(** What edge padding works on for the store [sid] of a record given to
    [__call__]: the store once the excluded attributes are deleted, and
    the node counts of the stores of its two endpoints, read before any
    node attribute is padded. *)
Definition edge_padding_input (excluded : gset AttrNameType) (data : BaseData)
    (sid : StoreId) : option (Store * Z * Z) :=
  match data, sid with
  | Data store, GlobalStore =>
      let store := drop_excluded excluded store in
      Some (store, store_num_nodes store, store_num_nodes store)
  | HeteroData ns es, EdgeStore (src, rel, dst) =>
      store ← es !! (src, rel, dst);
      Some (drop_excluded excluded store,
            store_num_nodes (default ∅ (ns !! src)),
            store_num_nodes (default ∅ (ns !! dst)))
  | _, _ => None
  end.

(** One round of the loop over the edge stores of a [HeteroData]. *)
Definition edge_round (edge_type : EdgeStoreType) : SM PD unit :=
  on_store (EdgeStore edge_type) del_excluded;;
  let '(src_node_type, _, dst_node_type) := edge_type in
  src_num_nodes ← node_store_num_nodes src_node_type;
  dst_num_nodes ← node_store_num_nodes dst_node_type;
  on_store (EdgeStore edge_type)
    (__pad_edge_store (inr (src_num_nodes, dst_num_nodes)) (Some edge_type)).

(** One round of the loop over the node stores of a [HeteroData]. *)
Definition node_round (node_type : NodeStoreType) : SM PD unit :=
  on_store (NodeStore node_type) del_excluded;;
  on_store (NodeStore node_type) (__pad_node_store (Some node_type)).
End Views.

(** ** Example data *)

(** A two-dimensional tensor from its rows. *)
Definition tensor_of_rows (rows : list (list PadVal)) : Tensor :=
  mkTensor [Z.of_nat (length rows); Z.of_nat (length (default [] (head rows)))]
           (λ idx, match idx with
                   | [i; j] =>
                       default float_zero
                         (rows !! Z.to_nat i ≫= (.!! Z.to_nat j))
                   | _ => float_zero
                   end).

(** Three nodes with one feature each, and the two edges 0→1 and 1→2. *)
Definition example_x : Tensor :=
  tensor_of_rows [[float_one]; [float_one]; [float_one]].

Definition example_edge_index : Tensor :=
  tensor_of_rows [[PInt 0; PInt 1]; [PInt 1; PInt 2]].

Definition example_store : Store :=
  {[ "x" := ATensor example_x; "edge_index" := ATensor example_edge_index ]}.

(** A transform with default policies, no excluded attribute, and the
    given counts. *)
Definition example_pad (nodes : IntOrDict (gmap NodeStoreType Z))
    (edges : IntOrDict EdgeCache) : Pad :=
  mkPad (mkUniformPadding float_zero) (mk_NumNodes nodes)
        (mk_NumEdges edges (mk_NumNodes nodes)) ∅
        (PUniform (mkUniformPadding float_zero))
        (PUniform (mkUniformPadding float_zero))
        (list_to_map ((λ key, (key, float_zero)) <$> mask_attrs)).

(** A heterogeneous record: two nodes of type [a], three of type [b], and
    the two edges 0→1 and 1→2 from [a] to [b]. *)
Definition example_hetero : BaseData :=
  HeteroData
    {[ "a" := {[ "x" := ATensor (tensor_of_rows [[float_one]; [float_one]]) ]};
       "b" := {[ "x" := ATensor example_x ]} ]}
    {[ ("a", "rel", "b") := {[ "edge_index" := ATensor example_edge_index ]} ]}.

(** A transform for it: four nodes of type [a], five of type [b], edge
    counts left to the resolver. *)
Definition example_hetero_pad : Pad :=
  example_pad (VDict {[ "a" := 4; "b" := 5 ]}) (VDict ∅).

(** The element at an index of a tensor attribute of a store of a record. *)
Definition record_item (data : BaseData) (sid : StoreId) (key : AttrNameType)
    (idx : list Z) : option PadVal :=
  match get_store sid data ≫= (.!! key) with
  | Some (ATensor t) => Some (item t idx)
  | _ => None
  end.

(** The shape of a tensor attribute of a store of a record. *)
Definition record_shape (data : BaseData) (sid : StoreId) (key : AttrNameType)
    : option (list Z) :=
  match get_store sid data ≫= (.!! key) with
  | Some (ATensor t) => Some (shape t)
  | _ => None
  end.

(** The attribute names of a store of a record. *)
Definition record_keys (data : BaseData) (sid : StoreId)
    : option (list AttrNameType) :=
  keys <$> get_store sid data.

(** ** Further definitions for the statements *)

(** A pad value that [Pad] accepts: absent, a scalar, or a policy. *)
Definition acceptable_pad_value (o : pyobj) : Prop :=
  o = PyNone ∨ (∃ v, o = PyNum v) ∨ (∃ p, o = PyPadding p).

(** [set(exclude_keys) if exclude_keys is not None else set()] *)
Definition excluded_set (excluded : option (list AttrNameType))
    : gset AttrNameType :=
  match excluded with Some l => list_to_set l | None => ∅ end.

(** The policy that [Pad] keeps for a pad value it accepts. *)
Definition policy_of_pad_value (o : pyobj) : Padding :=
  match o with
  | PyPadding p => p
  | PyNum v => PUniform (mkUniformPadding v)
  | _ => PUniform (mkUniformPadding float_zero)
  end.

(** The dimension that a Python index [dim] denotes in a tensor of [n]
    dimensions: a negative index counts from the end. *)
Definition normal_dim (n : nat) (dim : Z) : nat :=
  Z.to_nat (if dim <? 0 then dim + Z.of_nat n else dim).

(** * Properties *)

(** ** Policies *)

Lemma AttrNamePadding_get_val_ok a st an :
  AttrNamePadding_get_val a st an = Ok (Reference.resolve_by_name a an).
Proof.
  unfold AttrNamePadding_get_val, Reference.resolve_by_name.
  destruct an as [name|]; simpl; [|done].
  case_decide as Hin.
  - apply elem_of_dom in Hin as [u Hu]. by rewrite Hu.
  - apply not_elem_of_dom in Hin. by rewrite Hin.
Qed.

Lemma StorePadding_get_val_ok p st an :
  StorePadding_get_val p st an = Ok (Reference.resolve_entry p an).
Proof. destruct p; simpl; [done|apply AttrNamePadding_get_val_ok]. Qed.

Lemma get_val_Ok p store_type attr_name :
  get_val p store_type attr_name
  = Ok (Reference.resolve p store_type attr_name).
Proof.
  destruct p as [u|a|n|e]; simpl.
  - done.
  - apply AttrNamePadding_get_val_ok.
  - unfold NodeTypePadding_get_val. destruct store_type as [|t|t]; try done.
    destruct (decide (t ∈ dom (node_padding_values n))) as [Hin|Hin].
    + apply elem_of_dom in Hin as [q Hq]. rewrite Hq.
      apply StorePadding_get_val_ok.
    + apply not_elem_of_dom in Hin. by rewrite Hin.
  - unfold EdgeTypePadding_get_val. destruct store_type as [|t|t]; try done.
    destruct (decide (t ∈ dom (edge_padding_values e))) as [Hin|Hin].
    + apply elem_of_dom in Hin as [q Hq]. rewrite Hq.
      apply StorePadding_get_val_ok.
    + apply not_elem_of_dom in Hin. by rewrite Hin.
Qed.

(** C6.  Resolution of a policy never raises and yields what the reference
    resolver yields: a uniform policy its scalar for all keys; a policy by
    attribute name the (uniform) entry of the name if there is one, else
    the default; a policy by node type or by edge type the resolution of
    the entry of the type with no type and the same name if there is one,
    else the default. *)
Theorem get_val_refines_reference (p : Padding) (store_type : StoreKey)
    (attr_name : option AttrNameType) :
  get_val p store_type attr_name = Ok (Reference.resolve p store_type attr_name).
Proof.
  destruct p as [u|a|n|e]; simpl.
  - done.
  - apply AttrNamePadding_get_val_ok.
  - unfold NodeTypePadding_get_val. destruct store_type as [|t|t]; try done.
    case_decide as Hin.
    + apply elem_of_dom in Hin as [q Hq]. rewrite Hq.
      apply StorePadding_get_val_ok.
    + apply not_elem_of_dom in Hin. by rewrite Hin.
  - unfold EdgeTypePadding_get_val. destruct store_type as [|t|t]; try done.
    case_decide as Hin.
    + apply elem_of_dom in Hin as [q Hq]. rewrite Hq.
      apply StorePadding_get_val_ok.
    + apply not_elem_of_dom in Hin. by rewrite Hin.
Qed.

(** ** Construction of policies *)

Lemma res_unit_ok (r : Res unit) : is_ok r = true ↔ r = Ok tt.
Proof. destruct r as [[]|]; simpl; split; congruence. Qed.

Lemma assert_ok b e : assert b e = Ok tt ↔ b = true.
Proof. destruct b; simpl; split; congruence. Qed.

Lemma bind_unit_ok (r : Res unit) (k : Res unit) :
  (r;; k) = Ok tt ↔ r = Ok tt ∧ k = Ok tt.
Proof.
  destruct r as [[]|]; unfold mbind, Res_bind; simpl.
  - tauto.
  - split; [discriminate|intros [? _]; discriminate].
Qed.

Lemma validate_items_ok vkv items :
  validate_items vkv items = Ok tt ↔ Forall (λ kv, vkv kv.1 kv.2 = Ok tt) items.
Proof.
  induction items as [|[key val] rest IH]; simpl.
  - split; [constructor|done].
  - rewrite bind_unit_ok, IH, Forall_cons. done.
Qed.

Lemma is_str_name_key key : is_str key = true ↔ Reference.name_key key.
Proof.
  unfold Reference.name_key. destruct key; simpl; split;
    try discriminate; try (intros [? ?]; discriminate); eauto.
Qed.

Lemma AttrName_val_types_spec val :
  AttrName_val_types val = true ↔ Reference.scalar_or_uniform val.
Proof.
  unfold AttrName_val_types, Reference.scalar_or_uniform.
  destruct val as [| | | | | |[]]; simpl; split; try discriminate; eauto;
    intros [[? ?]|[? ?]]; discriminate.
Qed.

Lemma StoreType_val_types_spec val :
  StoreType_val_types val = true ↔ Reference.scalar_uniform_or_by_name val.
Proof.
  unfold StoreType_val_types, Reference.scalar_uniform_or_by_name,
    Reference.scalar_or_uniform.
  destruct val as [| | | | | |[]]; simpl; split; try discriminate; eauto;
    intros [[[? ?]|[? ?]]|[? ?]]; discriminate.
Qed.

Lemma validate_key_elems_ok elems :
  validate_key_elems elems = Ok tt ↔ Forall Reference.name_key elems.
Proof.
  induction elems as [|o rest IH]; simpl.
  - split; [constructor|done].
  - rewrite bind_unit_ok, assert_ok, IH, Forall_cons, is_str_name_key. done.
Qed.

Lemma EdgeTypePadding_validate_key_val_ok key val :
  EdgeTypePadding_validate_key_val key val = Ok tt ↔
  Reference.edge_type_key key ∧ Reference.scalar_uniform_or_by_name val.
Proof.
  unfold EdgeTypePadding_validate_key_val, MappingPadding_validate_key_val.
  rewrite !bind_unit_ok, !assert_ok, StoreType_val_types_spec.
  unfold Reference.edge_type_key. split.
  - intros [[Htuple Hval] Hkey]. split; [|done].
    destruct key; try discriminate.
    apply bind_unit_ok in Hkey as [Hlen Helems].
    apply assert_ok, bool_decide_eq_true in Hlen.
    apply validate_key_elems_ok in Helems.
    destruct elems as [|a [|b [|c [|? ?]]]]; try discriminate.
    apply Forall_cons in Helems as [[? ->] Helems].
    apply Forall_cons in Helems as [[? ->] Helems].
    apply Forall_cons in Helems as [[? ->] _]. eauto.
  - intros [(src & rel & dst & ->) Hval]. done.
Qed.

Lemma MappingPadding_validate_ok vkv (key_ok val_ok : pyobj → Prop) pv :
  (∀ key val, vkv key val = Ok tt ↔ key_ok key ∧ val_ok val) →
  MappingPadding_validate vkv (or_empty_dict pv) = Ok tt ↔
  Reference.well_shaped key_ok val_ok pv.
Proof.
  intros Hkv. unfold Reference.well_shaped.
  assert (∀ items, validate_items vkv items = Ok tt ↔
                   Forall (λ kv, key_ok kv.1 ∧ val_ok kv.2) items) as Hitems.
  { intros items. rewrite validate_items_ok. apply Forall_proper; [|done].
    intros [key val]. apply Hkv. }
  destruct pv; simpl; try (split; [discriminate|intros [?|(? & ? & ?)]; discriminate]).
  - split; [by left|done].
  - rewrite Hitems. split; [eauto|].
    intros [?|(? & [= <-] & ?)]; [discriminate|done].
Qed.

Lemma name_val_ok (val_types : pyobj → bool) (val_ok : pyobj → Prop) :
  (∀ val, val_types val = true ↔ val_ok val) →
  ∀ key val, MappingPadding_validate_key_val is_str val_types key val = Ok tt ↔
             Reference.name_key key ∧ val_ok val.
Proof.
  intros Hval key val. unfold MappingPadding_validate_key_val.
  by rewrite bind_unit_ok, !assert_ok, is_str_name_key, Hval.
Qed.

Lemma init_is_ok {A} (r : Res unit) (a : A) :
  is_ok (r;; Ok a) = true ↔ r = Ok tt.
Proof. destruct r as [[]|]; simpl; split; congruence. Qed.

(** What [_process] leaves in the dictionary, for a dictionary with
    distinct keys. *)
Lemma process_items_lookup {K V} `{Countable K}
    (as_key : pyobj → option K) (as_val : pyobj → option V) items :
  (∀ o o' k, as_key o = Some k → as_key o' = Some k → o = o') →
  NoDup items.*1 →
  ∀ key val k v, (key, val) ∈ items → as_key key = Some k →
                 as_val val = Some v →
                 process_items as_key as_val items !! k = Some v.
Proof.
  intros Hinj. unfold process_items.
  induction items as [|[key' val'] items IH] using rev_ind;
    intros Hnd key val k v Hin Hk Hv.
  - by apply elem_of_nil in Hin.
  - rewrite fmap_app in Hnd. apply NoDup_app in Hnd as (Hnd & Hfresh & _).
    rewrite foldl_app. simpl.
    apply elem_of_app in Hin as [Hin|Hin].
    + assert (key ≠ key') as Hne.
      { intros <-. eapply Hfresh; [|by left].
        apply list_elem_of_fmap. by exists (key, val). }
      assert (process_items as_key as_val items !! k = Some v) as Hl
        by by apply (IH Hnd key val).
      unfold process_items in Hl.
      destruct (as_key key') as [k'|] eqn:Hk'; [|done].
      destruct (as_val val'); [|done].
      rewrite lookup_insert_ne; [done|].
      intros ->. apply Hne. by eapply Hinj.
    + apply list_elem_of_singleton in Hin as [= <- <-].
      rewrite Hk, Hv. apply lookup_insert_eq.
Qed.

Lemma as_str_Some o s : as_str o = Some s → o = PyStr s.
Proof. destruct o; simpl; congruence. Qed.

Lemma as_edge_type_Some o k :
  as_edge_type o = Some k → o = PyTuple [PyStr k.1.1; PyStr k.1.2; PyStr k.2].
Proof.
  unfold as_edge_type. intros Hk.
  repeat match type of Hk with
         | context [match ?x with _ => _ end] => destruct x; try discriminate
         end.
  by injection Hk as <-.
Qed.

Lemma init_Ok_inv {A} (r : Res unit) (a a' : A) :
  (r;; Ok a) = Ok a' → r = Ok tt ∧ a = a'.
Proof. destruct r as [[]|]; unfold mbind; simpl; [|discriminate]. by intros [= ->]. Qed.

Lemma process_uniform_wrapped val :
  Reference.scalar_or_uniform val →
  SPUniform <$> process_uniform val = Reference.wrapped val.
Proof. by intros [[? ->]|[? ->]]. Qed.

(** C9.  Construction of a policy validates eagerly.  It succeeds exactly
    when [padding_values] is a mapping (an absent argument standing for the
    empty one) every key of which has the expected shape -- a string for
    the policies by attribute name and by node type, a tuple of exactly
    three strings for the policy by edge type -- and every value of which
    has a type of the accepted set of the variant; in the constructed
    object a scalar value is wrapped into a uniform policy; and an
    attribute-name policy with the 2-tuple key [('x', 'y')] is rejected by
    the check of the key type, at construction. *)
Theorem policy_construction_validates :
  (∀ pv d, is_ok (AttrNamePadding_init pv d) = true ↔
     Reference.well_shaped Reference.name_key Reference.scalar_or_uniform pv) ∧
  (∀ pv d, is_ok (NodeTypePadding_init pv d) = true ↔
     Reference.well_shaped Reference.name_key
       Reference.scalar_uniform_or_by_name pv) ∧
  (∀ pv d, is_ok (EdgeTypePadding_init pv d) = true ↔
     Reference.well_shaped Reference.edge_type_key
       Reference.scalar_uniform_or_by_name pv) ∧
  (∀ items d a name val,
     NoDup items.*1 → AttrNamePadding_init (PyDict items) d = Ok a →
     (PyStr name, val) ∈ items →
     SPUniform <$> attr_padding_values a !! name = Reference.wrapped val ∧
     attr_default_value a = d) ∧
  (∀ items d n name val,
     NoDup items.*1 → NodeTypePadding_init (PyDict items) d = Ok n →
     (PyStr name, val) ∈ items →
     node_padding_values n !! name = Reference.wrapped val ∧
     node_default_value n = d) ∧
  (∀ items d e src rel dst val,
     NoDup items.*1 → EdgeTypePadding_init (PyDict items) d = Ok e →
     (PyTuple [PyStr src; PyStr rel; PyStr dst], val) ∈ items →
     edge_padding_values e !! (src, rel, dst) = Reference.wrapped val ∧
     edge_default_value e = d) ∧
  AttrNamePadding_init
    (PyDict [(PyTuple [PyStr "x"; PyStr "y"], PyNum float_one)]) float_zero
  = Raise KeyTypeNotAccepted.
Proof.
  assert (∀ o o' k, as_str o = Some k → as_str o' = Some k → o = o') as Hstr.
  { intros o o' k ->%as_str_Some ->%as_str_Some. done. }
  assert (∀ o o' k, as_edge_type o = Some k → as_edge_type o' = Some k → o = o')
    as Hedge.
  { intros o o' k ->%as_edge_type_Some ->%as_edge_type_Some. done. }
  repeat split.
  - unfold AttrNamePadding_init. rewrite init_is_ok.
    apply MappingPadding_validate_ok, name_val_ok, AttrName_val_types_spec.
  - unfold AttrNamePadding_init. rewrite init_is_ok.
    apply MappingPadding_validate_ok, name_val_ok, AttrName_val_types_spec.
  - unfold NodeTypePadding_init. rewrite init_is_ok.
    apply MappingPadding_validate_ok, name_val_ok, StoreType_val_types_spec.
  - unfold NodeTypePadding_init. rewrite init_is_ok.
    apply MappingPadding_validate_ok, name_val_ok, StoreType_val_types_spec.
  - unfold EdgeTypePadding_init. rewrite init_is_ok.
    apply MappingPadding_validate_ok, EdgeTypePadding_validate_key_val_ok.
  - unfold EdgeTypePadding_init. rewrite init_is_ok.
    apply MappingPadding_validate_ok, EdgeTypePadding_validate_key_val_ok.
  - unfold AttrNamePadding_init in *. apply init_Ok_inv in H0 as [Hval <-].
    simpl in *. apply validate_items_ok in Hval.
    rewrite Forall_forall in Hval. specialize (Hval _ H1). simpl in Hval.
    apply name_val_ok with (val_ok := Reference.scalar_or_uniform) in Hval
      as [_ Hval]; [|apply AttrName_val_types_spec].
    rewrite <-(process_uniform_wrapped _ Hval).
    destruct (process_uniform val) as [u|] eqn:Hu.
    + by erewrite (process_items_lookup as_str process_uniform).
    + by destruct Hval as [[? ->]|[? ->]].
  - unfold AttrNamePadding_init in *. by apply init_Ok_inv in H0 as [_ <-].
  - unfold NodeTypePadding_init in *. apply init_Ok_inv in H0 as [Hval <-].
    simpl in *. apply validate_items_ok in Hval.
    rewrite Forall_forall in Hval. specialize (Hval _ H1). simpl in Hval.
    apply name_val_ok with (val_ok := Reference.scalar_uniform_or_by_name)
      in Hval as [_ Hval]; [|apply StoreType_val_types_spec].
    change (Reference.wrapped val) with (process_store_padding val).
    destruct (process_store_padding val) as [u|] eqn:Hu.
    + by erewrite (process_items_lookup as_str process_store_padding).
    + by destruct Hval as [[[? ->]|[? ->]]|[? ->]].
  - unfold NodeTypePadding_init in *. by apply init_Ok_inv in H0 as [_ <-].
  - unfold EdgeTypePadding_init in *. apply init_Ok_inv in H0 as [Hval <-].
    simpl in *. apply validate_items_ok in Hval.
    rewrite Forall_forall in Hval. specialize (Hval _ H1). simpl in Hval.
    apply EdgeTypePadding_validate_key_val_ok in Hval as [_ Hval].
    change (Reference.wrapped val) with (process_store_padding val).
    destruct (process_store_padding val) as [u|] eqn:Hu.
    + by erewrite (process_items_lookup as_edge_type process_store_padding).
    + by destruct Hval as [[[? ->]|[? ->]]|[? ->]].
  - unfold EdgeTypePadding_init in *. by apply init_Ok_inv in H0 as [_ <-].
Qed.

Lemma policy_construction_validates_witness :
  is_ok (EdgeTypePadding_init
           (PyDict [(PyTuple [PyStr "v1"; PyStr "e1"; PyStr "v2"], PyNum (PInt 3))])
           float_zero) = true ∧
  SPUniform <$>
    attr_padding_values
      (mkAttrNamePadding
         (process_items as_str process_uniform [(PyStr "y", PyNum float_zero)])
         float_one) !! "y"
  = Some (SPUniform (mkUniformPadding float_zero)).
Proof.
  split.
  - apply (proj1 (proj2 (proj2 policy_construction_validates))).
    right. eexists. split; [reflexivity|].
    apply Forall_cons. split; [split|by apply Forall_nil].
    + by exists "v1", "e1", "v2".
    + left. left. by eexists.
  - apply (proj1 (proj2 (proj2 (proj2 policy_construction_validates)))
             [(PyStr "y", PyNum float_zero)] float_one _ "y" (PyNum float_zero)).
    + apply NoDup_singleton.
    + reflexivity.
    + apply list_elem_of_singleton. reflexivity.
Defined.

(** ** The node-count resolver *)

Lemma _NumNodes_get_val_dict d key :
  _NumNodes_get_val (mk_NumNodes (VDict d)) (Some key) =
  match d !! key with
  | Some n => Ok (Some n)
  | None => Raise (NodeSizeMissing key)
  end.
Proof.
  unfold _NumNodes_get_val. simpl. unfold mbind, Res_bind; simpl.
  case_bool_decide as Hin; simpl.
  - apply elem_of_dom in Hin as [n Hn]. by rewrite Hn.
  - apply not_elem_of_dom in Hin. by rewrite Hin.
Qed.

(** C5, as the code has it.  The node-count argument is accepted exactly
    when it is an integer or a mapping; [None] is rejected at construction.
    A resolver holding a scalar returns it whatever the key, and the
    homogeneous branch would return [None] unchanged were the value [None].
    A resolver holding a mapping, queried with a string key, fails with the
    error naming that key exactly when the key is absent from the mapping,
    and returns the entry otherwise; queried without a string key it fails
    the check of the key type instead. *)
Theorem NumNodes_accepts_and_resolves :
  (∀ arg, is_ok (_NumNodes_init arg) = true ↔
          (∃ n, arg = SzInt n) ∨ (∃ d, arg = SzDict d)) ∧
  _NumNodes_init SzNone = Raise MaxNumNodesType ∧
  (∀ n key, _NumNodes_get_val (mk_NumNodes (VInt n)) key = Ok (Some n)) ∧
  (∀ key, _NumNodes_get_val (mk_NumNodes VNone) key = Ok None) ∧
  (∀ d key, _NumNodes_get_val (mk_NumNodes (VDict d)) (Some key)
            = Raise (NodeSizeMissing key) ↔ key ∉ dom d) ∧
  (∀ d key n, d !! key = Some n →
              _NumNodes_get_val (mk_NumNodes (VDict d)) (Some key) = Ok (Some n)) ∧
  (∀ d, _NumNodes_get_val (mk_NumNodes (VDict d)) None = Raise NodeKeyNotStr).
Proof.
  split_and!; try done.
  - intros arg. split.
    + destruct arg; simpl; try discriminate; eauto.
    + by intros [[n ->]|[d ->]].
  - intros d key. rewrite _NumNodes_get_val_dict, not_elem_of_dom.
    destruct (d !! key); split; congruence.
  - intros d key n Hn. by rewrite _NumNodes_get_val_dict, Hn.
Qed.

Lemma NumNodes_accepts_and_resolves_witness :
  _NumNodes_get_val (mk_NumNodes (VDict {["a" := 4; "b" := 5]})) (Some "b")
  = Ok (Some 5) ∧
  _NumNodes_get_val (mk_NumNodes (VDict {["a" := 4; "b" := 5]})) (Some "c")
  = Raise (NodeSizeMissing "c").
Proof.
  split.
  - apply (proj1 (proj2 (proj2 (proj2 (proj2 (proj2
             NumNodes_accepts_and_resolves)))))). reflexivity.
  - apply (proj1 (proj2 (proj2 (proj2 (proj2 NumNodes_accepts_and_resolves))))).
    apply not_elem_of_dom. reflexivity.
Defined.

(** C5 as stated fails: a node-count spec of [None] is not accepted. *)
Lemma NumNodes_None_rejected :
  ¬ ∃ resolver, _NumNodes_init SzNone = Ok resolver.
Proof. intros [resolver Hinit]. discriminate Hinit. Qed.

(** ** The edge-count resolver *)

Lemma cache_get_lookup (cache : EdgeCache) src dst edge_type :
  cache_get cache src dst edge_type = cache !! (src, dst) ≫= (.!! edge_type).
Proof.
  unfold cache_get.
  destruct (decide ((src, dst) ∈ dom cache)) as [Hin|Hin].
  - apply elem_of_dom in Hin as [inner Hinner]. rewrite Hinner. simpl.
    destruct (decide (edge_type ∈ dom inner)) as [Hin'|Hin']; [done|].
    by apply not_elem_of_dom in Hin'.
  - apply not_elem_of_dom in Hin. by rewrite Hin.
Qed.

Lemma cache_get_set (cache : EdgeCache) src dst edge_type v src' dst' edge_type' :
  cache_get (cache_set cache src' dst' edge_type' v) src dst edge_type =
  if decide ((src, dst, edge_type) = (src', dst', edge_type')) then Some v
  else cache_get cache src dst edge_type.
Proof.
  rewrite !cache_get_lookup. unfold cache_set.
  destruct (decide ((src, dst) = (src', dst'))) as [[= -> ->]|Hne].
  - rewrite lookup_insert_eq. simpl.
    destruct (decide (edge_type = edge_type')) as [->|Hne].
    + rewrite lookup_insert_eq. by rewrite decide_True.
    + rewrite lookup_insert_ne by done. rewrite decide_False by congruence.
      by destruct (cache !! (src', dst')).
  - rewrite lookup_insert_ne by done. rewrite decide_False by congruence. done.
Qed.

(** The explicit entries of the argument are what the cache starts with. *)
Lemma seed_cache_get (value : gmap EdgeStoreType Z) src rel dst :
  cache_get (seed_cache value) src dst rel = value !! (src, rel, dst).
Proof.
  unfold seed_cache.
  apply (map_fold_weak_ind
           (λ cache m, cache_get cache src dst rel = m !! (src, rel, dst))).
  - by rewrite cache_get_lookup.
  - intros [[src' rel'] dst'] v m cache Hfresh IH.
    rewrite cache_get_set. case_decide as Heq.
    + injection Heq as -> -> ->. by rewrite lookup_insert_eq.
    + rewrite lookup_insert_ne by congruence. done.
Qed.

Lemma _NumEdges_get_val_hit cache nn src rel dst n :
  cache_get cache src dst rel = Some n →
  _NumEdges_get_val (Some (src, rel, dst)) (mk_NumEdges (VDict cache) nn)
  = (Ok (Some n), mk_NumEdges (VDict cache) nn).
Proof. intros Hhit. unfold _NumEdges_get_val. simpl. by rewrite Hhit. Qed.

Lemma _NumEdges_get_val_miss cache nn src rel dst a b :
  cache_get cache src dst rel = None →
  _NumNodes_get_val nn (Some src) = Ok (Some a) →
  _NumNodes_get_val nn (Some dst) = Ok (Some b) →
  _NumEdges_get_val (Some (src, rel, dst)) (mk_NumEdges (VDict cache) nn)
  = (Ok (Some (a * b)),
     mk_NumEdges (VDict (cache_set cache src dst rel (a * b))) nn).
Proof.
  intros Hmiss Ha Hb. unfold _NumEdges_get_val. simpl.
  rewrite Hmiss, Ha, Hb. simpl.
  rewrite cache_get_set. by rewrite decide_True.
Qed.

(** A resolution changes neither the kind of value held nor an entry that
    is already in the cache. *)
Lemma _NumEdges_get_val_keeps key self src rel dst n :
  cache_get (_IntOrDict.as_dict (edges_value self)) src dst rel = Some n →
  cache_get (_IntOrDict.as_dict (edges_value (_NumEdges_get_val key self).2))
            src dst rel = Some n.
Proof.
  intros Hn. unfold _NumEdges_get_val.
  destruct (_ || _); [done|].
  destruct key as [[[src' rel'] dst']|]; [|done].
  destruct (cache_get _ src' dst' rel') as [m|] eqn:Hhit; [done|].
  destruct (_ ≫= _) as [max_num_edges|]; [|done].
  simpl. rewrite cache_get_set. case_decide as Heq; [|done].
  injection Heq as -> -> ->. congruence.
Qed.

Lemma after_get_vals_keeps keys self src rel dst n :
  cache_get (_IntOrDict.as_dict (edges_value self)) src dst rel = Some n →
  cache_get (_IntOrDict.as_dict (edges_value (after_get_vals keys self)))
            src dst rel = Some n.
Proof.
  revert self. induction keys as [|key keys IH]; intros self Hn; simpl; [done|].
  by apply IH, _NumEdges_get_val_keeps.
Qed.

Lemma _NumEdges_get_val_is_dict key self :
  _IntOrDict.is_number (edges_value self) = false →
  _IntOrDict.is_none (edges_value self) = false →
  ∃ cache, edges_value (_NumEdges_get_val key self).2 = VDict cache.
Proof.
  intros Hnum Hnone. unfold _NumEdges_get_val. rewrite Hnum, Hnone. simpl.
  destruct (edges_value self) as [|?|cache] eqn:Hv; try done.
  destruct key as [[[src' rel'] dst']|]; simpl; [|by rewrite Hv; eauto].
  destruct (cache_get _ _ _ _); simpl; [by rewrite Hv; eauto|].
  destruct (_ ≫= _); simpl; [eauto|by rewrite Hv; eauto].
Qed.

Lemma after_get_vals_is_dict keys self cache :
  edges_value self = VDict cache →
  ∃ cache', edges_value (after_get_vals keys self) = VDict cache'.
Proof.
  revert self cache. induction keys as [|key keys IH]; intros self cache Hv;
    simpl; [eauto|].
  destruct (_NumEdges_get_val_is_dict key self) as [cache' Hv'];
    [by rewrite Hv..|]. by eapply IH.
Qed.

(** C7.  In a resolver built for edge types (a mapping, or nothing over
    node counts that are a mapping), for a triple that the mapping does not
    seed and whose node counts resolve: the first resolution returns the
    product of the two node counts and stores it in the cache; after any
    further resolutions, of any keys and whatever their outcome, the entry
    is still that value, and resolving the triple again returns it and
    changes nothing -- whatever the node counts would now resolve to, so
    nothing is recomputed. *)
Theorem edge_count_cache_idempotent
    (arg : SizeArg (gmap EdgeStoreType Z)) (nn : _NumNodes) (self : _NumEdges)
    (src rel dst : string) (a b : Z) :
  _NumEdges_init arg nn = Ok self →
  _IntOrDict.is_number (edges_value self) = false →
  (∀ m, arg = SzDict m → m !! (src, rel, dst) = None) →
  _NumNodes_get_val nn (Some src) = Ok (Some a) →
  _NumNodes_get_val nn (Some dst) = Ok (Some b) →
  let first := _NumEdges_get_val (Some (src, rel, dst)) self in
  first.1 = Ok (Some (a * b)) ∧
  cache_get (_IntOrDict.as_dict (edges_value first.2)) src dst rel = Some (a * b) ∧
  ∀ (keys : list (option EdgeStoreType)) (nn' : _NumNodes),
    let later := after_get_vals keys first.2 in
    cache_get (_IntOrDict.as_dict (edges_value later)) src dst rel = Some (a * b) ∧
    _NumEdges_get_val (Some (src, rel, dst)) (mk_NumEdges (edges_value later) nn')
    = (Ok (Some (a * b)), mk_NumEdges (edges_value later) nn').
Proof.
  intros Hinit Hnum Hseed Ha Hb.
  assert (∃ cache, self = mk_NumEdges (VDict cache) nn ∧
                   cache_get cache src dst rel = None) as (cache & -> & Hmiss).
  { destruct arg as [|n|m|]; simpl in Hinit; try discriminate.
    - destruct nn as [[|n|d]]; cbn in Hinit; injection Hinit as <-;
        try discriminate Hnum; (exists ∅; split; [done|]);
        by rewrite cache_get_lookup.
    - injection Hinit as <-. simpl in Hnum. discriminate.
    - injection Hinit as <-. eexists. split; [done|].
      rewrite seed_cache_get. by apply Hseed. }
  intros first. subst first.
  rewrite (_NumEdges_get_val_miss _ _ _ _ _ a b) by done. simpl.
  assert (cache_get (cache_set cache src dst rel (a * b)) src dst rel
          = Some (a * b)) as Hset.
  { rewrite cache_get_set. by rewrite decide_True. }
  split_and!; [done..|].
  intros keys nn'. set (later := after_get_vals keys _).
  assert (cache_get (_IntOrDict.as_dict (edges_value later)) src dst rel
          = Some (a * b)) as Hlater by by apply after_get_vals_keeps.
  split; [done|].
  destruct (after_get_vals_is_dict keys
              (mk_NumEdges (VDict (cache_set cache src dst rel (a * b))) nn) _
              eq_refl) as [cache' Hv].
  fold later in Hv. rewrite Hv in Hlater |- *.
  by apply _NumEdges_get_val_hit.
Qed.

(** The scenario of the design document: node counts [{a: 4, b: 5}] and no
    explicit edge counts give 20 for [(a, rel, b)], also after other
    resolutions and with other node counts. *)
Lemma edge_count_cache_idempotent_witness :
  let nn := mk_NumNodes (VDict {["a" := 4; "b" := 5]}) in
  let self := mk_NumEdges (VDict ∅) nn in
  let first := _NumEdges_get_val (Some ("a", "rel", "b")) self in
  first.1 = Ok (Some 20) ∧
  _NumEdges_get_val (Some ("a", "rel", "b"))
    (mk_NumEdges
       (edges_value (after_get_vals [Some ("b", "rel", "a"); None] first.2))
       (mk_NumNodes (VDict {["a" := 7; "b" := 9]})))
  = (Ok (Some 20),
     mk_NumEdges
       (edges_value (after_get_vals [Some ("b", "rel", "a"); None] first.2))
       (mk_NumNodes (VDict {["a" := 7; "b" := 9]}))).
Proof.
  intros nn self first.
  destruct (edge_count_cache_idempotent SzNone nn self "a" "rel" "b" 4 5)
    as (Hfirst & _ & Hlater).
  - reflexivity.
  - reflexivity.
  - intros m Hm. discriminate Hm.
  - reflexivity.
  - reflexivity.
  - split; [exact Hfirst|].
    apply (Hlater [Some ("b", "rel", "a"); None]
                  (mk_NumNodes (VDict {["a" := 7; "b" := 9]}))).
Defined.

Lemma _NumEdges_init_not_none arg nn self :
  _NumEdges_init arg nn = Ok self → _NumEdges_is_none self = false.
Proof.
  destruct arg as [|n|m|]; simpl; try discriminate.
  - destruct nn as [[|n|d]]; cbn; by intros [= <-].
  - by intros [= <-].
  - by intros [= <-].
Qed.

Lemma _NumEdges_get_val_is_none key self :
  _NumEdges_is_none (_NumEdges_get_val key self).2 = _NumEdges_is_none self.
Proof.
  unfold _NumEdges_get_val, _NumEdges_is_none.
  destruct (edges_value self) as [| |cache] eqn:Hv; simpl; try by rewrite Hv.
  destruct key as [[[src rel] dst]|]; simpl; [|by rewrite Hv].
  destruct (cache_get _ _ _ _); simpl; [by rewrite Hv|].
  destruct (_ ≫= _); simpl; [done|by rewrite Hv].
Qed.

(** C4 as stated fails: with [max_num_edges] absent and five nodes the
    resolver holds 25, and [is_none()] is false. *)
Lemma absent_max_num_edges_is_not_none :
  ∃ self, _NumEdges_init SzNone (mk_NumNodes (VInt 5)) = Ok self ∧
          edges_value self = VInt 25 ∧
          _NumEdges_is_none self = false.
Proof. eexists. split_and!; reflexivity. Qed.

(** ** Computations with state and exceptions *)

Lemma for_app {S A} (xs ys : list A) (body : A → SM S unit) s :
  for_ (xs ++ ys) body s =
  match for_ xs body s with
  | (Ok _, s') => for_ ys body s'
  | (Raise e, s') => (Raise e, s')
  end.
Proof.
  revert s. induction xs as [|x xs IH]; intros s; simpl; [done|].
  unfold mbind, SM_bind. destruct (body x s) as [[[]|e] s']; [|done].
  apply IH.
Qed.

(** A relation between the state before and after that every round of a
    loop maintains is maintained by the loop, whatever its outcome. *)
Lemma for_preserves {S A} (R : S → S → Prop)
    (xs : list A) (body : A → SM S unit) :
  (∀ s, R s s) → (∀ s1 s2 s3, R s1 s2 → R s2 s3 → R s1 s3) →
  (∀ x s, R s (body x s).2) → ∀ s, R s (for_ xs body s).2.
Proof.
  intros Hrefl Htrans Hbody.
  induction xs as [|x xs IH]; intros s; simpl; [done|].
  unfold mbind, SM_bind. specialize (Hbody x s).
  destruct (body x s) as [[[]|e] s']; simpl in *; [|done].
  by eapply Htrans.
Qed.

(** Two loop bodies that agree on the states of an invariant give the
    same loop. *)
Lemma for_ext {S A} (I : S → Prop) (xs : list A) (body body' : A → SM S unit) :
  (∀ x s, I s → body x s = body' x s) →
  (∀ x s, I s → I (body' x s).2) →
  ∀ s, I s → for_ xs body s = for_ xs body' s.
Proof.
  intros Heq Hinv. induction xs as [|x xs IH]; intros s Hs; simpl; [done|].
  unfold mbind, SM_bind. rewrite (Heq x s Hs).
  specialize (Hinv x s Hs).
  destruct (body' x s) as [[[]|e] s']; simpl in *; [|done].
  by apply IH.
Qed.

(** ** Loops that update attributes *)

Lemma update_attr_self step attr_name s :
  (update_attr step attr_name s).2.1 = s.1.
Proof.
  unfold update_attr. destruct (s.2 !! attr_name); [|done].
  by destruct (step _ _).
Qed.

Lemma for_update_attr_self step attr_names s :
  (for_ attr_names (update_attr step) s).2.1 = s.1.
Proof.
  apply (for_preserves (λ s s' : PS, s'.1 = s.1)).
  - done.
  - intros ??? ? ?. congruence.
  - intros. apply update_attr_self.
Qed.

Lemma for_update_attr_frame step attr_names s :
  dom (for_ attr_names (update_attr step) s).2.2 = dom s.2 ∧
  ∀ k, k ∉ attr_names → (for_ attr_names (update_attr step) s).2.2 !! k = s.2 !! k.
Proof.
  revert s. induction attr_names as [|k0 ks IH]; intros s; simpl; [done|].
  unfold mbind, SM_bind.
  destruct (update_attr step k0 s) as [[[]|e] s'] eqn:Hupd.
  - destruct (IH s') as [Hdom Hother].
    unfold update_attr in Hupd.
    destruct (s.2 !! k0) as [attr|] eqn:Hk0; [|discriminate].
    destruct (step k0 attr) as [attr'|]; [|discriminate].
    injection Hupd as <-. simpl in *. split.
    + rewrite Hdom. apply dom_insert_lookup_L. by rewrite Hk0.
    + intros k Hk. apply not_elem_of_cons in Hk as [Hne Hk].
      rewrite Hother by done. by rewrite lookup_insert_ne.
  - unfold update_attr in Hupd.
    destruct (s.2 !! k0) as [attr|]; [|by injection Hupd as _ <-].
    destruct (step k0 attr) as [attr'|]; [discriminate|].
    by injection Hupd as _ <-.
Qed.

(** A loop that succeeds has given every attribute of its list the value
    computed from the one it had. *)
Lemma for_update_attr_ok step attr_names s s' :
  NoDup attr_names →
  for_ attr_names (update_attr step) s = (Ok tt, s') →
  ∀ k, k ∈ attr_names →
       ∃ attr attr', s.2 !! k = Some attr ∧ step k attr = Ok attr' ∧
                     s'.2 !! k = Some attr'.
Proof.
  revert s. induction attr_names as [|k0 ks IH]; intros s Hnd Hrun k Hk.
  - by apply elem_of_nil in Hk.
  - apply NoDup_cons in Hnd as [Hk0 Hnd]. simpl in Hrun.
    unfold mbind, SM_bind in Hrun.
    destruct (update_attr step k0 s) as [[[]|e] s1] eqn:Hupd; [|discriminate].
    unfold update_attr in Hupd.
    destruct (s.2 !! k0) as [attr|] eqn:Hk0'; [|discriminate].
    destruct (step k0 attr) as [attr'|] eqn:Hstep; [|discriminate].
    injection Hupd as <-.
    apply elem_of_cons in Hk as [->|Hk].
    + exists attr, attr'. split_and!; [done..|].
      pose proof (for_update_attr_frame step ks (s.1, <[k0:=attr']> s.2))
        as [_ Hother].
      rewrite Hrun in Hother. simpl in Hother.
      rewrite Hother by done. apply lookup_insert_eq.
    + destruct (IH _ Hnd Hrun k Hk) as (a & a' & Ha & Hstep' & Ha').
      exists a, a'. split_and!; [|done..].
      simpl in Ha. rewrite lookup_insert_ne in Ha; [done|].
      intros ->. done.
Qed.

(** A loop all of whose attributes are present and can be computed
    succeeds. *)
Lemma for_update_attr_total step attr_names s :
  NoDup attr_names →
  (∀ k, k ∈ attr_names → ∃ attr attr', s.2 !! k = Some attr ∧ step k attr = Ok attr') →
  (for_ attr_names (update_attr step) s).1 = Ok tt.
Proof.
  revert s. induction attr_names as [|k0 ks IH]; intros s Hnd Hall; simpl; [done|].
  apply NoDup_cons in Hnd as [Hk0 Hnd].
  destruct (Hall k0) as (attr & attr' & Hattr & Hstep); [by left|].
  unfold mbind, SM_bind, update_attr. rewrite Hattr, Hstep.
  apply IH; [done|]. intros k Hk. simpl.
  destruct (Hall k) as (a & a' & Ha & Hstep'); [by right|].
  exists a, a'. split; [|done].
  rewrite lookup_insert_ne; [done|]. by intros ->.
Qed.

Lemma NoDup_keys (store : Store) : NoDup (keys store).
Proof. apply NoDup_fst_map_to_list. Qed.

Lemma elem_of_keys (store : Store) k : k ∈ keys store ↔ k ∈ dom store.
Proof.
  unfold keys. rewrite list_elem_of_fmap, elem_of_dom. split.
  - intros [[k' a] [-> Hin]]. apply elem_of_map_to_list in Hin. by exists a.
  - intros [a Ha]. exists (k, a). split; [done|]. by apply elem_of_map_to_list.
Qed.

Lemma NoDup_List_filter {A} (f : A → bool) (l : list A) :
  NoDup l → NoDup (List.filter f l).
Proof.
  induction 1 as [|x l Hx Hnd IH]; simpl; [constructor|].
  destruct (f x); [|done]. constructor; [|done].
  rewrite list_elem_of_In, filter_In, <-list_elem_of_In. tauto.
Qed.

Lemma elem_of_List_filter {A} (f : A → bool) (l : list A) x :
  x ∈ List.filter f l ↔ x ∈ l ∧ f x = true.
Proof. by rewrite !list_elem_of_In, filter_In. Qed.

Lemma filter_all_false {A} (f : A → bool) (l : list A) :
  (∀ x, f x = false) → List.filter f l = [].
Proof.
  intros Hf. induction l as [|x l IH]; simpl; [done|]. by rewrite Hf.
Qed.

(** ** The transform on one store *)

Lemma drop_excluded_lookup excluded (store : Store) k :
  drop_excluded excluded store !! k =
  if decide (k ∈ excluded) then None else store !! k.
Proof.
  unfold drop_excluded. rewrite map_lookup_filter.
  destruct (store !! k) as [a|]; simpl; [|by case_decide].
  case_guard; case_decide; simpl in *; done.
Qed.

Lemma foldl_delete_lookup (ks : list AttrNameType) (store : Store) k :
  foldl (λ m key, delete key m) store ks !! k =
  if decide (k ∈ ks) then None else store !! k.
Proof.
  revert store. induction ks as [|k0 ks IH]; intros store; cbn [foldl].
  - case_decide; [set_solver|done].
  - rewrite IH.
    destruct (decide (k ∈ ks)); destruct (decide (k ∈ k0 :: ks)); try done.
    + set_solver.
    + assert (k = k0) as -> by set_solver. apply lookup_delete_eq.
    + apply lookup_delete_ne. set_solver.
Qed.

Section StoreLevel.
Context `{Storage}.

Lemma del_excluded_run self store :
  del_excluded (self, store)
  = (Ok tt, (self, drop_excluded (exclude_keys self) store)).
Proof.
  unfold del_excluded, mbind at 1, SM_bind, gets. simpl.
  assert (∀ ks store0,
    for_ ks (λ key : AttrNameType,
               store ← gets snd;
               if decide (key ∈ dom store) then store_delitem key else mret tt)
         (self, store0)
    = (Ok tt, (self, foldl (λ m key, delete key m) store0 ks))) as Hloop.
  { induction ks as [|k0 ks IH]; intros store0; simpl; [done|].
    unfold mbind at 1, SM_bind. unfold mbind at 1, SM_bind, gets. simpl.
    case_decide as Hin; simpl.
    - apply IH.
    - rewrite IH. apply not_elem_of_dom in Hin. by rewrite (delete_id _ _ Hin). }
  rewrite Hloop. do 2 f_equal. apply map_eq. intros k.
  rewrite foldl_delete_lookup, drop_excluded_lookup.
  destruct (decide (k ∈ exclude_keys self)) as [Hin|Hin].
  - by rewrite decide_True by by apply elem_of_elements.
  - rewrite decide_False; [done|]. by rewrite elem_of_elements.
Qed.

Lemma __pad_node_store_run node_type self store :
  __pad_node_store node_type (self, store) =
  match node_attrs_to_pad self store with
  | [] => (Ok tt, (self, store))
  | _ :: _ =>
      match _NumNodes_get_val (max_num_nodes self) node_type ≫= py_int with
      | Raise e => (Raise e, (self, store))
      | Ok target =>
          if store_num_nodes store <? target then
            for_ (node_attrs_to_pad self store)
                 (update_attr (node_step self node_type
                                 (target - store_num_nodes store)))
                 (self, store)
          else (Raise (NodesNotGreater target (store_num_nodes store)),
                (self, store))
      end
  end.
Proof.
  unfold __pad_node_store, mbind at 1, SM_bind, gets. simpl.
  unfold mbind at 1, SM_bind. simpl. fold (node_attrs_to_pad self store).
  destruct (node_attrs_to_pad self store) as [|k0 ks] eqn:Hattrs; [done|].
  cbv beta iota. remember (k0 :: ks) as attrs eqn:Hks. clear Hks.
  unfold mbind at 1, SM_bind, liftR.
  destruct (_ ≫= py_int) as [target|e]; [|done].
  unfold mbind at 1, SM_bind, assert.
  destruct (store_num_nodes store <? target); [|done].
  apply (for_ext (λ s : PS, s.1 = self)); [| |done].
  - intros k [self' store'] Hs. simpl in Hs. subst self'.
    unfold update_attr, node_step, store_getitem, mbind, SM_bind, gets,
      liftR, as_tensor, store_setitem, modify, attr_tensor, Res_bind;
      cbn [fst snd].
    destruct (store' !! k) as [attr|]; [|done].
    destruct (__get_node_padding self k node_type) eqn:Hpv; simpl;
      rewrite ?Hpv; [|done].
    destruct attr as [t|o]; simpl; [|done].
    by destruct (_pad_tensor_dim _ _ _ _).
  - intros k s <-. apply update_attr_self.
Qed.

Lemma __pad_edge_store_run num_nodes edge_type self store :
  __pad_edge_store num_nodes edge_type (self, store) =
  match edge_attrs_to_pad self store with
  | [] => (Ok tt, (self, store))
  | _ :: _ =>
      let (r, e) := _NumEdges_get_val edge_type (max_num_edges self) in
      let self' := with_max_num_edges e self in
      match r ≫= py_int with
      | Raise err => (Raise err, (self', store))
      | Ok target =>
          if store_num_edges store <=? target then
            for_ (edge_attrs_to_pad self store)
                 (update_attr (edge_step self edge_type
                                 (target - store_num_edges store)
                                 (src_dst_pad_values num_nodes).1
                                 (src_dst_pad_values num_nodes).2))
                 (self', store)
          else (Raise (EdgesLower target (store_num_edges store)),
                (self', store))
      end
  end.
Proof.
  unfold __pad_edge_store, mbind at 1, SM_bind, gets. simpl.
  unfold mbind at 1, SM_bind. simpl. fold (edge_attrs_to_pad self store).
  destruct (edge_attrs_to_pad self store) as [|k0 ks] eqn:Hattrs; [done|].
  cbv beta iota. remember (k0 :: ks) as attrs eqn:Hks. clear Hks.
  unfold mbind at 1, SM_bind. unfold mbind at 1, SM_bind.
  unfold max_num_edges_get_val, zoom. simpl.
  destruct (_NumEdges_get_val edge_type (max_num_edges self)) as [r e].
  destruct r as [v|err]; [|done]. unfold liftR. simpl.
  destruct v as [target|]; simpl; [|done].
  unfold mbind at 1, SM_bind, assert.
  destruct (store_num_edges store <=? target); [|done].
  unfold src_dst_pad_values.
  set (self' := with_max_num_edges e self).
  destruct (match num_nodes with inr p => p | inl n => (n, n) end)
    as [src_pad_value dst_pad_value] eqn:Hpv. cbn [fst snd].
  apply (for_ext (λ s : PS, s.1 = self')); [| |done].
  - intros k [self'' store'] Hs. simpl in Hs. subst self''.
    unfold update_attr, edge_step, store_getitem, mbind, SM_bind, gets,
      liftR, as_tensor, store_setitem, modify, attr_tensor, Res_bind;
      cbn [fst snd].
    destruct (store' !! k) as [attr|]; [|done].
    destruct attr as [t|o]; simpl; [|done].
    case_bool_decide.
    + by destruct (_pad_edge_index _ _ _ _).
    + subst self'. unfold __get_edge_padding. simpl.
      destruct (get_val (edge_pad self) _ _); simpl; [|done].
      by destruct (_pad_tensor_dim _ _ _ _).
  - intros k s <-. apply update_attr_self.
Qed.
End StoreLevel.

(** ** The padding primitive *)

Lemma tensor_eqv_refl t : tensor_eqv t t.
Proof. by split. Qed.

Lemma tensor_eqv_trans t1 t2 t3 :
  tensor_eqv t1 t2 → tensor_eqv t2 t3 → tensor_eqv t1 t3.
Proof.
  intros [Hs12 Hi12] [Hs23 Hi23]. split; [congruence|].
  intros idx Hidx. rewrite Hi12 by done. apply Hi23. by rewrite <-Hs12.
Qed.

Lemma pad_pairs_replicate (k : nat) :
  pad_pairs (replicate (2 * k) 0) = replicate k (0, 0).
Proof.
  induction k as [|k IH]; [done|].
  replace (2 * S k)%nat with (S (S (2 * k))) by lia. simpl in *.
  by rewrite IH.
Qed.

Lemma dim_pads_zero (n k : nat) :
  (k ≤ n)%nat → dim_pads n (replicate (2 * k) 0) = replicate n (0, 0).
Proof.
  intros Hk. unfold dim_pads.
  rewrite pad_pairs_replicate, length_replicate, reverse_replicate.
  rewrite <-replicate_add. f_equal. lia.
Qed.

Lemma padded_shape_zero (shape : list Z) :
  padded_shape shape (replicate (length shape) (0, 0)) = shape.
Proof.
  unfold padded_shape. induction shape as [|n shape IH]; simpl; [done|].
  rewrite IH. f_equal. lia.
Qed.

Lemma in_source_zero (shape idx : list Z) :
  in_shape shape idx →
  in_source shape (replicate (length shape) (0, 0)) idx = true.
Proof.
  unfold in_shape, in_source.
  induction 1 as [|i n idx shape Hi Hrest IH]; simpl; [done|].
  rewrite IH, andb_true_r. apply andb_true_iff. split; lia.
Qed.

Lemma source_index_zero (shape idx : list Z) :
  in_shape shape idx →
  source_index (replicate (length shape) (0, 0)) idx = idx.
Proof.
  unfold in_shape, source_index.
  induction 1 as [|i n idx shape Hi Hrest IH]; simpl; [done|].
  rewrite IH. f_equal. lia.
Qed.

(** Padding by nothing returns a tensor with the same content. *)
Lemma F_pad_zero t (k : nat) v t' :
  F_pad t (replicate (2 * k) 0) v = Ok t' → tensor_eqv t t'.
Proof.
  unfold F_pad. rewrite length_replicate.
  destruct (negb _ || _) eqn:Hcheck; [discriminate|].
  apply orb_false_iff in Hcheck as [_ Hk]. apply Nat.ltb_ge in Hk.
  rewrite dim_pads_zero by lia. unfold ndim. rewrite padded_shape_zero.
  destruct (forallb _ _); [|discriminate]. intros [= <-].
  split; [done|]. simpl. intros idx Hidx.
  by rewrite in_source_zero, source_index_zero.
Qed.

Lemma F_pad_zero_ok t (k : nat) v :
  (k ≤ ndim t)%nat → Forall (λ n, 0 ≤ n) (shape t) →
  is_ok (F_pad t (replicate (2 * k) 0) v) = true.
Proof.
  intros Hk Hwf. unfold F_pad. rewrite length_replicate.
  replace (Nat.even (2 * k)) with true
    by (symmetry; apply Nat.even_spec; by exists k).
  replace (2 * ndim t <? 2 * k)%nat with false
    by (symmetry; apply Nat.ltb_ge; lia).
  cbn [negb orb]. rewrite dim_pads_zero by done. unfold ndim.
  rewrite padded_shape_zero.
  replace (forallb (λ n, 0 <=? n) (shape t)) with true; [done|].
  symmetry. apply forallb_forall. intros n Hn%list_elem_of_In.
  rewrite Forall_forall in Hwf. apply Z.leb_le. by apply Hwf.
Qed.

Lemma py_list_setitem_replicate (n : nat) (i x : Z) pads :
  py_list_setitem (replicate n x) i x = Ok pads → pads = replicate n x.
Proof.
  unfold py_list_setitem. destruct (py_list_index _ _); [|discriminate].
  intros [= <-]. apply insert_replicate.
Qed.

Lemma _pad_tensor_dim_zero t dim v t' :
  _pad_tensor_dim t dim 0 v = Ok t' → tensor_eqv t t'.
Proof.
  unfold _pad_tensor_dim, mbind, Res_bind.
  destruct (py_list_setitem _ _ _) as [pads|] eqn:Hpads; [|discriminate].
  apply py_list_setitem_replicate in Hpads as ->. apply F_pad_zero.
Qed.

(** The dimensions that [_pad_tensor_dim] accepts: those of the tensor,
    counted from the front or, negative, from the back. *)
Lemma _pad_tensor_dim_zero_ok t dim v :
  - Z.of_nat (ndim t) ≤ dim < Z.of_nat (ndim t) →
  Forall (λ n, 0 ≤ n) (shape t) →
  is_ok (_pad_tensor_dim t dim 0 v) = true.
Proof.
  intros Hdim Hwf. unfold _pad_tensor_dim, mbind, Res_bind.
  destruct (py_list_setitem _ _ _) as [pads|] eqn:Hpads.
  - apply py_list_setitem_replicate in Hpads as ->. by apply F_pad_zero_ok.
  - unfold py_list_setitem, py_list_index in Hpads.
    rewrite length_replicate in Hpads.
    destruct (- 2 * dim - 1 <? 0) eqn:Hneg.
    + apply Z.ltb_lt in Hneg.
      destruct (_ && _) eqn:Hrange; [discriminate|].
      apply andb_false_iff in Hrange as [?%Z.leb_gt|?%Z.ltb_ge]; lia.
    + apply Z.ltb_ge in Hneg.
      destruct (_ && _) eqn:Hrange; [discriminate|].
      apply andb_false_iff in Hrange as [?%Z.leb_gt|?%Z.ltb_ge]; lia.
Qed.

Lemma setitem_row_from_outside padded row start v t' :
  shape padded !! 1%nat = Some start →
  setitem_row_from padded row start v = Ok t' → tensor_eqv padded t'.
Proof.
  unfold setitem_row_from. intros Hstart.
  destruct (shape padded) as [|n0 [|n1 rest]] eqn:Hshape; try discriminate.
  injection Hstart as ->.
  destruct (_ && _); [|discriminate]. intros [= <-]. split; [done|].
  simpl. intros idx Hidx. unfold in_shape in Hidx. rewrite ?Hshape in Hidx.
  apply Forall2_cons_inv_r in Hidx as (i & idx' & Hi & Hidx & ->).
  apply Forall2_cons_inv_r in Hidx as (j & idx'' & Hj & Hidx & ->).
  replace (start <=? j) with false by (symmetry; apply Z.leb_gt; lia).
  by rewrite andb_false_r.
Qed.

Lemma _pad_edge_index_zero t src dst t' :
  _pad_edge_index t 0 src dst = Ok t' → tensor_eqv t t'.
Proof.
  unfold _pad_edge_index, mbind, Res_bind.
  destruct (F_pad t [0; 0; 0; 0] (PInt src)) as [padded|] eqn:Hpad;
    [|discriminate].
  apply (F_pad_zero t 2) in Hpad. case_bool_decide.
  - destruct (shape t !! 1%nat) as [n1|] eqn:Hn1; [|discriminate].
    intros Hset. eapply tensor_eqv_trans; [done|].
    eapply setitem_row_from_outside; [|done].
    destruct Hpad as [<- _]. done.
  - by intros [= <-].
Qed.

(** The connectivity tensor, of shape [[r; c]], after [_pad_edge_index]. *)
Lemma _pad_edge_index_spec t r c len src dst t' :
  shape t = [r; c] →
  _pad_edge_index t len src dst = Ok t' →
  shape t' = [r; c + len] ∧
  (∀ i j, 0 ≤ i < r → 0 ≤ j < c → item t' [i; j] = item t [i; j]) ∧
  (∀ j, c ≤ j → item t' [0; j] = PInt src ∧ item t' [1; j] = PInt dst).
Proof.
  intros Hshape. unfold _pad_edge_index, F_pad, mbind, Res_bind, ndim.
  rewrite Hshape. simpl.
  destruct (_ && _); [|discriminate].
  assert (∀ i j, 0 ≤ i < r → 0 ≤ j < c →
                 in_source [r; c] (dim_pads 2 [0; len; 0; 0]) [i; j] = true)
    as Hin.
  { intros i j Hi Hj. unfold in_source, dim_pads. simpl.
    rewrite !andb_true_iff, !Z.leb_le, !Z.ltb_lt. lia. }
  assert (∀ i j, c ≤ j →
                 in_source [r; c] (dim_pads 2 [0; len; 0; 0]) [i; j] = false)
    as Hout.
  { intros i j Hj. unfold in_source, dim_pads. simpl.
    replace (j <? 0 + c) with false by (symmetry; apply Z.ltb_ge; lia).
    by rewrite !andb_false_r. }
  case_bool_decide as Hne.
  - unfold setitem_row_from. simpl.
    destruct (1 <? 0 + r + 0); [|discriminate]. simpl.
    intros [= <-]. simpl. split_and!.
    + f_equal. lia.
    + intros i j Hi Hj.
      replace (c <=? j) with false by (symmetry; apply Z.leb_gt; lia).
      rewrite andb_false_r, Hin by done. f_equal. f_equal; [lia|f_equal; lia].
    + intros j Hj. simpl. rewrite Hout by done.
      replace (c <=? j) with true by (symmetry; apply Z.leb_le; lia). done.
  - subst dst. intros [= <-]. simpl. split_and!.
    + f_equal. lia.
    + intros i j Hi Hj. rewrite Hin by done.
      f_equal. f_equal; [lia|f_equal; lia].
    + intros j Hj. by rewrite !Hout.
Qed.

Lemma _pad_edge_index_ok t r c len src dst :
  shape t = [r; c] → 0 ≤ r → 0 ≤ c + len → src = dst ∨ 1 < r →
  is_ok (_pad_edge_index t len src dst) = true.
Proof.
  intros Hshape Hr Hc Hrows.
  unfold _pad_edge_index, F_pad, mbind, Res_bind, ndim.
  rewrite Hshape. simpl.
  replace (0 <=? 0 + r + 0) with true by (symmetry; apply Z.leb_le; lia).
  replace (0 <=? 0 + c + len) with true by (symmetry; apply Z.leb_le; lia).
  simpl. case_bool_decide as Hne; [|done].
  unfold setitem_row_from. simpl.
  destruct Hrows as [->|Hrows]; [done|].
  by replace (1 <? 0 + r + 0) with true by (symmetry; apply Z.ltb_lt; lia).
Qed.

(** ** Shrinking, not growing, and padding by nothing *)

Lemma attr_eqv_refl a : attr_eqv a a.
Proof. destruct a; simpl; [apply tensor_eqv_refl|done]. Qed.

Section StoreClaims.
Context `{Storage}.

Lemma edge_step_zero self edge_type src dst k a a' :
  edge_step self edge_type 0 src dst k a = Ok a' → attr_eqv a a'.
Proof.
  unfold edge_step, mbind, Res_bind, attr_tensor.
  destruct a as [t|o]; [|discriminate]. case_bool_decide.
  - destruct (_pad_edge_index _ _ _ _) as [t'|] eqn:Hpad; [|discriminate].
    intros [= <-]. by eapply _pad_edge_index_zero.
  - destruct (__get_edge_padding _ _ _); [|discriminate].
    destruct (_pad_tensor_dim _ _ _ _) as [t'|] eqn:Hpad; [|discriminate].
    intros [= <-]. by eapply _pad_tensor_dim_zero.
Qed.

Lemma __get_edge_padding_ok self k edge_type :
  is_ok (__get_edge_padding self k edge_type) = true.
Proof. unfold __get_edge_padding. by rewrite get_val_Ok. Qed.

Lemma edge_step_zero_ok self edge_type src dst k a :
  paddable_edge_attr src dst k a →
  is_ok (edge_step self edge_type 0 src dst k a) = true.
Proof.
  intros (t & -> & Hwf & Hshape).
  unfold edge_step, mbind, Res_bind, attr_tensor.
  case_bool_decide.
  - destruct Hshape as (r & c & Hshape & Hrows).
    rewrite Hshape in Hwf.
    apply Forall_cons in Hwf as [Hr Hwf]. apply Forall_cons in Hwf as [Hc _].
    pose proof (_pad_edge_index_ok t r c 0 src dst Hshape Hr) as Hok.
    destruct (_pad_edge_index t 0 src dst); [done|].
    apply Hok; [lia|done].
  - pose proof (__get_edge_padding_ok self k edge_type) as Hpv.
    destruct (__get_edge_padding self k edge_type) as [pv|]; [|done].
    pose proof (_pad_tensor_dim_zero_ok t (__cat_dim__ k t) pv Hshape Hwf) as Hok.
    by destruct (_pad_tensor_dim _ _ _ _).
Qed.

(** C8.  On a store with at least one qualifying attribute: node padding
    fails, with an error that carries the target and the current count,
    whenever the target node count is not strictly greater than the
    current one; edge padding fails likewise whenever the target edge
    count is strictly less than the current one; and when the target edge
    count equals the current one, edge padding, if it returns, leaves the
    attribute names as they were and every attribute with the same
    content -- and it does return when the qualifying attributes are
    tensors that can be padded. *)
Theorem shrink_fails_and_zero_pad_keeps_content
    (self : Pad) (store : Store) (node_type : option NodeStoreType)
    (edge_type : option EdgeStoreType) (num_nodes : Z + Z * Z) :
  (∀ target,
     node_attrs_to_pad self store ≠ [] →
     _NumNodes_get_val (max_num_nodes self) node_type = Ok (Some target) →
     target ≤ store_num_nodes store →
     __pad_node_store node_type (self, store)
     = (Raise (NodesNotGreater target (store_num_nodes store)), (self, store))) ∧
  (∀ target e,
     edge_attrs_to_pad self store ≠ [] →
     _NumEdges_get_val edge_type (max_num_edges self) = (Ok (Some target), e) →
     target < store_num_edges store →
     __pad_edge_store num_nodes edge_type (self, store)
     = (Raise (EdgesLower target (store_num_edges store)),
        (with_max_num_edges e self, store))) ∧
  (∀ e self' store',
     _NumEdges_get_val edge_type (max_num_edges self)
     = (Ok (Some (store_num_edges store)), e) →
     __pad_edge_store num_nodes edge_type (self, store) = (Ok tt, (self', store')) →
     dom store' = dom store ∧
     ∀ k a, store !! k = Some a → ∃ a', store' !! k = Some a' ∧ attr_eqv a a') ∧
  (∀ e,
     _NumEdges_get_val edge_type (max_num_edges self)
     = (Ok (Some (store_num_edges store)), e) →
     (∀ k a, k ∈ edge_attrs_to_pad self store → store !! k = Some a →
             paddable_edge_attr (src_dst_pad_values num_nodes).1
                                (src_dst_pad_values num_nodes).2 k a) →
     (__pad_edge_store num_nodes edge_type (self, store)).1 = Ok tt).
Proof.
  split_and!.
  - intros target Hattrs Hget Hle. rewrite __pad_node_store_run.
    destruct (node_attrs_to_pad self store); [done|].
    rewrite Hget. simpl.
    by replace (store_num_nodes store <? target) with false
      by (symmetry; apply Z.ltb_ge; lia).
  - intros target e Hattrs Hget Hlt. rewrite __pad_edge_store_run.
    destruct (edge_attrs_to_pad self store); [done|].
    rewrite Hget. simpl.
    by replace (store_num_edges store <=? target) with false
      by (symmetry; apply Z.leb_gt; lia).
  - intros e self' store' Hget. rewrite __pad_edge_store_run.
    destruct (edge_attrs_to_pad self store) as [|k0 ks] eqn:Hattrs.
    { intros [= <- <-]. split; [done|]. intros k a Hk. exists a.
      split; [done|apply attr_eqv_refl]. }
    rewrite <-Hattrs. rewrite Hget. simpl.
    rewrite Z.leb_refl, Z.sub_diag. intros Hrun.
    pose proof (for_update_attr_ok _ _ _ _
                  (NoDup_List_filter _ _ (NoDup_keys store)) Hrun) as Hok.
    match type of Hrun with
    | for_ ?l (update_attr ?f) ?s = _ =>
        pose proof (for_update_attr_frame f l s) as [Hdom Hother]
    end.
    rewrite Hrun in Hdom, Hother.
    simpl in *. split; [done|]. intros k a Hk.
    destruct (decide (k ∈ edge_attrs_to_pad self store)) as [Hin|Hin].
    + destruct (Hok k Hin) as (a0 & a' & Ha0 & Hstep & Ha').
      exists a'. split; [done|]. simpl in Ha0.
      assert (a0 = a) as -> by congruence. by eapply edge_step_zero.
    + exists a. split; [|apply attr_eqv_refl]. rewrite Hother; done.
  - intros e Hget Hpaddable. rewrite __pad_edge_store_run.
    destruct (edge_attrs_to_pad self store) as [|k0 ks] eqn:Hattrs; [done|].
    rewrite <-Hattrs in *. rewrite Hget. simpl.
    rewrite Z.leb_refl, Z.sub_diag.
    apply for_update_attr_total.
    + apply NoDup_List_filter, NoDup_keys.
    + intros k Hk. simpl.
      assert (k ∈ keys store) as Hkey.
      { unfold edge_attrs_to_pad in Hk. by apply elem_of_List_filter in Hk as [? _]. }
      apply elem_of_keys, elem_of_dom in Hkey as [a Ha].
      pose proof (edge_step_zero_ok self edge_type _ _ k a (Hpaddable k a Hk Ha))
        as Hstep.
      destruct (edge_step _ _ _ _ _ _ _) as [a'|] eqn:Hs; [|done].
      by exists a, a'.
Qed.
End StoreClaims.

Section EdgePaddingSkipped.
Context `{Storage}.

(** C4, as the code has it.  [is_none()] is false for every resolver that
    construction returns, also when [max_num_edges] was absent (the
    resolver then holds the square of the node count, or an empty cache to
    be filled on demand), and no resolution makes it true.  Were it true,
    no attribute would qualify for edge padding and [__pad_edge_store]
    would return at once, leaving the store and the transform as they
    were. *)
Theorem NumEdges_is_none_never_after_init :
  (∀ arg nn self, _NumEdges_init arg nn = Ok self →
                  _NumEdges_is_none self = false) ∧
  (∀ key self, _NumEdges_is_none (_NumEdges_get_val key self).2
               = _NumEdges_is_none self) ∧
  (∀ self attr_name, _NumEdges_is_none (max_num_edges self) = true →
                     __should_pad_edge_attr self attr_name = false) ∧
  (∀ self store num_nodes edge_type,
     _NumEdges_is_none (max_num_edges self) = true →
     __pad_edge_store num_nodes edge_type (self, store) = (Ok tt, (self, store))).
Proof.
  split_and!.
  - apply _NumEdges_init_not_none.
  - apply _NumEdges_get_val_is_none.
  - intros self attr_name Hnone. unfold __should_pad_edge_attr.
    by rewrite Hnone.
  - intros self store num_nodes edge_type Hnone.
    rewrite __pad_edge_store_run. unfold edge_attrs_to_pad.
    rewrite filter_all_false; [done|].
    intros attr. unfold __should_pad_edge_attr. rewrite Hnone.
    apply andb_false_r.
Qed.
End EdgePaddingSkipped.

Lemma NumEdges_is_none_never_after_init_witness :
  _NumEdges_is_none (mk_NumEdges (VInt 25) (mk_NumNodes (VInt 5))) = false ∧
  @__pad_edge_store example_storage (inl 3) None
    (example_pad (VInt 5) VNone, example_store)
  = (Ok tt, (example_pad (VInt 5) VNone, example_store)).
Proof.
  split.
  - apply (proj1 (@NumEdges_is_none_never_after_init example_storage) SzNone
             (mk_NumNodes (VInt 5))). reflexivity.
  - apply (proj2 (proj2 (proj2
             (@NumEdges_is_none_never_after_init example_storage)))).
    reflexivity.
Defined.

Lemma shrink_fails_and_zero_pad_keeps_content_witness :
  @__pad_node_store example_storage None
    (example_pad (VInt 3) (VInt 9), example_store)
  = (Raise (NodesNotGreater 3 3), (example_pad (VInt 3) (VInt 9), example_store)) ∧
  @__pad_edge_store example_storage (inl 3) None
    (example_pad (VInt 5) (VInt 1), example_store)
  = (Raise (EdgesLower 1 2), (example_pad (VInt 5) (VInt 1), example_store)) ∧
  (@__pad_edge_store example_storage (inl 3) None
     (example_pad (VInt 5) (VInt 2), example_store)).1 = Ok tt.
Proof.
  split_and!.
  - apply (proj1 (@shrink_fails_and_zero_pad_keeps_content example_storage
             (example_pad (VInt 3) (VInt 9)) example_store None None (inl 3)) 3).
    + vm_compute. discriminate.
    + reflexivity.
    + vm_compute. discriminate.
  - apply (proj1 (proj2 (@shrink_fails_and_zero_pad_keeps_content example_storage
             (example_pad (VInt 5) (VInt 1)) example_store None None (inl 3)))
             1 (mk_NumEdges (VInt 1) (mk_NumNodes (VInt 5)))).
    + vm_compute. discriminate.
    + reflexivity.
    + reflexivity.
  - apply (proj2 (proj2 (proj2 (@shrink_fails_and_zero_pad_keeps_content
             example_storage (example_pad (VInt 5) (VInt 2)) example_store
             None None (inl 3))))
             (mk_NumEdges (VInt 2) (mk_NumNodes (VInt 5)))).
    + reflexivity.
    + intros k a Hk Ha.
      assert (k = "edge_index") as ->.
      { vm_compute in Hk. apply list_elem_of_In in Hk. simpl in Hk.
        destruct Hk as [<-|[]]. reflexivity. }
      vm_compute in Ha. injection Ha as <-.
      eexists. split; [reflexivity|]. split.
      * repeat constructor; discriminate.
      * exists 2, 2. split; [reflexivity|]. by left.
Defined.

(** ** What a call leaves alone *)

Section Preservation.
Context {S : Type} (R : S → S → Prop).
Hypothesis R_refl : ∀ s, R s s.
Hypothesis R_trans : ∀ s1 s2 s3, R s1 s2 → R s2 s3 → R s1 s3.

Lemma preserves_ret {A} (a : A) : sm_preserves R (mret a).
Proof. intros s. apply R_refl. Qed.

Lemma preserves_gets {A} (f : S → A) : sm_preserves R (gets f).
Proof. intros s. apply R_refl. Qed.

Lemma preserves_liftR {A} (r : Res A) : sm_preserves R (liftR r).
Proof. intros s. apply R_refl. Qed.

Lemma preserves_bind {A B} (m : SM S A) (k : A → SM S B) :
  sm_preserves R m → (∀ a, sm_preserves R (k a)) → sm_preserves R (m ≫= k).
Proof.
  intros Hm Hk s. unfold mbind, SM_bind. specialize (Hm s).
  destruct (m s) as [[a|e] s']; simpl in *; [|done].
  eapply R_trans; [done|apply Hk].
Qed.

Lemma preserves_for {A} (xs : list A) (body : A → SM S unit) :
  (∀ x, sm_preserves R (body x)) → sm_preserves R (for_ xs body).
Proof. intros Hbody s. apply for_preserves; [done..|]. intros x. apply Hbody. Qed.
End Preservation.

Lemma _NumEdges_get_val_num_nodes key self :
  num_nodes (_NumEdges_get_val key self).2 = num_nodes self.
Proof.
  unfold _NumEdges_get_val. destruct (_ || _); [done|].
  destruct key as [[[src rel] dst]|]; [|done].
  destruct (cache_get _ _ _ _); [done|]. by destruct (_ ≫= _).
Qed.

Lemma _NumEdges_get_val_scalar_value key self :
  _IntOrDict.scalar_value (edges_value (_NumEdges_get_val key self).2)
  = _IntOrDict.scalar_value (edges_value self).
Proof.
  unfold _NumEdges_get_val.
  destruct (edges_value self) as [| |cache] eqn:Hv; simpl; try by rewrite Hv.
  destruct key as [[[src rel] dst]|]; simpl; [|by rewrite Hv].
  destruct (cache_get _ _ _ _); simpl; [by rewrite Hv|].
  destruct (_ ≫= _); simpl; [done|by rewrite Hv].
Qed.


Section Frame.
Context `{Storage}.

Lemma store_frame_refl s : store_frame s s.
Proof. by split. Qed.

Lemma store_frame_trans s1 s2 s3 :
  store_frame s1 s2 → store_frame s2 s3 → store_frame s1 s3.
Proof. unfold store_frame, same_config. intros [? ?] [? ?]. split; congruence. Qed.

Lemma for_update_attr_store_frame step attr_names :
  sm_preserves store_frame (for_ attr_names (update_attr step)).
Proof.
  intros s. split.
  - unfold same_config. by rewrite for_update_attr_self.
  - apply for_update_attr_frame.
Qed.

Lemma __pad_node_store_frame node_type :
  sm_preserves store_frame (__pad_node_store node_type).
Proof.
  intros [self store]. rewrite __pad_node_store_run.
  destruct (node_attrs_to_pad self store) as [|k0 ks] eqn:Hattrs;
    [apply store_frame_refl|].
  destruct (_ ≫= py_int) as [target|]; [|apply store_frame_refl].
  destruct (_ <? _); [|apply store_frame_refl].
  apply for_update_attr_store_frame.
Qed.

Lemma __pad_node_store_self node_type self store :
  (__pad_node_store node_type (self, store)).2.1 = self.
Proof.
  rewrite __pad_node_store_run.
  destruct (node_attrs_to_pad self store) as [|k0 ks] eqn:Hattrs; [done|].
  destruct (_ ≫= py_int) as [target|]; [|done].
  destruct (_ <? _); [|done]. apply for_update_attr_self.
Qed.

Lemma __pad_edge_store_frame num_nodes edge_type :
  sm_preserves store_frame (__pad_edge_store num_nodes edge_type).
Proof.
  intros [self store]. rewrite __pad_edge_store_run.
  destruct (edge_attrs_to_pad self store) as [|k0 ks] eqn:Hattrs;
    [apply store_frame_refl|].
  pose proof (_NumEdges_get_val_num_nodes edge_type (max_num_edges self)) as Hnn.
  pose proof (_NumEdges_get_val_scalar_value edge_type (max_num_edges self)) as Hsv.
  pose proof (_NumEdges_get_val_is_none edge_type (max_num_edges self)) as Hnone.
  unfold _NumEdges_is_none in Hnone.
  destruct (_NumEdges_get_val edge_type (max_num_edges self)) as [r e].
  simpl in Hnn, Hsv, Hnone.
  assert (store_frame (self, store) (with_max_num_edges e self, store)) as Hcfg.
  { split; [|done]. unfold same_config, config. simpl.
    by rewrite Hnn, Hsv, Hnone. }
  cbv beta iota zeta. remember (k0 :: ks) as attrs eqn:Hks. clear Hks.
  destruct (r ≫= py_int) as [target|]; [|done].
  destruct (_ <=? _); [|done].
  eapply store_frame_trans; [done|]. apply for_update_attr_store_frame.
Qed.

Lemma del_excluded_frame_self self store :
  (del_excluded (self, store)).2.1 = self.
Proof. by rewrite del_excluded_run. Qed.

(** On a record: the configuration stays. *)
Lemma on_store_config {A} sid (m : SM PS A) :
  (∀ s, same_config s.1 (m s).2.1) →
  sm_preserves (λ s s' : PD, same_config s.1 s'.1) (on_store sid m).
Proof.
  intros Hm [self data]. unfold on_store, zoom. simpl.
  specialize (Hm (self, default ∅ (get_store sid data))).
  by destruct (m _) as [r [self' store']].
Qed.

Lemma call_body_config :
  sm_preserves (λ s s' : PD, same_config s.1 s'.1) call_body.
Proof.
  assert (∀ s : PD, same_config s.1 s.1) as Hrefl by done.
  assert (∀ s1 s2 s3 : PD, same_config s1.1 s2.1 → same_config s2.1 s3.1 →
                           same_config s1.1 s3.1) as Htrans.
  { unfold same_config. intros. congruence. }
  assert (∀ sid, sm_preserves (λ s s' : PD, same_config s.1 s'.1)
                   (on_store sid del_excluded)) as Hdel.
  { intros sid. apply on_store_config. intros [self store].
    by rewrite del_excluded_run. }
  assert (∀ sid nn et, sm_preserves (λ s s' : PD, same_config s.1 s'.1)
                         (on_store sid (__pad_edge_store nn et))) as Hedge.
  { intros sid nn et. apply on_store_config. intros s.
    apply __pad_edge_store_frame. }
  assert (∀ sid nt, sm_preserves (λ s s' : PD, same_config s.1 s'.1)
                      (on_store sid (__pad_node_store nt))) as Hnode.
  { intros sid nt. apply on_store_config. intros s.
    apply __pad_node_store_frame. }
  assert (∀ t, sm_preserves (λ s s' : PD, same_config s.1 s'.1)
                 (node_store_num_nodes t)) as Hcount.
  { intros t [self data]. unfold node_store_num_nodes. simpl.
    destruct data as [store|ns es]; [done|]. by destruct (ns !! t). }
  assert (sm_preserves (λ s s' : PD, same_config s.1 s'.1) data_num_nodes)
    as Hnum.
  { intros [self data]. unfold data_num_nodes. simpl. by destruct data. }
  unfold call_body.
  apply preserves_bind; [done|apply preserves_gets; done|].
  intros data. destruct (isinstance_Data data).
  - unfold call_Data.
    repeat (apply preserves_bind; [done| |intros ?];
            try (apply preserves_gets; done);
            try (apply preserves_liftR; done)).
    apply preserves_for; [done..|]. intros sid.
    repeat (apply preserves_bind; [done| |intros ?]); auto.
  - unfold call_HeteroData.
    repeat (apply preserves_bind; [done| |intros ?];
            try (apply preserves_gets; done);
            try (apply preserves_liftR; done)).
    + apply preserves_for; [done..|]. intros [[src rel] dst].
      repeat (apply preserves_bind; [done| |intros ?]); auto.
    + apply preserves_for; [done..|]. intros t.
      repeat (apply preserves_bind; [done| |intros ?]); auto.
Qed.

(** C10.  A call returns the reference it was given: the record is
    mutated in place, no object is added to the heap, and every other
    object is left as it was.  Whatever the outcome of the call, the
    transform object is afterwards as before except for the cache of the
    edge-count resolver: the policies, the set of excluded names, the fill
    values of the mask attributes and the node-count spec are unchanged. *)
Theorem call_returns_its_argument_and_keeps_config
    (data : positive) (w : World) :
  let result := __call__ data w in
  (∀ returned, result.1 = Ok returned → returned = data) ∧
  dom result.2.2 = dom w.2 ∧
  (∀ other, other ≠ data → result.2.2 !! other = w.2 !! other) ∧
  config result.2.1 = config w.1.
Proof.
  unfold __call__. destruct (w.2 !! data) as [d|] eqn:Hd; simpl.
  - pose proof (call_body_config (w.1, d)) as Hcfg.
    destruct (call_body (w.1, d)) as [r [self' d']]. simpl in *.
    split_and!.
    + intros returned. destruct r; [|discriminate]. by intros [= <-].
    + apply dom_insert_lookup_L. by rewrite Hd.
    + intros other Hother. by rewrite lookup_insert_ne.
    + done.
  - split_and!; try done.
Qed.
End Frame.

Lemma call_returns_its_argument_and_keeps_config_witness :
  let w : World := (example_pad (VInt 5) (VInt 25),
                    {[1%positive := Data example_store]}) in
  ∃ returned, (@__call__ example_storage 1%positive w).1 = Ok returned ∧
              returned = 1%positive.
Proof.
  intros w. exists 1%positive. split; [vm_compute; reflexivity|].
  apply (proj1 (@call_returns_its_argument_and_keeps_config example_storage
                  1%positive w) 1%positive).
  vm_compute. reflexivity.
Defined.

(** ** The transform on a record *)

Lemma nodes_extended_refl ns : nodes_extended ns ns.
Proof. intros t. by left. Qed.

Lemma nodes_extended_trans ns1 ns2 ns3 :
  nodes_extended ns1 ns2 → nodes_extended ns2 ns3 → nodes_extended ns1 ns3.
Proof.
  intros H12 H23 t. destruct (H12 t) as [E12|[E1 E2]], (H23 t) as [E23|[E2' E3]].
  - left. congruence.
  - right. split; congruence.
  - right. split; congruence.
  - congruence.
Qed.

Lemma nodes_extended_default ns ns' t :
  nodes_extended ns ns' → default ∅ (ns' !! t) = default ∅ (ns !! t).
Proof. intros Hext. destruct (Hext t) as [->|[-> ->]]; done. Qed.

Lemma ensure_node_store_extended t ns : nodes_extended ns (ensure_node_store t ns).
Proof.
  unfold ensure_node_store. destruct (ns !! t) eqn:Ht; [apply nodes_extended_refl|].
  intros t'. destruct (decide (t' = t)) as [->|Hne].
  - right. by rewrite lookup_insert_eq.
  - left. by rewrite lookup_insert_ne.
Qed.

Section RecordLevel.
Context `{Storage}.

Lemma on_store_run {A} sid (m : SM PS A) self data store :
  get_store sid data = Some store →
  on_store sid m (self, data)
  = ((m (self, store)).1,
     ((m (self, store)).2.1, set_store sid (m (self, store)).2.2 data)).
Proof.
  intros Hstore. unfold on_store, zoom. simpl. rewrite Hstore. simpl.
  by destruct (m (self, store)) as [r [self' store']].
Qed.

Lemma node_store_num_nodes_run t self ns es :
  node_store_num_nodes t (self, HeteroData ns es)
  = (Ok (store_num_nodes (default ∅ (ns !! t))),
     (self, HeteroData (ensure_node_store t ns) es)).
Proof.
  unfold node_store_num_nodes, ensure_node_store. simpl.
  by destruct (ns !! t).
Qed.

Lemma edge_round_run self ns es src rel dst store :
  es !! (src, rel, dst) = Some store →
  edge_round (src, rel, dst) (self, HeteroData ns es) =
  let run := __pad_edge_store
               (inr (store_num_nodes (default ∅ (ns !! src)),
                     store_num_nodes (default ∅ (ns !! dst))))
               (Some (src, rel, dst))
               (self, drop_excluded (exclude_keys self) store) in
  (run.1, (run.2.1,
           HeteroData (ensure_node_store dst (ensure_node_store src ns))
                      (<[(src, rel, dst) := run.2.2]> es))).
Proof.
  intros Hstore. unfold edge_round.
  unfold mbind at 1, SM_bind.
  rewrite (on_store_run _ _ _ _ store) by done.
  rewrite del_excluded_run. cbn [fst snd set_store].
  unfold mbind at 1, SM_bind. rewrite node_store_num_nodes_run.
  unfold mbind at 1, SM_bind. rewrite node_store_num_nodes_run.
  rewrite (nodes_extended_default ns _ dst (ensure_node_store_extended src ns)).
  rewrite (on_store_run _ _ _ _ (drop_excluded (exclude_keys self) store))
    by (simpl; apply lookup_insert_eq).
  cbn [set_store fst snd]. by rewrite insert_insert_eq.
Qed.

Lemma node_round_run self ns es t store :
  ns !! t = Some store →
  node_round t (self, HeteroData ns es) =
  let run := __pad_node_store (Some t)
               (self, drop_excluded (exclude_keys self) store) in
  (run.1, (run.2.1, HeteroData (<[t := run.2.2]> ns) es)).
Proof.
  intros Hstore. unfold node_round.
  unfold mbind at 1, SM_bind.
  rewrite (on_store_run _ _ _ _ store) by done.
  rewrite del_excluded_run. cbn [fst snd set_store].
  rewrite (on_store_run _ _ _ _ (drop_excluded (exclude_keys self) store))
    by (simpl; apply lookup_insert_eq).
  cbn [set_store fst snd]. by rewrite insert_insert_eq.
Qed.
End RecordLevel.

Section RecordLoops.
Context `{Storage}.

Lemma same_config_exclude_keys self self' :
  same_config self self' → exclude_keys self' = exclude_keys self.
Proof. unfold same_config, config. by intros [= _ _ ? _ _ _ _ _ _]. Qed.

Lemma same_config_trans s1 s2 s3 :
  same_config s1 s2 → same_config s2 s3 → same_config s1 s3.
Proof. unfold same_config. congruence. Qed.

(** The loop over the edge stores, when it succeeds: every store of the
    list is the result of [__pad_edge_store] on what it held without the
    excluded attributes, with the node counts of the record as it was. *)
Lemma edge_loop_ok ets :
  NoDup ets → ∀ self ns es self' data',
  (∀ et, et ∈ ets → is_Some (es !! et)) →
  for_ ets edge_round (self, HeteroData ns es) = (Ok tt, (self', data')) →
  ∃ ns' es',
    data' = HeteroData ns' es' ∧ same_config self self' ∧
    nodes_extended ns ns' ∧
    (∀ et, et ∉ ets → es' !! et = es !! et) ∧
    (∀ et, et ∈ ets →
       ∃ store selfa selfb store',
         es !! et = Some store ∧ es' !! et = Some store' ∧
         same_config self selfa ∧
         __pad_edge_store
           (inr (store_num_nodes (default ∅ (ns !! et.1.1)),
                 store_num_nodes (default ∅ (ns !! et.2))))
           (Some et) (selfa, drop_excluded (exclude_keys self) store)
         = (Ok tt, (selfb, store'))).
Proof.
  induction 1 as [|et ets Hfresh Hnd IH]; intros self ns es self' data' Hall Hrun.
  - injection Hrun as <- <-. exists ns, es. split_and!; try done.
    + apply nodes_extended_refl.
    + intros et Het. by apply elem_of_nil in Het.
  - simpl in Hrun. unfold mbind, SM_bind in Hrun.
    destruct et as [[src rel] dst].
    destruct (Hall (src, rel, dst)) as [store Hstore]; [by left|].
    rewrite (edge_round_run _ _ _ _ _ _ store Hstore) in Hrun.
    cbv zeta in Hrun.
    pose proof (__pad_edge_store_frame
                  (inr (store_num_nodes (default ∅ (ns !! src)),
                        store_num_nodes (default ∅ (ns !! dst))))
                  (Some (src, rel, dst))
                  (self, drop_excluded (exclude_keys self) store)) as [Hcfg _].
    destruct (__pad_edge_store _ _ _) as [[[]|e] [self1 store1]] eqn:Hpad;
      simpl in Hrun, Hcfg; [|discriminate].
    apply IH in Hrun as (ns' & es' & -> & Hcfg' & Hext & Hother & Hin).
    2:{ intros et Het. destruct (decide (et = (src, rel, dst))) as [->|Hne].
        - by rewrite lookup_insert_eq.
        - rewrite lookup_insert_ne by done. apply Hall. by right. }
    exists ns', es'. split_and!; [done|by eapply same_config_trans| | |].
    + eapply nodes_extended_trans; [|done].
      eapply nodes_extended_trans; apply ensure_node_store_extended.
    + intros et Het. apply not_elem_of_cons in Het as [Hne Het].
      rewrite Hother by done. by rewrite lookup_insert_ne.
    + intros et Het. apply elem_of_cons in Het as [->|Het].
      * exists store, self, self1, store1. split_and!; try done.
        rewrite Hother by done. apply lookup_insert_eq.
      * destruct (Hin et Het) as (st & selfa & selfb & st' & Hst & Hst' & Hca & Hp).
        assert (et ≠ (src, rel, dst)) as Hne by (intros ->; done).
        rewrite lookup_insert_ne in Hst by done.
        exists st, selfa, selfb, st'. split_and!; try done.
        { by eapply same_config_trans. }
        rewrite (same_config_exclude_keys _ _ Hcfg) in Hp.
        assert (nodes_extended ns
                  (ensure_node_store dst (ensure_node_store src ns))) as Hext1
          by (eapply nodes_extended_trans; apply ensure_node_store_extended).
        by rewrite !(nodes_extended_default _ _ _ Hext1) in Hp.
Qed.

(** The loop over the node stores, when it succeeds. *)
Lemma node_loop_ok ts :
  NoDup ts → ∀ self ns es self' data',
  (∀ t, t ∈ ts → is_Some (ns !! t)) →
  for_ ts node_round (self, HeteroData ns es) = (Ok tt, (self', data')) →
  ∃ ns',
    data' = HeteroData ns' es ∧ self' = self ∧
    (∀ t, t ∉ ts → ns' !! t = ns !! t) ∧
    (∀ t, t ∈ ts →
       ∃ store store',
         ns !! t = Some store ∧ ns' !! t = Some store' ∧
         __pad_node_store (Some t) (self, drop_excluded (exclude_keys self) store)
         = (Ok tt, (self, store'))).
Proof.
  induction 1 as [|t ts Hfresh Hnd IH]; intros self ns es self' data' Hall Hrun.
  - injection Hrun as <- <-. exists ns. split_and!; try done.
    intros t Ht. by apply elem_of_nil in Ht.
  - simpl in Hrun. unfold mbind, SM_bind in Hrun.
    destruct (Hall t) as [store Hstore]; [by left|].
    rewrite (node_round_run _ _ _ _ store Hstore) in Hrun. cbv zeta in Hrun.
    pose proof (__pad_node_store_self (Some t) self
                  (drop_excluded (exclude_keys self) store)) as Hself.
    destruct (__pad_node_store _ _) as [[[]|e] [self1 store1]] eqn:Hpad;
      simpl in Hrun, Hself; [|discriminate]. subst self1.
    apply IH in Hrun as (ns' & -> & -> & Hother & Hin).
    2:{ intros t' Ht'. destruct (decide (t' = t)) as [->|Hne].
        - by rewrite lookup_insert_eq.
        - rewrite lookup_insert_ne by done. apply Hall. by right. }
    exists ns'. split_and!; [done..| |].
    + intros t' Ht'. apply not_elem_of_cons in Ht' as [Hne Ht'].
      rewrite Hother by done. by rewrite lookup_insert_ne.
    + intros t' Ht'. apply elem_of_cons in Ht' as [->|Ht'].
      * exists store, store1. split_and!; try done.
        rewrite Hother by done. apply lookup_insert_eq.
      * destruct (Hin t' Ht') as (st & st' & Hst & Hst' & Hp).
        assert (t' ≠ t) as Hne by (intros ->; done).
        rewrite lookup_insert_ne in Hst by done.
        by exists st, st'.
Qed.

Lemma elem_of_map_keys {K A} `{Countable K} (m : gmap K A) k :
  k ∈ (map_to_list m).*1 ↔ is_Some (m !! k).
Proof.
  rewrite list_elem_of_fmap. split.
  - intros [[k' a] [-> Hin]]. apply elem_of_map_to_list in Hin. by exists a.
  - intros [a Ha]. exists (k, a). split; [done|]. by apply elem_of_map_to_list.
Qed.

Lemma call_HeteroData_rounds :
  call_HeteroData =
  (self ← gets fst;
   liftR (assert (isinstance_hetero_node (node_pad self)) HeteroNodePadType);;
   liftR (assert (isinstance_hetero_edge (edge_pad self)) HeteroEdgePadType);;
   data ← gets snd;
   for_ (edge_items data) edge_round;;
   data ← gets snd;
   for_ (node_items data) node_round).
Proof. reflexivity. Qed.

(** A successful call on a [HeteroData], store by store. *)
Lemma call_HeteroData_ok self ns es self' data' :
  call_body (self, HeteroData ns es) = (Ok tt, (self', data')) →
  ∃ ns1 ns' es',
    data' = HeteroData ns' es' ∧ same_config self self' ∧
    nodes_extended ns ns1 ∧ dom es' = dom es ∧ dom ns' = dom ns1 ∧
    (∀ et store, es !! et = Some store →
       ∃ selfa selfb store',
         es' !! et = Some store' ∧ same_config self selfa ∧
         __pad_edge_store
           (inr (store_num_nodes (default ∅ (ns !! et.1.1)),
                 store_num_nodes (default ∅ (ns !! et.2))))
           (Some et) (selfa, drop_excluded (exclude_keys self) store)
         = (Ok tt, (selfb, store'))) ∧
    (∀ t store, ns1 !! t = Some store →
       ∃ store',
         ns' !! t = Some store' ∧
         __pad_node_store (Some t) (self', drop_excluded (exclude_keys self) store)
         = (Ok tt, (self', store'))).
Proof.
  unfold call_body. unfold mbind at 1, SM_bind, gets. simpl.
  rewrite call_HeteroData_rounds. unfold mbind, SM_bind, gets, liftR. simpl.
  destruct (assert _ HeteroNodePadType) as [[]|]; [|discriminate].
  destruct (assert _ HeteroEdgePadType) as [[]|]; [|discriminate].
  destruct (for_ _ edge_round _) as [[[]|] [self1 data1]] eqn:Hedges;
    [|discriminate].
  apply edge_loop_ok in Hedges as (ns1 & es1 & -> & Hcfg & Hext & Hother & Hin);
    [|apply NoDup_fst_map_to_list|by intros et Het%elem_of_map_keys].
  simpl. intros Hnodes.
  apply node_loop_ok in Hnodes as (ns' & -> & -> & Hother' & Hin');
    [|apply NoDup_fst_map_to_list|by intros t Ht%elem_of_map_keys].
  exists ns1, ns', es1. split_and!; try done.
  - apply set_eq. intros et. rewrite !elem_of_dom.
    destruct (decide (et ∈ (map_to_list es).*1)) as [Het|Het].
    + destruct (Hin et Het) as (? & ? & ? & ? & -> & -> & _). done.
    + by rewrite Hother.
  - apply set_eq. intros t. rewrite !elem_of_dom.
    destruct (decide (t ∈ (map_to_list ns1).*1)) as [Ht|Ht].
    + destruct (Hin' t Ht) as (? & ? & -> & -> & _). done.
    + by rewrite Hother'.
  - intros et store Hstore.
    destruct (Hin et) as (st & selfa & selfb & st' & Hst & Hst' & Hca & Hp).
    { apply elem_of_map_keys. by rewrite Hstore. }
    assert (st = store) as -> by congruence. by exists selfa, selfb, st'.
  - intros t store Hstore.
    destruct (Hin' t) as (st & st' & Hst & Hst' & Hp).
    { apply elem_of_map_keys. by rewrite Hstore. }
    assert (st = store) as -> by congruence. exists st'. split; [done|].
    by rewrite <-(same_config_exclude_keys _ _ Hcfg).
Qed.

(** A successful call on a [Data]. *)
Lemma call_Data_ok self store self' data' :
  call_body (self, Data store) = (Ok tt, (self', data')) →
  let store0 := drop_excluded (exclude_keys self) store in
  ∃ self1 store1 store',
    data' = Data store' ∧
    __pad_edge_store (inl (store_num_nodes store0)) None (self, store0)
    = (Ok tt, (self1, store1)) ∧
    __pad_node_store None (self1, store1) = (Ok tt, (self', store')).
Proof.
  unfold call_body. unfold mbind at 1, SM_bind, gets.
  cbn [snd fst isinstance_Data]. unfold call_Data.
  repeat (unfold mbind at 1, SM_bind, gets, liftR; cbn [fst snd]).
  destruct (assert _ DataNodePadType) as [[]|]; [|discriminate].
  destruct (assert _ DataEdgePadType) as [[]|]; [|discriminate].
  destruct (assert _ DataNumNodesType) as [[]|]; [|discriminate].
  destruct (assert _ DataNumEdgesType) as [[]|]; [|discriminate].
  cbn [stores for_]. unfold mbind at 1, SM_bind.
  rewrite (on_store_run _ _ _ _ store) by done.
  rewrite del_excluded_run. cbn [fst snd set_store data_num_nodes].
  rewrite (on_store_run _ _ _ _ (drop_excluded (exclude_keys self) store))
    by done.
  destruct (__pad_edge_store _ _ _) as [[[]|] [self1 store1]] eqn:Hedge;
    [|discriminate].
  cbn [fst snd set_store].
  rewrite (on_store_run _ _ _ _ store1) by done.
  destruct (__pad_node_store _ _) as [[[]|] [self2 store2]] eqn:Hnode;
    [|discriminate].
  cbn [fst snd set_store]. intros [= <- <-].
  by exists self1, store1, store2.
Qed.
End RecordLoops.

(** ** Excluded attributes *)

Section Exclusion.
Context `{Storage}.

Lemma run_dom (m : SM PS unit) self store r self' store' :
  sm_preserves store_frame m →
  m (self, store) = (r, (self', store')) → dom store' = dom store.
Proof.
  intros Hm Hrun. destruct (Hm (self, store)) as [_ Hdom].
  by rewrite Hrun in Hdom.
Qed.

Lemma drop_excluded_None excluded store k :
  k ∈ excluded → k ∉ dom (drop_excluded excluded store).
Proof.
  intros Hk. apply not_elem_of_dom. rewrite drop_excluded_lookup.
  by rewrite decide_True.
Qed.

(** C2, as the code has it.  Construction rejects ['x'] among
    [exclude_keys], not the connectivity attribute: with ['x'] excluded
    no transform is built, and without it the exclusion list is accepted
    whatever else it names.  After a call that returns, no store of the
    record holds an attribute whose name is in [exclude_keys]; the
    connectivity attribute is no exception. *)
Theorem excluded_attributes_are_removed :
  (∀ nodes edges node_pad_value edge_pad_value mask_pad_value excluded,
     "x" ∈ excluded →
     is_ok (Pad_init nodes edges node_pad_value edge_pad_value mask_pad_value
                     (Some excluded)) = false) ∧
  (∀ n excluded,
     "x" ∉ excluded →
     is_ok (Pad_init (SzInt n) SzNone PyNone PyNone None (Some excluded)) = true) ∧
  (∀ self data self' data' sid store' k,
     call_body (self, data) = (Ok tt, (self', data')) →
     get_store sid data' = Some store' →
     k ∈ exclude_keys self →
     store' !! k = None).
Proof.
  split_and!.
  - intros nodes edges npv epv mpv excluded Hx. unfold Pad_init, mbind, Res_bind.
    destruct (_NumNodes_init nodes); [|done].
    destruct (_NumEdges_init edges _); [|done].
    rewrite bool_decide_eq_false_2; [done|].
    intros Hnot. apply Hnot. by apply elem_of_list_to_set.
  - intros n excluded Hx. unfold Pad_init, mbind, Res_bind. simpl.
    rewrite bool_decide_eq_true_2; [done|].
    by rewrite elem_of_list_to_set.
  - intros self data self' data' sid store' k Hcall Hstore Hk.
    apply not_elem_of_dom.
    destruct data as [store|ns es].
    + apply call_Data_ok in Hcall as (self1 & store1 & store2 & -> & Hedge & Hnode).
      destruct sid; try discriminate. injection Hstore as <-.
      rewrite (run_dom _ _ _ _ _ _ (__pad_node_store_frame None) Hnode).
      rewrite (run_dom _ _ _ _ _ _ (__pad_edge_store_frame _ None) Hedge).
      by apply drop_excluded_None.
    + apply call_HeteroData_ok in Hcall
        as (ns1 & ns' & es' & -> & Hcfg & Hext & Hdes & Hdns & Hedges & Hnodes).
      destruct sid as [|t|et]; simpl in Hstore; [discriminate| |].
      * assert (is_Some (ns1 !! t)) as [store Hst].
        { apply elem_of_dom. rewrite <-Hdns. apply elem_of_dom. by eexists. }
        destruct (Hnodes t store Hst) as (st' & Hst' & Hrun).
        assert (st' = store') as -> by congruence.
        rewrite (run_dom _ _ _ _ _ _ (__pad_node_store_frame _) Hrun).
        by apply drop_excluded_None.
      * assert (is_Some (es !! et)) as [store Hst].
        { apply elem_of_dom. rewrite <-Hdes. apply elem_of_dom. by eexists. }
        destruct (Hedges et store Hst) as (selfa & selfb & st' & Hst' & _ & Hrun).
        assert (st' = store') as -> by congruence.
        rewrite (run_dom _ _ _ _ _ _ (__pad_edge_store_frame _ _) Hrun).
        by apply drop_excluded_None.
Qed.
End Exclusion.

(** ** The connectivity attribute *)

(** [_pad_edge_index] is a uniform pad with the source pad value,
    followed, exactly when the two pad values differ, by an overwrite that
    touches the second row from the first appended column on and nothing
    else. *)
Lemma _pad_edge_index_two_step t r c len src dst t' :
  shape t = [r; c] →
  _pad_edge_index t len src dst = Ok t' →
  ∃ padded,
    F_pad t [0; len; 0; 0] (PInt src) = Ok padded ∧
    (src = dst → t' = padded) ∧
    (src ≠ dst →
       setitem_row_from padded 1 c (PInt dst) = Ok t' ∧
       ∀ idx, item t' idx ≠ item padded idx →
              ∃ j rest, idx = 1 :: j :: rest ∧ c ≤ j).
Proof.
  intros Hshape. unfold _pad_edge_index, mbind, Res_bind.
  destruct (F_pad t [0; len; 0; 0] (PInt src)) as [padded|]; [|discriminate].
  rewrite Hshape. simpl. intros Hrun. exists padded. split; [done|].
  case_bool_decide as Hne.
  - split; [done|]. intros _. split; [done|].
    unfold setitem_row_from in Hrun.
    destruct (shape padded) as [|n0 [|n1 rest]]; try discriminate.
    destruct (_ && _); [|discriminate]. injection Hrun as <-. simpl.
    intros [|i [|j rest']] Hdiff; try done.
    destruct ((i =? 1) && (c <=? j)) eqn:Hhit; [|done].
    apply andb_true_iff in Hhit as [->%Z.eqb_eq ?%Z.leb_le]. eauto.
  - split; [by injection Hrun|]. intros Hne'. by destruct Hne.
Qed.

Section Connectivity.
Context `{Storage}.

Lemma __pad_edge_store_edge_index num_nodes edge_type self store self' store' t :
  __pad_edge_store num_nodes edge_type (self, store) = (Ok tt, (self', store')) →
  _NumEdges_is_none (max_num_edges self) = false →
  store !! "edge_index" = Some (ATensor t) →
  is_edge_attr store "edge_index" = true →
  ∃ target t',
    (_NumEdges_get_val edge_type (max_num_edges self)).1 = Ok (Some target) ∧
    store_num_edges store ≤ target ∧
    store' !! "edge_index" = Some (ATensor t') ∧
    _pad_edge_index t (target - store_num_edges store)
                    (src_dst_pad_values num_nodes).1
                    (src_dst_pad_values num_nodes).2 = Ok t'.
Proof.
  intros Hrun Hnone Ht Hedge.
  assert ("edge_index" ∈ edge_attrs_to_pad self store) as Hin.
  { unfold edge_attrs_to_pad. apply elem_of_List_filter. split.
    - apply elem_of_keys, elem_of_dom. by eexists.
    - rewrite Hedge. unfold __should_pad_edge_attr. by rewrite Hnone. }
  rewrite __pad_edge_store_run in Hrun.
  destruct (edge_attrs_to_pad self store) as [|k0 ks] eqn:Hattrs.
  { by apply elem_of_nil in Hin. }
  rewrite <-Hattrs in Hrun, Hin. clear Hattrs.
  destruct (_NumEdges_get_val edge_type (max_num_edges self)) as [r e].
  cbv beta iota zeta in Hrun.
  destruct r as [[target|]|]; try discriminate. simpl in Hrun.
  destruct (store_num_edges store <=? target) eqn:Hle; [|discriminate].
  apply Z.leb_le in Hle.
  pose proof (for_update_attr_ok _ _ _ _
                (NoDup_List_filter _ _ (NoDup_keys store)) Hrun
                "edge_index" Hin) as (a & a' & Ha & Hstep & Ha').
  simpl in Ha, Ha'. assert (a = ATensor t) as -> by congruence.
  unfold edge_step, mbind, Res_bind, attr_tensor in Hstep.
  rewrite bool_decide_eq_true_2 in Hstep by done.
  destruct (_pad_edge_index _ _ _ _) as [t'|] eqn:Hpad; [|discriminate].
  injection Hstep as <-. by exists target, t'.
Qed.

Lemma __pad_node_store_other node_type self store r self' store' k :
  __pad_node_store node_type (self, store) = (r, (self', store')) →
  k ∉ node_attrs_to_pad self store →
  store' !! k = store !! k.
Proof.
  rewrite __pad_node_store_run. intros Hrun Hk.
  destruct (node_attrs_to_pad self store) as [|k0 ks] eqn:Hattrs.
  { by injection Hrun as _ _ <-. }
  rewrite <-Hattrs in Hrun, Hk. clear Hattrs.
  destruct (_ ≫= py_int) as [target|]; [|by injection Hrun as _ _ <-].
  destruct (_ <? _); [|by injection Hrun as _ _ <-].
  match type of Hrun with
  | for_ ?l (update_attr ?f) ?s = _ =>
      pose proof (for_update_attr_frame f l s) as [_ Hother]
  end.
  rewrite Hrun in Hother. by apply Hother.
Qed.

Lemma __pad_edge_store_other num_nodes edge_type self store r self' store' k :
  __pad_edge_store num_nodes edge_type (self, store) = (r, (self', store')) →
  k ∉ edge_attrs_to_pad self store →
  store' !! k = store !! k.
Proof.
  rewrite __pad_edge_store_run. intros Hrun Hk.
  destruct (edge_attrs_to_pad self store) as [|k0 ks] eqn:Hattrs.
  { by injection Hrun as _ _ <-. }
  rewrite <-Hattrs in Hrun, Hk. clear Hattrs.
  destruct (_NumEdges_get_val edge_type (max_num_edges self)) as [v e].
  cbv beta iota zeta in Hrun.
  destruct (v ≫= py_int) as [target|]; [|by injection Hrun as _ _ <-].
  destruct (_ <=? _); [|by injection Hrun as _ _ <-].
  match type of Hrun with
  | for_ ?l (update_attr ?f) ?s = _ =>
      pose proof (for_update_attr_frame f l s) as [_ Hother]
  end.
  rewrite Hrun in Hother. by apply Hother.
Qed.

Lemma __pad_node_store_attr node_type self store self' store' k t :
  __pad_node_store node_type (self, store) = (Ok tt, (self', store')) →
  k ∈ node_attrs_to_pad self store →
  store !! k = Some (ATensor t) →
  ∃ target pad_value t',
    _NumNodes_get_val (max_num_nodes self) node_type = Ok (Some target) ∧
    store_num_nodes store < target ∧
    __get_node_padding self k node_type = Ok pad_value ∧
    store' !! k = Some (ATensor t') ∧
    _pad_tensor_dim t (__cat_dim__ k t) (target - store_num_nodes store)
                    pad_value = Ok t'.
Proof.
  rewrite __pad_node_store_run. intros Hrun Hin Ht.
  destruct (node_attrs_to_pad self store) as [|k0 ks] eqn:Hattrs.
  { by apply elem_of_nil in Hin. }
  rewrite <-Hattrs in Hrun, Hin. clear Hattrs.
  destruct (_NumNodes_get_val _ _) as [[target|]|]; try discriminate.
  simpl in Hrun.
  destruct (store_num_nodes store <? target) eqn:Hlt; [|discriminate].
  apply Z.ltb_lt in Hlt.
  pose proof (for_update_attr_ok _ _ _ _
                (NoDup_List_filter _ _ (NoDup_keys store)) Hrun k Hin)
    as (a & a' & Ha & Hstep & Ha').
  simpl in Ha, Ha'. assert (a = ATensor t) as -> by congruence.
  unfold node_step, mbind, Res_bind, attr_tensor in Hstep.
  destruct (__get_node_padding self k node_type) as [pv|]; [|discriminate].
  destruct (_pad_tensor_dim _ _ _ _) as [t'|] eqn:Hpad; [|discriminate].
  injection Hstep as <-. by exists target, pv, t'.
Qed.

(** C1.  For a store that a successful call pads the edges of -- the
    store of a [Data], or the store of an edge type of a [HeteroData] --
    whose connectivity attribute, of shape [[r; c]], qualifies: afterwards
    the attribute holds the result of [_pad_edge_index], which keeps the
    first [c] columns (the current edges) unchanged and has, in every
    appended column, the node count of the source store in the first row
    and the node count of the destination store in the second, both read
    before any node is padded; and that result is a uniform pad with the
    source placeholder, followed by an overwrite of the second row of the
    appended region only, exactly when the two placeholders differ.  (For
    a [Data], whose single store is padded as a node store afterwards, the
    connectivity attribute is taken not to be node-level.) *)
Theorem connectivity_padding
    (self self' : Pad) (data data' : BaseData) (sid : StoreId)
    (store : Store) (src dst : Z) (t : Tensor) (r c : Z) :
  call_body (self, data) = (Ok tt, (self', data')) →
  _NumEdges_is_none (max_num_edges self) = false →
  edge_padding_input (exclude_keys self) data sid = Some (store, src, dst) →
  store !! "edge_index" = Some (ATensor t) →
  is_edge_attr store "edge_index" = true →
  shape t = [r; c] →
  (isinstance_Data data = true → ∀ s, is_node_attr s "edge_index" = false) →
  ∃ store' t' target padded,
    get_store sid data' = Some store' ∧
    store' !! "edge_index" = Some (ATensor t') ∧
    store_num_edges store ≤ target ∧
    shape t' = [r; c + (target - store_num_edges store)] ∧
    (∀ i j, 0 ≤ i < r → 0 ≤ j < c → item t' [i; j] = item t [i; j]) ∧
    (∀ j, c ≤ j → item t' [0; j] = PInt src ∧ item t' [1; j] = PInt dst) ∧
    F_pad t [0; target - store_num_edges store; 0; 0] (PInt src) = Ok padded ∧
    (src = dst → t' = padded) ∧
    (src ≠ dst →
       setitem_row_from padded 1 c (PInt dst) = Ok t' ∧
       ∀ idx, item t' idx ≠ item padded idx →
              ∃ j rest, idx = 1 :: j :: rest ∧ c ≤ j).
Proof.
  intros Hcall Hnone Hinput Ht Hedge Hshape Hnode.
  assert (∃ store' t' target,
            get_store sid data' = Some store' ∧
            store' !! "edge_index" = Some (ATensor t') ∧
            store_num_edges store ≤ target ∧
            _pad_edge_index t (target - store_num_edges store) src dst = Ok t')
    as (store' & t' & target & Hstore' & Ht' & Hle & Hpad).
  { destruct data as [store0|ns es].
    - destruct sid; try discriminate. simpl in Hinput.
      injection Hinput as <- <- <-.
      apply call_Data_ok in Hcall as (self1 & store1 & store2 & -> & Hrun & Hnodes).
      destruct (__pad_edge_store_edge_index _ _ _ _ _ _ _ Hrun Hnone Ht Hedge)
        as (target & t' & _ & Hle & Ht' & Hpad).
      exists store2, t', target. split_and!; try done.
      rewrite (__pad_node_store_other _ _ _ _ _ _ _ Hnodes); [done|].
      unfold node_attrs_to_pad. rewrite elem_of_List_filter.
      intros [_ Hq]. by rewrite Hnode in Hq.
    - destruct sid as [| |[[s rel] d]]; try discriminate. simpl in Hinput.
      destruct (es !! (s, rel, d)) as [store0|] eqn:Hstore0; [|discriminate].
      injection Hinput as <- <- <-.
      apply call_HeteroData_ok in Hcall
        as (ns1 & ns' & es' & -> & Hcfg & Hext & Hdes & Hdns & Hedges & Hnodes).
      destruct (Hedges _ _ Hstore0) as (selfa & selfb & st' & Hst' & Hca & Hrun).
      assert (_NumEdges_is_none (max_num_edges selfa) = false) as Hnone'.
      { unfold same_config, config in Hca. unfold _NumEdges_is_none in *.
        injection Hca as _ _ _ _ _ _ _ _ ->. done. }
      destruct (__pad_edge_store_edge_index _ _ _ _ _ _ _ Hrun Hnone' Ht Hedge)
        as (target & t' & _ & Hle & Ht' & Hpad).
      by exists st', t', target. }
  destruct (_pad_edge_index_spec _ _ _ _ _ _ _ Hshape Hpad) as (Hs & Hkeep & Hnew).
  destruct (_pad_edge_index_two_step _ _ _ _ _ _ _ Hshape Hpad)
    as (padded & Hpadded & Hsame & Hdiff).
  exists store', t', target, padded. split_and!; done.
Qed.
End Connectivity.

(** Two nodes of type [a] and three of type [b]: the appended columns of
    the connectivity attribute of [(a, rel, b)] hold 2 and 3. *)
Lemma connectivity_padding_witness :
  ∃ store' t',
    get_store (EdgeStore ("a", "rel", "b"))
      (@call_body example_storage (example_hetero_pad, example_hetero)).2.2
    = Some store' ∧
    store' !! "edge_index" = Some (ATensor t') ∧
    (item t' [0; 0] = PInt 0 ∧ item t' [1; 1] = PInt 2) ∧
    (item t' [0; 2] = PInt 2 ∧ item t' [1; 2] = PInt 3).
Proof.
  destruct (@connectivity_padding example_storage example_hetero_pad
              (@call_body example_storage (example_hetero_pad, example_hetero)).2.1
              example_hetero
              (@call_body example_storage (example_hetero_pad, example_hetero)).2.2
              (EdgeStore ("a", "rel", "b"))
              {[ "edge_index" := ATensor example_edge_index ]}
              2 3 example_edge_index 2 2)
    as (store' & t' & target & padded & Hs & Ht & Hle & Hshape & Hkeep & Hnew & _).
  - vm_compute. reflexivity.
  - reflexivity.
  - vm_compute. reflexivity.
  - reflexivity.
  - vm_compute. reflexivity.
  - reflexivity.
  - intros Hdata. discriminate Hdata.
  - exists store', t'. split; [exact Hs|]. split; [exact Ht|]. split.
    + split.
      * rewrite (Hkeep 0 0) by lia. reflexivity.
      * rewrite (Hkeep 1 1) by lia. reflexivity.
    + apply Hnew. lia.
Defined.

Lemma excluded_attributes_are_removed_witness :
  let self := mkPad (mkUniformPadding float_zero) (mk_NumNodes (VInt 5))
                    (mk_NumEdges (VInt 25) (mk_NumNodes (VInt 5)))
                    {[ "edge_index" ]}
                    (PUniform (mkUniformPadding float_zero))
                    (PUniform (mkUniformPadding float_zero)) ∅ in
  default ∅ (get_store GlobalStore
               (@call_body example_storage (self, Data example_store)).2.2)
  !! "edge_index" = None.
Proof.
  intros self.
  apply (proj2 (proj2 (@excluded_attributes_are_removed example_storage))
           self (Data example_store)
           (@call_body example_storage (self, Data example_store)).2.1
           (@call_body example_storage (self, Data example_store)).2.2
           GlobalStore).
  - vm_compute. reflexivity.
  - vm_compute. reflexivity.
  - vm_compute. reflexivity.
Defined.

(** C2 as stated fails: a transform that excludes the connectivity
    attribute is built, and a record it processes comes back without the
    attribute. *)
Lemma edge_index_can_be_excluded_and_is_removed :
  ∃ self,
    Pad_init (SzInt 5) SzNone PyNone PyNone None (Some ["edge_index"]) = Ok self ∧
    (@call_body example_storage (self, Data example_store)).1 = Ok tt ∧
    record_keys (@call_body example_storage (self, Data example_store)).2.2
                GlobalStore = Some ["x"] ∧
    record_shape (@call_body example_storage (self, Data example_store)).2.2
                 GlobalStore "x" = Some [5; 1].
Proof. eexists. split; [reflexivity|]. split_and!; vm_compute; reflexivity. Qed.

(** ** A homogeneous record with three nodes and two edges *)

(** Padding along the first dimension of a tensor of shape [[n; F]]. *)
Lemma _pad_tensor_dim_rows t n F len v t' :
  shape t = [n; F] →
  _pad_tensor_dim t 0 len v = Ok t' →
  shape t' = [n + len; F] ∧
  (∀ i j, 0 ≤ i < n → 0 ≤ j < F → item t' [i; j] = item t [i; j]) ∧
  (∀ i j, n ≤ i → item t' [i; j] = v).
Proof.
  intros Hshape. unfold _pad_tensor_dim, F_pad, mbind, Res_bind, ndim.
  rewrite Hshape. simpl.
  destruct (_ && _); [|discriminate]. intros [= <-]. simpl. split_and!.
  - rewrite !Z.add_0_l, Z.add_0_r. done.
  - intros i j Hi Hj. unfold in_source, dim_pads. simpl.
    replace ((0 <=? i) && (i <? 0 + n) && ((0 <=? j) && (j <? 0 + F) && true))
      with true
      by (symmetry; rewrite !andb_true_iff, !Z.leb_le, !Z.ltb_lt; lia).
    f_equal. f_equal; [lia|f_equal; lia].
  - intros i j Hi. unfold in_source, dim_pads. simpl.
    replace (i <? 0 + n) with false by (symmetry; apply Z.ltb_ge; lia).
    by rewrite andb_false_r.
Qed.

Lemma drop_excluded_empty (store : Store) : drop_excluded ∅ store = store.
Proof.
  unfold drop_excluded. apply map_filter_id. intros k a _. simpl. set_solver.
Qed.

(** * Further properties *)

(** ** More on the edge-count resolver *)

Lemma _NumEdges_eta self :
  self = mk_NumEdges (edges_value self) (num_nodes self).
Proof. by destruct self. Qed.

(** X1.  An entry that the [max_num_edges] mapping gives explicitly is
    what resolution returns for its edge type, at construction and after
    any further resolutions, without consulting the node counts (which
    need not even be resolvable) and without changing the resolver. *)
Theorem seeded_edge_count_is_returned
    (m : gmap EdgeStoreType Z) (nn : _NumNodes) (self : _NumEdges)
    (src rel dst : string) (n : Z) (keys : list (option EdgeStoreType)) :
  _NumEdges_init (SzDict m) nn = Ok self →
  m !! (src, rel, dst) = Some n →
  let later := after_get_vals keys self in
  _NumEdges_get_val (Some (src, rel, dst)) later = (Ok (Some n), later).
Proof.
  intros [= <-] Hn later.
  assert (cache_get (_IntOrDict.as_dict (edges_value later)) src dst rel = Some n)
    as Hlater.
  { apply after_get_vals_keeps. simpl. by rewrite seed_cache_get. }
  destruct (after_get_vals_is_dict keys (mk_NumEdges (VDict (seed_cache m)) nn)
              _ eq_refl) as [cache Hv].
  fold later in Hv. rewrite (_NumEdges_eta later), Hv in Hlater |- *.
  by apply _NumEdges_get_val_hit.
Qed.

Lemma seeded_edge_count_is_returned_witness :
  let self := mk_NumEdges (VDict (seed_cache {[ ("a", "rel", "b") := 7 ]}))
                          (mk_NumNodes (VDict ∅)) in
  _NumEdges_get_val (Some ("a", "rel", "b"))
    (after_get_vals [Some ("b", "rel", "a")] self)
  = (Ok (Some 7), after_get_vals [Some ("b", "rel", "a")] self).
Proof.
  intros self.
  apply (seeded_edge_count_is_returned {[ ("a", "rel", "b") := 7 ]}
           (mk_NumNodes (VDict ∅)) self "a" "rel" "b" 7
           [Some ("b", "rel", "a")]).
  - reflexivity.
  - reflexivity.
Defined.

(** X2.  When an edge type is not in the cache and the node count of an
    endpoint is missing from the [max_num_nodes] mapping, resolution fails
    with the error that names the missing node type -- the source type
    first -- and leaves the cache as it was: nothing is stored for the
    edge type. *)
Theorem missing_node_count_fails_derivation
    (cache : EdgeCache) (d : gmap NodeStoreType Z) (src rel dst : string) :
  cache_get cache src dst rel = None →
  let self := mk_NumEdges (VDict cache) (mk_NumNodes (VDict d)) in
  (src ∉ dom d →
   _NumEdges_get_val (Some (src, rel, dst)) self
   = (Raise (NodeSizeMissing src), self)) ∧
  (src ∈ dom d → dst ∉ dom d →
   _NumEdges_get_val (Some (src, rel, dst)) self
   = (Raise (NodeSizeMissing dst), self)).
Proof.
  intros Hmiss self. unfold _NumEdges_get_val. simpl. rewrite Hmiss.
  rewrite !_NumNodes_get_val_dict. split.
  - intros Hsrc. apply not_elem_of_dom in Hsrc. by rewrite Hsrc.
  - intros [a Ha]%elem_of_dom Hdst. apply not_elem_of_dom in Hdst.
    by rewrite Ha, Hdst.
Qed.

Lemma missing_node_count_fails_derivation_witness :
  _NumEdges_get_val (Some ("a", "rel", "c"))
    (mk_NumEdges (VDict ∅) (mk_NumNodes (VDict {[ "a" := 4; "b" := 5 ]})))
  = (Raise (NodeSizeMissing "c"),
     mk_NumEdges (VDict ∅) (mk_NumNodes (VDict {[ "a" := 4; "b" := 5 ]}))).
Proof.
  assert (cache_get (∅ : EdgeCache) "a" "c" "rel" = None) as Hmiss
    by (rewrite cache_get_lookup, lookup_empty; reflexivity).
  apply (proj2 (missing_node_count_fails_derivation ∅ {[ "a" := 4; "b" := 5 ]}
                  "a" "rel" "c" Hmiss)).
  - apply elem_of_dom. by exists 4.
  - apply not_elem_of_dom. reflexivity.
Defined.

(** X3.  A resolver built from an integer returns that integer for every
    key, and one built from nothing over a scalar node count [n] returns
    [n * n] for every key; neither changes on resolution.  A resolver
    built for edge types refuses a key that is not an edge type. *)
Theorem scalar_edge_count_ignores_key :
  (∀ n nn self key,
     _NumEdges_init (SzInt n) nn = Ok self →
     _NumEdges_get_val key self = (Ok (Some n), self)) ∧
  (∀ n self key,
     _NumEdges_init SzNone (mk_NumNodes (VInt n)) = Ok self →
     _NumEdges_get_val key self = (Ok (Some (n * n)), self)) ∧
  (∀ arg nn self,
     _NumEdges_init arg nn = Ok self →
     _IntOrDict.is_number (edges_value self) = false →
     _NumEdges_get_val None self = (Raise EdgeKeyNotTriple, self)).
Proof.
  split_and!.
  - by intros n nn self key [= <-].
  - by intros n self key [= <-].
  - intros arg nn self Hinit Hnum.
    pose proof (_NumEdges_init_not_none _ _ _ Hinit) as Hnone.
    unfold _NumEdges_get_val, _NumEdges_is_none in *. by rewrite Hnum, Hnone.
Qed.

Lemma scalar_edge_count_ignores_key_witness :
  _NumEdges_get_val (Some ("a", "rel", "b"))
    (mk_NumEdges (VInt 25) (mk_NumNodes (VInt 5)))
  = (Ok (Some 25), mk_NumEdges (VInt 25) (mk_NumNodes (VInt 5))) ∧
  _NumEdges_get_val None (mk_NumEdges (VDict ∅) (mk_NumNodes (VDict ∅)))
  = (Raise EdgeKeyNotTriple, mk_NumEdges (VDict ∅) (mk_NumNodes (VDict ∅))).
Proof.
  split.
  - apply (proj1 (proj2 scalar_edge_count_ignores_key) 5). reflexivity.
  - apply (proj2 (proj2 scalar_edge_count_ignores_key) SzNone
             (mk_NumNodes (VDict ∅))); reflexivity.
Defined.

(** ** Construction of the transform *)

Lemma _process_padding_argument_spec padding name :
  (acceptable_pad_value padding ∧
   _process_padding_argument (mkUniformPadding float_zero) padding name
   = Ok (policy_of_pad_value padding)) ∨
  (¬ acceptable_pad_value padding ∧
   _process_padding_argument (mkUniformPadding float_zero) padding name
   = Raise (InvalidPaddingArg name)).
Proof.
  unfold acceptable_pad_value.
  destruct padding; simpl;
    first [left; split; [eauto|done]
          |right; split; [|done];
           intros [?|[[? ?]|[? ?]]]; discriminate].
Qed.



Lemma mask_attrs_lookup (v : PadVal) k :
  (list_to_map ((λ key, (key, v)) <$> mask_attrs) : gmap AttrNameType PadVal) !! k
  = if decide (k ∈ mask_attrs) then Some v else None.
Proof.
  unfold mask_attrs. simpl.
  destruct (decide (k = "train_mask")) as [->|H1]; [by rewrite decide_True by set_solver|].
  destruct (decide (k = "val_mask")) as [->|H2]; [by rewrite decide_True by set_solver|].
  destruct (decide (k = "test_mask")) as [->|H3]; [by rewrite decide_True by set_solver|].
  rewrite !lookup_insert_ne by done. rewrite lookup_empty.
  rewrite decide_False; [done|]. set_solver.
Qed.

Lemma Pad_init_unfold nodes edges node_pad_value edge_pad_value
    mask_pad_value excluded :
  Pad_init nodes edges node_pad_value edge_pad_value mask_pad_value excluded =
  match _NumNodes_init nodes with
  | Raise e => Raise e
  | Ok nn =>
      match _NumEdges_init edges nn with
      | Raise e => Raise e
      | Ok ne =>
          if bool_decide ("x" ∉ excluded_set excluded) then
            match _process_padding_argument (mkUniformPadding float_zero)
                    node_pad_value "node_pad_value" with
            | Raise e => Raise e
            | Ok node_pad =>
                match _process_padding_argument (mkUniformPadding float_zero)
                        edge_pad_value "edge_pad_value" with
                | Raise e => Raise e
                | Ok edge_pad =>
                    Ok (mkPad (mkUniformPadding float_zero) nn ne
                              (excluded_set excluded) node_pad edge_pad
                              (list_to_map
                                 ((λ key, (key, default float_zero mask_pad_value))
                                    <$> mask_attrs)))
                end
            end
          else Raise ExcludedX
      end
  end.
Proof.
  unfold Pad_init, mbind, Res_bind, assert, excluded_set.
  destruct (_NumNodes_init nodes); [|done].
  destruct (_NumEdges_init edges _); [|done].
  by destruct (bool_decide _).
Qed.



Lemma Pad_init_Ok_inv nodes edges node_pad_value edge_pad_value
    mask_pad_value excluded self :
  Pad_init nodes edges node_pad_value edge_pad_value mask_pad_value excluded
  = Ok self →
  node_pad self = policy_of_pad_value node_pad_value ∧
  edge_pad self = policy_of_pad_value edge_pad_value ∧
  exclude_keys self = excluded_set excluded ∧
  node_additional_attrs_pad self
  = list_to_map ((λ key, (key, default float_zero mask_pad_value)) <$> mask_attrs).
Proof.
  rewrite Pad_init_unfold.
  destruct (_NumNodes_init nodes); [|discriminate].
  destruct (_NumEdges_init edges _); [|discriminate].
  destruct (bool_decide _); [|discriminate].
  destruct (_process_padding_argument_spec node_pad_value "node_pad_value")
    as [[_ ->]|[_ ->]]; [|discriminate].
  destruct (_process_padding_argument_spec edge_pad_value "edge_pad_value")
    as [[_ ->]|[_ ->]]; [|discriminate].
  by intros [= <-].
Qed.

(** ** Fill values of node attributes *)

(** X5.  In a transform that construction returns, the fill value of the
    three mask attributes is the mask pad value ([0.0] when absent),
    whatever the node policy says about them or about the node type; the
    fill value of every other attribute is what the node policy resolves
    to for the node type and the attribute name.  Looking it up never
    raises. *)
Theorem mask_attributes_take_the_mask_value
    (nodes : SizeArg (gmap NodeStoreType Z))
    (edges : SizeArg (gmap EdgeStoreType Z))
    (node_pad_value edge_pad_value : pyobj) (mask_pad_value : option PadVal)
    (excluded : option (list AttrNameType)) (self : Pad)
    (attr_name : AttrNameType) (node_type : option NodeStoreType) :
  Pad_init nodes edges node_pad_value edge_pad_value mask_pad_value excluded
  = Ok self →
  __get_node_padding self attr_name node_type =
  Ok (if decide (attr_name ∈ mask_attrs)
      then default float_zero mask_pad_value
      else Reference.resolve (policy_of_pad_value node_pad_value)
                             (node_key node_type) (Some attr_name)).
Proof.
  intros (Hnode & _ & _ & Hmask)%Pad_init_Ok_inv.
  unfold __get_node_padding. rewrite Hmask, Hnode.
  pose proof (mask_attrs_lookup (default float_zero mask_pad_value) attr_name)
    as Hlookup.
  destruct (decide (attr_name ∈ mask_attrs)) as [Hin|Hin].
  - rewrite decide_True by (apply elem_of_dom; by rewrite Hlookup).
    by rewrite Hlookup.
  - rewrite decide_False by (apply not_elem_of_dom; by rewrite Hlookup).
    apply get_val_Ok.
Qed.

Lemma mask_attributes_take_the_mask_value_witness :
  __get_node_padding (example_pad (VInt 5) (VInt 25)) "train_mask" (Some "a")
  = Ok float_zero.
Proof.
  apply (mask_attributes_take_the_mask_value (SzInt 5) SzNone PyNone PyNone
           None None (example_pad (VInt 5) (VInt 25)) "train_mask" (Some "a")).
  reflexivity.
Defined.

(** ** Calls that are refused or have nothing to do *)

Section Refusals.
Context `{Storage}.

(** X6.  A call checks the configuration against the kind of record before
    it touches anything.  On a [Data] a node or edge policy by node or
    edge type, node counts that are a mapping, and edge counts that are a
    mapping are refused, in this order; on a [HeteroData] a node policy by
    edge type and an edge policy by node type are.  A refused call leaves
    the record, the heap and the transform exactly as they were. *)
Theorem call_refuses_unsuitable_configuration (self : Pad) (data : BaseData) :
  (isinstance_Data data = true →
   (isinstance_homo (node_pad self) = false →
    call_body (self, data) = (Raise DataNodePadType, (self, data))) ∧
   (isinstance_homo (node_pad self) = true →
    isinstance_homo (edge_pad self) = false →
    call_body (self, data) = (Raise DataEdgePadType, (self, data))) ∧
   (isinstance_homo (node_pad self) = true →
    isinstance_homo (edge_pad self) = true →
    _IntOrDict.is_number (nodes_value (max_num_nodes self)) = false →
    call_body (self, data) = (Raise DataNumNodesType, (self, data))) ∧
   (isinstance_homo (node_pad self) = true →
    isinstance_homo (edge_pad self) = true →
    _IntOrDict.is_number (nodes_value (max_num_nodes self)) = true →
    _IntOrDict.is_number (edges_value (max_num_edges self))
    || _NumEdges_is_none (max_num_edges self) = false →
    call_body (self, data) = (Raise DataNumEdgesType, (self, data)))) ∧
  (isinstance_Data data = false →
   (isinstance_hetero_node (node_pad self) = false →
    call_body (self, data) = (Raise HeteroNodePadType, (self, data))) ∧
   (isinstance_hetero_node (node_pad self) = true →
    isinstance_hetero_edge (edge_pad self) = false →
    call_body (self, data) = (Raise HeteroEdgePadType, (self, data)))) ∧
  (∀ (l : positive) (heap : gmap positive BaseData) e,
     heap !! l = Some data →
     call_body (self, data) = (Raise e, (self, data)) →
     __call__ l (self, heap) = (Raise e, (self, heap))).
Proof.
  split_and!.
  - intros Hdata.
    split_and!; intros;
      unfold call_body, call_Data, mbind, SM_bind, gets, liftR, assert;
      cbn [fst snd]; rewrite Hdata; cbn [fst snd];
      repeat match goal with Hb : _ = _ |- _ => rewrite Hb end; done.
  - intros Hdata.
    split_and!; intros;
      unfold call_body, call_HeteroData, mbind, SM_bind, gets, liftR, assert;
      cbn [fst snd]; rewrite Hdata; cbn [fst snd];
      repeat match goal with Hb : _ = _ |- _ => rewrite Hb end; done.
  - intros l heap e Hl Hcall. unfold __call__. cbn [fst snd].
    rewrite Hl, Hcall. cbn [fst snd]. by rewrite insert_id.
Qed.

(** X7.  A store none of whose attributes is node-level is returned by
    node padding as it is, and one none of whose attributes is edge-level
    is returned by edge padding as it is: the size resolvers are not
    consulted, so no size needs to be configured for the type of such a
    store, and the cache of edge counts is not filled.  An empty store is
    the simplest case. *)
Theorem store_without_qualifying_attributes_is_skipped
    (self : Pad) (store : Store) (node_type : option NodeStoreType)
    (num_nodes : Z + Z * Z) (edge_type : option EdgeStoreType) :
  ((∀ k, k ∈ dom store → is_node_attr store k = false) →
   __pad_node_store node_type (self, store) = (Ok tt, (self, store))) ∧
  ((∀ k, k ∈ dom store → is_edge_attr store k = false) →
   __pad_edge_store num_nodes edge_type (self, store) = (Ok tt, (self, store))).
Proof.
  assert (∀ (f g : AttrNameType → bool),
            (∀ k, k ∈ dom store → f k = false) →
            List.filter (λ attr, f attr && g attr) (keys store) = []) as Hnil.
  { intros f g Hf. destruct (List.filter _ _) as [|k ks] eqn:Hfilter; [done|].
    assert (k ∈ List.filter (λ attr, f attr && g attr) (keys store)) as Hk
      by (rewrite Hfilter; by left).
    apply elem_of_List_filter in Hk as [Hk Hq].
    apply elem_of_keys in Hk. by rewrite (Hf k Hk) in Hq. }
  split.
  - intros Hnone. rewrite __pad_node_store_run. unfold node_attrs_to_pad.
    by rewrite Hnil.
  - intros Hnone. rewrite __pad_edge_store_run. unfold edge_attrs_to_pad.
    by rewrite Hnil.
Qed.
End Refusals.

Lemma call_refuses_unsuitable_configuration_witness :
  let self := mkPad (mkUniformPadding float_zero) (mk_NumNodes (VInt 5))
                    (mk_NumEdges (VInt 25) (mk_NumNodes (VInt 5))) ∅
                    (PNodeType (mkNodeTypePadding ∅ float_zero))
                    (PUniform (mkUniformPadding float_zero)) ∅ in
  @__call__ example_storage 1%positive
    (self, {[ 1%positive := Data example_store ]})
  = (Raise DataNodePadType, (self, {[ 1%positive := Data example_store ]})).
Proof.
  intros self.
  destruct (@call_refuses_unsuitable_configuration example_storage self
              (Data example_store)) as (Hdata & _ & Hheap).
  apply Hheap; [reflexivity|].
  apply Hdata; reflexivity.
Defined.

Lemma store_without_qualifying_attributes_is_skipped_witness :
  @__pad_node_store example_storage (Some "c")
    (example_hetero_pad, (∅ : Store))
  = (Ok tt, (example_hetero_pad, ∅)).
Proof.
  apply (proj1 (@store_without_qualifying_attributes_is_skipped example_storage
                  example_hetero_pad ∅ (Some "c") (inl 0) None)).
  intros k Hk. rewrite dom_empty_L in Hk. by apply elem_of_empty in Hk.
Defined.
(** ** Padding along one dimension *)

Lemma pad_pairs_insert (k n : nat) (len : Z) :
  (k < n)%nat →
  pad_pairs (<[(2 * k + 1)%nat := len]> (replicate (2 * n) 0))
  = <[k := (0, len)]> (replicate n (0, 0)).
Proof.
  revert n. induction k as [|k IH]; intros [|n] Hk; try lia.
  - replace (2 * S n)%nat with (S (S (2 * n))) by lia. simpl.
    f_equal. apply (pad_pairs_replicate n).
  - replace (2 * S n)%nat with (S (S (2 * n))) by lia.
    replace (2 * S k + 1)%nat with (S (S (2 * k + 1))) by lia. simpl.
    f_equal. apply (IH n). lia.
Qed.

Lemma insert_replicate_middle {A} (k n : nat) (x y : A) :
  (k < n)%nat →
  <[k := x]> (replicate n y) = (replicate k y ++ x :: replicate (n - S k) y)%list.
Proof.
  revert n. induction k as [|k IH]; intros [|n] Hk; try lia; simpl.
  - by rewrite Nat.sub_0_r.
  - f_equal. apply IH. lia.
Qed.

(** The amounts per dimension that [_pad_tensor_dim] hands to [F.pad]:
    nothing but [len] after dimension [d]. *)
Lemma dim_pads_insert (d n : nat) (len : Z) :
  (d < n)%nat →
  dim_pads n (<[(2 * (n - S d) + 1)%nat := len]> (replicate (2 * n) 0))
  = (replicate d (0, 0) ++ (0, len) :: replicate (n - S d) (0, 0))%list.
Proof.
  intros Hd. unfold dim_pads. rewrite pad_pairs_insert by lia.
  rewrite length_insert, length_replicate, Nat.sub_diag. simpl.
  rewrite insert_replicate_middle by lia.
  rewrite reverse_app, reverse_cons, !reverse_replicate, <-app_assoc. simpl.
  do 2 f_equal. f_equal. lia.
Qed.

(** [pads[-2 * dim - 1] = length] hits the amount after dimension [dim],
    counted from the end when negative, and raises for any other [dim]. *)
Lemma py_list_setitem_pads (n : nat) (dim len : Z) :
  py_list_setitem (replicate (2 * n) 0) (-2 * dim - 1) len =
  if (- Z.of_nat n <=? dim) && (dim <? Z.of_nat n)
  then Ok (<[(2 * (n - S (normal_dim n dim)) + 1)%nat := len]> (replicate (2 * n) 0))
  else Raise PyIndexError.
Proof.
  unfold py_list_setitem, py_list_index, normal_dim.
  rewrite length_replicate.
  destruct (dim <? 0) eqn:Hneg.
  - apply Z.ltb_lt in Hneg.
    replace (-2 * dim - 1 <? 0) with false by (symmetry; apply Z.ltb_ge; lia).
    replace (dim <? Z.of_nat n) with true by (symmetry; apply Z.ltb_lt; lia).
    rewrite andb_true_r.
    replace (0 <=? -2 * dim - 1) with true by (symmetry; apply Z.leb_le; lia).
    rewrite andb_true_l.
    destruct (- Z.of_nat n <=? dim) eqn:Hlow.
    + apply Z.leb_le in Hlow.
      replace (-2 * dim - 1 <? Z.of_nat (2 * n)) with true
        by (symmetry; apply Z.ltb_lt; lia).
      do 2 f_equal. lia.
    + apply Z.leb_gt in Hlow.
      by replace (-2 * dim - 1 <? Z.of_nat (2 * n)) with false
        by (symmetry; apply Z.ltb_ge; lia).
  - apply Z.ltb_ge in Hneg.
    replace (-2 * dim - 1 <? 0) with true by (symmetry; apply Z.ltb_lt; lia).
    replace (- Z.of_nat n <=? dim) with true by (symmetry; apply Z.leb_le; lia).
    rewrite andb_true_l.
    replace (-2 * dim - 1 + Z.of_nat (2 * n) <? Z.of_nat (2 * n)) with true
      by (symmetry; apply Z.ltb_lt; lia).
    rewrite andb_true_r.
    destruct (dim <? Z.of_nat n) eqn:Hhigh.
    + apply Z.ltb_lt in Hhigh.
      replace (0 <=? -2 * dim - 1 + Z.of_nat (2 * n)) with true
        by (symmetry; apply Z.leb_le; lia).
      do 2 f_equal. lia.
    + apply Z.ltb_ge in Hhigh.
      by replace (0 <=? -2 * dim - 1 + Z.of_nat (2 * n)) with false
        by (symmetry; apply Z.leb_gt; lia).
Qed.

Lemma padded_shape_app s1 s2 dp1 dp2 :
  length s1 = length dp1 →
  padded_shape (s1 ++ s2) (dp1 ++ dp2)
  = (padded_shape s1 dp1 ++ padded_shape s2 dp2)%list.
Proof. intros Hlen. unfold padded_shape. by apply zip_with_app. Qed.

Lemma in_source_app s1 s2 dp1 dp2 i1 i2 :
  length i1 = length s1 → length s1 = length dp1 →
  in_source (s1 ++ s2)%list (dp1 ++ dp2)%list (i1 ++ i2)%list
  = in_source s1 dp1 i1 && in_source s2 dp2 i2.
Proof.
  intros Hi Hs. unfold in_source.
  rewrite (zip_with_app pair s1 s2 dp1 dp2) by done.
  rewrite (zip_with_app pair i1 i2) by (by rewrite length_zip_with, <-Hs, Nat.min_id).
  apply forallb_app.
Qed.

Lemma source_index_app dp1 dp2 i1 i2 :
  length i1 = length dp1 →
  source_index (dp1 ++ dp2) (i1 ++ i2)
  = (source_index dp1 i1 ++ source_index dp2 i2)%list.
Proof. intros Hlen. unfold source_index. by apply zip_with_app. Qed.

(** What [F.pad] is given by [_pad_tensor_dim] for a dimension in range. *)
Lemma F_pad_one_dimension t before nd after len v t' :
  shape t = (before ++ nd :: after)%list →
  F_pad t (<[(2 * (ndim t - S (length before)) + 1)%nat := len]>
             (replicate (2 * ndim t) 0)) v = Ok t' →
  shape t' = (before ++ (nd + len) :: after)%list ∧
  (∀ idx, in_shape (shape t) idx → item t' idx = item t idx) ∧
  (∀ idx, in_shape (shape t') idx → nd ≤ idx !!! length before →
          item t' idx = v).
Proof.
  intros Hshape. unfold F_pad.
  destruct (negb _ || _); [discriminate|].
  assert (ndim t = (length before + S (length after))%nat) as Hn.
  { unfold ndim. rewrite Hshape, length_app. done. }
  rewrite dim_pads_insert by lia.
  replace (ndim t - S (length before))%nat with (length after) by lia.
  rewrite Hshape.
  assert (padded_shape (before ++ nd :: after)
            (replicate (length before) (0, 0) ++ (0, len)
               :: replicate (length after) (0, 0))
          = (before ++ (nd + len) :: after)%list) as ->.
  { rewrite padded_shape_app by (by rewrite length_replicate).
    rewrite padded_shape_zero. f_equal.
    change (padded_shape (nd :: after) ((0, len) :: replicate (length after) (0, 0)))
      with ((0 + nd + len) :: padded_shape after (replicate (length after) (0, 0))).
    by rewrite padded_shape_zero, Z.add_0_l. }
  destruct (forallb _ _); [|discriminate]. intros [= <-]. simpl.
  split; [done|]. split.
  - intros idx Hidx. unfold in_shape in Hidx.
    apply Forall2_app_inv_r in Hidx as (i1 & i2' & H1 & H2 & ->).
    apply Forall2_cons_inv_r in H2 as (id & i2 & Hid & H2 & ->).
    rewrite in_source_app
      by (by rewrite ?length_replicate, ?(Forall2_length _ _ _ H1)).
    rewrite source_index_app
      by (by rewrite ?length_replicate, ?(Forall2_length _ _ _ H1)).
    rewrite in_source_zero, source_index_zero by done.
    change (in_source (nd :: after) ((0, len) :: replicate (length after) (0, 0))
              (id :: i2))
      with ((0 <=? id) && (id <? 0 + nd)
            && in_source after (replicate (length after) (0, 0)) i2).
    change (source_index ((0, len) :: replicate (length after) (0, 0)) (id :: i2))
      with ((id - 0) :: source_index (replicate (length after) (0, 0)) i2).
    rewrite in_source_zero, source_index_zero by done.
    replace ((0 <=? id) && (id <? 0 + nd)) with true
      by (symmetry; rewrite andb_true_iff, Z.leb_le, Z.ltb_lt; lia).
    simpl. by rewrite Z.sub_0_r.
  - intros idx Hidx Hnew. unfold in_shape in Hidx.
    apply Forall2_app_inv_r in Hidx as (i1 & i2' & H1 & H2 & ->).
    apply Forall2_cons_inv_r in H2 as (id & i2 & Hid & H2 & ->).
    rewrite (list_lookup_total_middle i1 i2 id)
      in Hnew by (by rewrite (Forall2_length _ _ _ H1)).
    rewrite in_source_app
      by (by rewrite ?length_replicate, ?(Forall2_length _ _ _ H1)).
    change (in_source (nd :: after) ((0, len) :: replicate (length after) (0, 0))
              (id :: i2))
      with ((0 <=? id) && (id <? 0 + nd)
            && in_source after (replicate (length after) (0, 0)) i2).
    replace (id <? 0 + nd) with false by (symmetry; apply Z.ltb_ge; lia).
    by rewrite andb_false_r, andb_false_l, andb_false_r.
Qed.

Lemma F_pad_one_dimension_ok t before nd after len v :
  shape t = (before ++ nd :: after)%list →
  Forall (λ s, 0 ≤ s) (shape t) → 0 ≤ nd + len →
  is_ok (F_pad t (<[(2 * (ndim t - S (length before)) + 1)%nat := len]>
                    (replicate (2 * ndim t) 0)) v) = true.
Proof.
  intros Hshape Hwf Hlen. unfold F_pad.
  rewrite length_insert, length_replicate.
  replace (Nat.even (2 * ndim t)) with true
    by (symmetry; apply Nat.even_spec; by exists (ndim t)).
  replace (2 * ndim t <? 2 * ndim t)%nat with false
    by (symmetry; apply Nat.ltb_irrefl).
  cbn [negb orb].
  assert (ndim t = (length before + S (length after))%nat) as Hn.
  { unfold ndim. rewrite Hshape, length_app. done. }
  rewrite dim_pads_insert by lia.
  replace (ndim t - S (length before))%nat with (length after) by lia.
  rewrite Hshape in Hwf |- *.
  rewrite padded_shape_app by (by rewrite length_replicate).
  rewrite padded_shape_zero.
  change (padded_shape (nd :: after) ((0, len) :: replicate (length after) (0, 0)))
    with ((0 + nd + len) :: padded_shape after (replicate (length after) (0, 0))).
  rewrite padded_shape_zero, Z.add_0_l.
  apply Forall_app in Hwf as [Hbefore Hafter].
  apply Forall_cons in Hafter as [_ Hafter].
  replace (forallb (λ n, 0 <=? n) (before ++ (nd + len) :: after)) with true;
    [done|].
  symmetry. apply forallb_forall. intros s Hs%list_elem_of_In.
  apply Z.leb_le.
  apply elem_of_app in Hs as [Hs|Hs].
  - rewrite Forall_forall in Hbefore. by apply Hbefore.
  - apply elem_of_cons in Hs as [->|Hs]; [done|].
    rewrite Forall_forall in Hafter. by apply Hafter.
Qed.

Lemma _pad_tensor_dim_run t dim len v :
  _pad_tensor_dim t dim len v =
  if (- Z.of_nat (ndim t) <=? dim) && (dim <? Z.of_nat (ndim t))
  then F_pad t (<[(2 * (ndim t - S (normal_dim (ndim t) dim)) + 1)%nat := len]>
                  (replicate (2 * ndim t) 0)) v
  else Raise PyIndexError.
Proof.
  unfold _pad_tensor_dim. rewrite py_list_setitem_pads.
  by destruct (_ && _).
Qed.

Lemma normal_dim_lt (n : nat) dim :
  - Z.of_nat n ≤ dim < Z.of_nat n → (normal_dim n dim < n)%nat.
Proof.
  intros Hdim. unfold normal_dim. destruct (dim <? 0) eqn:Hneg.
  - apply Z.ltb_lt in Hneg. lia.
  - apply Z.ltb_ge in Hneg. lia.
Qed.

Lemma normal_dim_eq (n d : nat) dim :
  (d < n)%nat →
  dim = Z.of_nat d ∨ dim = Z.of_nat d - Z.of_nat n →
  normal_dim n dim = d ∧ - Z.of_nat n ≤ dim < Z.of_nat n.
Proof.
  intros Hd [->| ->]; unfold normal_dim.
  - replace (Z.of_nat d <? 0) with false by (symmetry; apply Z.ltb_ge; lia).
    lia.
  - replace (Z.of_nat d - Z.of_nat n <? 0) with true
      by (symmetry; apply Z.ltb_lt; lia).
    lia.
Qed.

(** A tensor that [_pad_tensor_dim] returns: the dimension [dim] (counted
    from the end when negative) has grown by [len] at its end, the entries
    of the input are where they were, and the new entries hold the pad
    value. *)
Lemma _pad_tensor_dim_inv t dim len v t' :
  _pad_tensor_dim t dim len v = Ok t' →
  ∃ before nd after,
    shape t = (before ++ nd :: after)%list ∧
    length before = normal_dim (ndim t) dim ∧
    shape t' = (before ++ (nd + len) :: after)%list ∧
    (∀ idx, in_shape (shape t) idx → item t' idx = item t idx) ∧
    (∀ idx, in_shape (shape t') idx → nd ≤ idx !!! length before →
            item t' idx = v).
Proof.
  rewrite _pad_tensor_dim_run.
  destruct (_ && _) eqn:Hrange; [|discriminate].
  apply andb_true_iff in Hrange as [Hlow%Z.leb_le Hhigh%Z.ltb_lt].
  pose proof (normal_dim_lt (ndim t) dim (conj Hlow Hhigh)) as Hd.
  destruct (lookup_lt_is_Some_2 (shape t) _ Hd) as [nd Hnd].
  pose proof (take_drop_middle _ _ _ Hnd) as Hsplit.
  assert (length (take (normal_dim (ndim t) dim) (shape t))
          = normal_dim (ndim t) dim) as Hlen
    by (apply length_take_le; unfold ndim in *; lia).
  intros Hpad. rewrite <-Hlen in Hpad at 1.
  exists (take (normal_dim (ndim t) dim) (shape t)), nd,
         (drop (S (normal_dim (ndim t) dim)) (shape t)).
  split; [done|]. split; [done|].
  by apply (F_pad_one_dimension _ _ _ _ _ _ _ (eq_sym Hsplit)).
Qed.

(** X8.  [_pad_tensor_dim] pads one dimension, at its end: [dim] counts
    from the front or, negative, from the end, and any other [dim] is an
    [IndexError] from the list of amounts.  For a tensor of non-negative
    sizes and a result size that is not negative the call returns; in the
    result the dimension has grown by [length], no other dimension has
    changed, every entry of the input is at the index it had, and every
    new entry holds the pad value. *)
Theorem _pad_tensor_dim_pads_the_given_dimension
    (t : Tensor) (dim len : Z) (v : PadVal) :
  (¬ (- Z.of_nat (ndim t) ≤ dim < Z.of_nat (ndim t)) →
   _pad_tensor_dim t dim len v = Raise PyIndexError) ∧
  (∀ before nd after,
     shape t = (before ++ nd :: after)%list →
     dim = Z.of_nat (length before) ∨
     dim = Z.of_nat (length before) - Z.of_nat (ndim t) →
     Forall (λ s, 0 ≤ s) (shape t) → 0 ≤ nd + len →
     ∃ t', _pad_tensor_dim t dim len v = Ok t' ∧
           shape t' = (before ++ (nd + len) :: after)%list ∧
           (∀ idx, in_shape (shape t) idx → item t' idx = item t idx) ∧
           (∀ idx, in_shape (shape t') idx → nd ≤ idx !!! length before →
                   item t' idx = v)).
Proof.
  split.
  - intros Hdim. rewrite _pad_tensor_dim_run.
    destruct (_ && _) eqn:Hrange; [|done].
    apply andb_true_iff in Hrange as [?%Z.leb_le ?%Z.ltb_lt]. lia.
  - intros before nd after Hshape Hdim Hwf Hlen.
    assert (length before < ndim t)%nat as Hd.
    { unfold ndim. rewrite Hshape, length_app. simpl. lia. }
    destruct (normal_dim_eq _ _ _ Hd Hdim) as [Hnorm [Hlow Hhigh]].
    pose proof (F_pad_one_dimension_ok t before nd after len v Hshape Hwf Hlen)
      as Hok.
    rewrite _pad_tensor_dim_run, Hnorm.
    replace (- Z.of_nat (ndim t) <=? dim) with true
      by (symmetry; apply Z.leb_le; lia).
    replace (dim <? Z.of_nat (ndim t)) with true
      by (symmetry; apply Z.ltb_lt; lia).
    cbn [andb].
    destruct (F_pad _ _ _) as [t'|] eqn:Hpad; [|discriminate].
    exists t'. split; [done|].
    by apply (F_pad_one_dimension _ _ _ _ _ _ _ Hshape).
Qed.

(** Three rows of one feature, padded along dimension [-2] (the rows) to
    five rows. *)
Lemma _pad_tensor_dim_pads_the_given_dimension_witness :
  ∃ t', _pad_tensor_dim example_x (-2) 2 float_zero = Ok t' ∧
        shape t' = [5; 1] ∧
        item t' [2; 0] = float_one ∧ item t' [4; 0] = float_zero.
Proof.
  destruct (proj2 (_pad_tensor_dim_pads_the_given_dimension
                     example_x (-2) 2 float_zero) [] 3 [1])
    as (t' & Hrun & Hshape & Hkeep & Hnew).
  - reflexivity.
  - right. reflexivity.
  - repeat constructor; simpl; lia.
  - lia.
  - exists t'. split; [exact Hrun|]. split; [exact Hshape|]. split.
    + rewrite Hkeep; [reflexivity|]. repeat constructor; simpl; lia.
    + apply Hnew; [|simpl; lia]. rewrite Hshape.
      repeat constructor; simpl; lia.
Defined.

(** ** What padding does to a store *)

Section StoreResults.
Context `{Storage}.

(** X9.  When [__pad_node_store] returns, the transform object and the
    attribute names of the store are unchanged, and so is every attribute
    that is not node-level or not to be padded.  If any attribute was to be
    padded, a target node count was resolved for the node type and is
    greater than the node count of the store; every such attribute was a
    tensor and is now a tensor that has grown by the difference along its
    concatenation dimension, at the end, with the old entries where they
    were and the new entries holding the fill value of the attribute. *)
Theorem node_padding_result
    (node_type : option NodeStoreType) (self self' : Pad) (store store' : Store) :
  __pad_node_store node_type (self, store) = (Ok tt, (self', store')) →
  self' = self ∧ dom store' = dom store ∧
  (∀ k, k ∉ node_attrs_to_pad self store → store' !! k = store !! k) ∧
  (node_attrs_to_pad self store ≠ [] →
   ∃ target,
     _NumNodes_get_val (max_num_nodes self) node_type = Ok (Some target) ∧
     store_num_nodes store < target ∧
     ∀ k, k ∈ node_attrs_to_pad self store →
       ∃ t t' pad_value before nd after,
         store !! k = Some (ATensor t) ∧ store' !! k = Some (ATensor t') ∧
         __get_node_padding self k node_type = Ok pad_value ∧
         shape t = (before ++ nd :: after)%list ∧
         length before = normal_dim (ndim t) (__cat_dim__ k t) ∧
         shape t' = (before ++ (nd + (target - store_num_nodes store)) :: after)%list ∧
         (∀ idx, in_shape (shape t) idx → item t' idx = item t idx) ∧
         (∀ idx, in_shape (shape t') idx → nd ≤ idx !!! length before →
                 item t' idx = pad_value)).
Proof.
  intros Hrun.
  pose proof (__pad_node_store_self node_type self store) as Hself.
  pose proof (__pad_node_store_frame node_type (self, store)) as [_ Hdom].
  rewrite Hrun in Hself, Hdom. simpl in Hself, Hdom.
  split; [done|]. split; [done|]. split.
  { intros k Hk. by eapply __pad_node_store_other. }
  intros Hsome. rewrite __pad_node_store_run in Hrun.
  destruct (node_attrs_to_pad self store) as [|k0 ks] eqn:Hattrs; [done|].
  rewrite <-Hattrs in Hrun |- *. clear Hattrs Hsome.
  destruct (_NumNodes_get_val _ _) as [[target|]|]; try discriminate.
  simpl in Hrun.
  destruct (store_num_nodes store <? target) eqn:Hlt; [|discriminate].
  apply Z.ltb_lt in Hlt.
  exists target. split; [done|]. split; [done|]. intros k Hin.
  pose proof (for_update_attr_ok _ _ _ _
                (NoDup_List_filter _ _ (NoDup_keys store)) Hrun k Hin)
    as (a & a' & Ha & Hstep & Ha').
  simpl in Ha, Ha'.
  unfold node_step, mbind, Res_bind, attr_tensor in Hstep.
  destruct (__get_node_padding self k node_type) as [pv|]; [|discriminate].
  destruct a as [t|o]; [|discriminate].
  destruct (_pad_tensor_dim _ _ _ _) as [t'|] eqn:Hpad; [|discriminate].
  injection Hstep as <-.
  destruct (_pad_tensor_dim_inv _ _ _ _ _ Hpad)
    as (before & nd & after & Hshape & Hlen & Hshape' & Hkeep & Hnew).
  by exists t, t', pv, before, nd, after.
Qed.

(** X10.  When [__pad_edge_store] returns, the configuration of the
    transform and the attribute names of the store are unchanged, and so is
    every attribute that is not edge-level or not to be padded.  If any
    attribute was to be padded, the edge-count resolver was asked for the
    edge type -- the transform is left with the resolver as that
    resolution left it -- and its answer is not below the edge count of the
    store; every attribute to be padded other than the connectivity
    attribute was a tensor and is now a tensor that has grown by the
    difference along its concatenation dimension, at the end, with the old
    entries where they were and the new entries holding the value that the
    edge policy gives for the edge type and the attribute name. *)
Theorem edge_padding_result
    (num_nodes : Z + Z * Z) (edge_type : option EdgeStoreType)
    (self self' : Pad) (store store' : Store) :
  __pad_edge_store num_nodes edge_type (self, store) = (Ok tt, (self', store')) →
  same_config self self' ∧ dom store' = dom store ∧
  (∀ k, k ∉ edge_attrs_to_pad self store → store' !! k = store !! k) ∧
  (edge_attrs_to_pad self store ≠ [] →
   ∃ target,
     _NumEdges_get_val edge_type (max_num_edges self)
     = (Ok (Some target), max_num_edges self') ∧
     store_num_edges store ≤ target ∧
     ∀ k, k ∈ edge_attrs_to_pad self store → k ≠ "edge_index" →
       ∃ t t' pad_value before nd after,
         store !! k = Some (ATensor t) ∧ store' !! k = Some (ATensor t') ∧
         get_val (edge_pad self) (edge_key edge_type) (Some k) = Ok pad_value ∧
         shape t = (before ++ nd :: after)%list ∧
         length before = normal_dim (ndim t) (__cat_dim__ k t) ∧
         shape t' = (before ++ (nd + (target - store_num_edges store)) :: after)%list ∧
         (∀ idx, in_shape (shape t) idx → item t' idx = item t idx) ∧
         (∀ idx, in_shape (shape t') idx → nd ≤ idx !!! length before →
                 item t' idx = pad_value)).
Proof.
  intros Hrun.
  pose proof (__pad_edge_store_frame num_nodes edge_type (self, store))
    as [Hcfg Hdom].
  rewrite Hrun in Hcfg, Hdom. simpl in Hcfg, Hdom.
  split; [done|]. split; [done|]. split.
  { intros k Hk. by eapply __pad_edge_store_other. }
  intros Hsome. rewrite __pad_edge_store_run in Hrun.
  destruct (edge_attrs_to_pad self store) as [|k0 ks] eqn:Hattrs; [done|].
  rewrite <-Hattrs in Hrun |- *. clear Hattrs Hsome.
  destruct (_NumEdges_get_val edge_type (max_num_edges self)) as [r e].
  cbv beta iota zeta in Hrun.
  destruct r as [[target|]|]; try discriminate. simpl in Hrun.
  destruct (store_num_edges store <=? target) eqn:Hle; [|discriminate].
  apply Z.leb_le in Hle.
  pose proof (for_update_attr_self
                (edge_step self edge_type (target - store_num_edges store)
                   (src_dst_pad_values num_nodes).1
                   (src_dst_pad_values num_nodes).2)
                (edge_attrs_to_pad self store)
                (with_max_num_edges e self, store)) as Hself.
  rewrite Hrun in Hself. simpl in Hself. subst self'.
  exists target. split; [by destruct self|]. split; [done|]. intros k Hin Hne.
  pose proof (for_update_attr_ok _ _ _ _
                (NoDup_List_filter _ _ (NoDup_keys store)) Hrun k Hin)
    as (a & a' & Ha & Hstep & Ha').
  simpl in Ha, Ha'.
  unfold edge_step, mbind, Res_bind, attr_tensor in Hstep.
  destruct a as [t|o]; [|discriminate].
  rewrite bool_decide_eq_false_2 in Hstep by done.
  unfold __get_edge_padding in Hstep.
  destruct (get_val (edge_pad self) _ _) as [pv|]; [|discriminate].
  destruct (_pad_tensor_dim _ _ _ _) as [t'|] eqn:Hpad; [|discriminate].
  injection Hstep as <-.
  destruct (_pad_tensor_dim_inv _ _ _ _ _ Hpad)
    as (before & nd & after & Hshape & Hlen & Hshape' & Hkeep & Hnew).
  by exists t, t', pv, before, nd, after.
Qed.
End StoreResults.

(** Three nodes padded to five. *)
Lemma node_padding_result_witness :
  let self := example_pad (VInt 5) (VInt 25) in
  let store : Store := {[ "x" := ATensor example_x ]} in
  let out := @__pad_node_store example_storage None (self, store) in
  ∃ t', out.2.2 !! "x" = Some (ATensor t') ∧ shape t' = [5; 1].
Proof.
  intros self store out.
  destruct (@node_padding_result example_storage None self out.2.1 store out.2.2)
    as (_ & _ & _ & Hpadded).
  - vm_compute. reflexivity.
  - assert (@node_attrs_to_pad example_storage self store = ["x"]) as Hattrs
      by (vm_compute; reflexivity).
    rewrite Hattrs in Hpadded.
    destruct Hpadded as (target & Htarget & _ & Hall); [discriminate|].
    injection Htarget as <-.
    destruct (Hall "x")
      as (t & t' & pv & before & nd & after
          & Ht & Ht' & _ & Hshape & Hlen & Hshape' & _); [by left|].
    injection Ht as <-.
    destruct before as [|? ?]; [|discriminate Hlen].
    injection Hshape as <- <-.
    exists t'. split; [exact Ht'|exact Hshape'].
Defined.

(** Two edges with one feature each, padded to four. *)
Lemma edge_padding_result_witness :
  let self := example_pad (VInt 5) (VInt 4) in
  let store : Store :=
    {[ "edge_index" := ATensor example_edge_index;
       "edge_attr" := ATensor (tensor_of_rows [[float_one]; [float_one]]) ]} in
  let out := @__pad_edge_store example_storage (inl 0) None (self, store) in
  ∃ t', out.2.2 !! "edge_attr" = Some (ATensor t') ∧ shape t' = [4; 1].
Proof.
  intros self store out.
  destruct (@edge_padding_result example_storage (inl 0) None self out.2.1
              store out.2.2) as (_ & _ & _ & Hpadded).
  - vm_compute. reflexivity.
  - assert (@edge_attrs_to_pad example_storage self store
            = ["edge_index"; "edge_attr"]) as Hattrs
      by (vm_compute; reflexivity).
    rewrite Hattrs in Hpadded.
    destruct Hpadded as (target & Htarget & _ & Hall); [discriminate|].
    apply (f_equal fst) in Htarget. vm_compute in Htarget.
    injection Htarget as <-.
    destruct (Hall "edge_attr")
      as (t & t' & pv & before & nd & after
          & Ht & Ht' & _ & Hshape & Hlen & Hshape' & _);
      [right; left|discriminate|].
    vm_compute in Ht. injection Ht as <-.
    destruct before as [|? ?]; [|discriminate Hlen].
    injection Hshape as <- <-.
    exists t'. split; [exact Ht'|exact Hshape'].
Defined.

(** ** What a call does to a record *)

Lemma dom_drop_excluded excluded (store : Store) :
  dom (drop_excluded excluded store) = dom store ∖ excluded.
Proof.
  apply set_eq. intros k.
  rewrite elem_of_difference, !elem_of_dom, drop_excluded_lookup.
  destruct (decide (k ∈ excluded)) as [Hin|Hin].
  - split; [by intros [? ?]|by intros [_ ?]].
  - split; [by intros ?|by intros [? _]].
Qed.

Section RecordResults.
Context `{Storage}.

(** A call on a [Data] whose configuration suits it: the excluded
    attributes are deleted, the edges are padded with the node count of
    what is left as placeholder, then the nodes are padded; the store is
    written to in place at every step, so an exception leaves it as it
    was then. *)
Lemma call_Data_run self store :
  isinstance_homo (node_pad self) = true →
  isinstance_homo (edge_pad self) = true →
  _IntOrDict.is_number (nodes_value (max_num_nodes self)) = true →
  _IntOrDict.is_number (edges_value (max_num_edges self))
  || _NumEdges_is_none (max_num_edges self) = true →
  call_body (self, Data store) =
  let store0 := drop_excluded (exclude_keys self) store in
  let edges := __pad_edge_store (inl (store_num_nodes store0)) None (self, store0) in
  match edges.1 with
  | Raise e => (Raise e, (edges.2.1, Data edges.2.2))
  | Ok _ =>
      let nodes := __pad_node_store None edges.2 in
      (nodes.1, (nodes.2.1, Data nodes.2.2))
  end.
Proof.
  intros Hnp Hep Hnn Hne.
  unfold call_body. unfold mbind at 1, SM_bind, gets.
  cbn [snd fst isinstance_Data]. unfold call_Data.
  repeat (unfold mbind at 1, SM_bind, gets, liftR; cbn [fst snd]).
  rewrite Hnp, Hep, Hnn, Hne. unfold assert.
  cbn [stores for_]. unfold mbind at 1, SM_bind.
  rewrite (on_store_run _ _ _ _ store) by done.
  rewrite del_excluded_run. cbn [fst snd set_store data_num_nodes].
  rewrite (on_store_run _ _ _ _ (drop_excluded (exclude_keys self) store))
    by done.
  cbv zeta.
  destruct (__pad_edge_store _ _ _) as [[[]|] [self1 store1]] eqn:Hedge;
    cbn [fst snd set_store]; [|done].
  rewrite (on_store_run _ _ _ _ store1) by done.
  destruct (__pad_node_store _ _) as [[[]|] [self2 store2]] eqn:Hnode;
    cbn [fst snd set_store]; done.
Qed.

(** X11.  A call adds no attribute and removes exactly the excluded ones.
    On a [Data] whose configuration suits it this holds however the call
    ends: the store is left with the names it had, less the excluded
    ones, also when padding raises.  On a [HeteroData], when the call
    returns, no edge store is added or removed, every node store is kept,
    and every store that the record had is left with the names it had,
    less the excluded ones. *)
Theorem call_keeps_the_unexcluded_names (self self' : Pad) (data' : BaseData) :
  (∀ store r,
     isinstance_homo (node_pad self) = true →
     isinstance_homo (edge_pad self) = true →
     _IntOrDict.is_number (nodes_value (max_num_nodes self)) = true →
     _IntOrDict.is_number (edges_value (max_num_edges self))
     || _NumEdges_is_none (max_num_edges self) = true →
     call_body (self, Data store) = (r, (self', data')) →
     ∃ store', data' = Data store' ∧
               dom store' = dom store ∖ exclude_keys self) ∧
  (∀ ns es,
     call_body (self, HeteroData ns es) = (Ok tt, (self', data')) →
     ∃ ns' es',
       data' = HeteroData ns' es' ∧ dom es' = dom es ∧
       (∀ et store, es !! et = Some store →
          ∃ store', es' !! et = Some store' ∧
                    dom store' = dom store ∖ exclude_keys self) ∧
       (∀ t store, ns !! t = Some store →
          ∃ store', ns' !! t = Some store' ∧
                    dom store' = dom store ∖ exclude_keys self)).
Proof.
  split.
  - intros store r Hnp Hep Hnn Hne. rewrite call_Data_run by done. cbv zeta.
    pose proof (__pad_edge_store_frame
                  (inl (store_num_nodes (drop_excluded (exclude_keys self) store)))
                  None (self, drop_excluded (exclude_keys self) store))
      as [_ Hdom1].
    destruct (__pad_edge_store _ _ _) as [[[]|e] [self1 store1]];
      cbn [fst snd] in *.
    + pose proof (__pad_node_store_frame None (self1, store1)) as [_ Hdom2].
      destruct (__pad_node_store _ _) as [r2 [self2 store2]]; cbn [fst snd] in *.
      intros [= _ _ <-]. exists store2. split; [done|].
      by rewrite Hdom2, Hdom1, dom_drop_excluded.
    + intros [= _ _ <-]. exists store1. split; [done|].
      by rewrite Hdom1, dom_drop_excluded.
  - intros ns es Hcall.
    apply call_HeteroData_ok in Hcall
      as (ns1 & ns' & es' & -> & Hcfg & Hext & Hdes & Hdns & Hedges & Hnodes).
    exists ns', es'. split; [done|]. split; [done|]. split.
    + intros et store Hstore.
      destruct (Hedges et store Hstore) as (selfa & selfb & store' & Hst' & _ & Hrun).
      exists store'. split; [done|].
      rewrite (run_dom _ _ _ _ _ _ (__pad_edge_store_frame _ _) Hrun).
      apply dom_drop_excluded.
    + intros t store Hstore.
      assert (ns1 !! t = Some store) as Hstore1.
      { destruct (Hext t) as [->|[Hnone _]]; [done|congruence]. }
      destruct (Hnodes t store Hstore1) as (store' & Hst' & Hrun).
      exists store'. split; [done|].
      rewrite (run_dom _ _ _ _ _ _ (__pad_node_store_frame _) Hrun).
      apply dom_drop_excluded.
Qed.

(** X12.  A call that fails is not undone.  On a [Data] whose
    configuration suits it, with [max_num_nodes = target]: when the edges
    of the store have been padded and the store then has an attribute to
    pad as node attribute but no fewer than [target] nodes -- exactly
    [target] nodes are too many -- the call raises the error of the node
    count check and leaves the record with the excluded attributes deleted
    and the edges padded. *)
Theorem failed_node_check_leaves_edges_padded
    (self self1 : Pad) (store store1 : Store) (target : Z) :
  isinstance_homo (node_pad self) = true →
  isinstance_homo (edge_pad self) = true →
  nodes_value (max_num_nodes self) = VInt target →
  _IntOrDict.is_number (edges_value (max_num_edges self))
  || _NumEdges_is_none (max_num_edges self) = true →
  let store0 := drop_excluded (exclude_keys self) store in
  __pad_edge_store (inl (store_num_nodes store0)) None (self, store0)
  = (Ok tt, (self1, store1)) →
  node_attrs_to_pad self1 store1 ≠ [] →
  target ≤ store_num_nodes store1 →
  call_body (self, Data store)
  = (Raise (NodesNotGreater target (store_num_nodes store1)),
     (self1, Data store1)).
Proof.
  intros Hnp Hep Hnn Hne store0 Hedges Hsome Hle.
  rewrite call_Data_run by (by rewrite ?Hnn). cbv zeta.
  fold store0. rewrite Hedges. cbn [fst snd].
  pose proof (__pad_edge_store_frame (inl (store_num_nodes store0)) None
                (self, store0)) as [Hcfg _].
  rewrite Hedges in Hcfg. cbn [fst snd] in Hcfg.
  assert (max_num_nodes self1 = max_num_nodes self) as Hmax.
  { unfold same_config, config in Hcfg. by injection Hcfg. }
  rewrite __pad_node_store_run.
  destruct (node_attrs_to_pad self1 store1) as [|k0 ks]; [done|].
  unfold _NumNodes_get_val. rewrite Hmax, Hnn. simpl.
  by replace (store_num_nodes store1 <? target) with false
    by (symmetry; apply Z.ltb_ge; lia).
Qed.
End RecordResults.

(** The connectivity attribute excluded: the store is left with [x]. *)
Lemma call_keeps_the_unexcluded_names_witness :
  let self := mkPad (mkUniformPadding float_zero) (mk_NumNodes (VInt 5))
                    (mk_NumEdges (VInt 25) (mk_NumNodes (VInt 5)))
                    {[ "edge_index" ]}
                    (PUniform (mkUniformPadding float_zero))
                    (PUniform (mkUniformPadding float_zero)) ∅ in
  let out := @call_body example_storage (self, Data example_store) in
  ∃ store', out.2.2 = Data store' ∧
            dom store' = dom example_store ∖ {[ "edge_index" ]}.
Proof.
  intros self out.
  apply (proj1 (@call_keeps_the_unexcluded_names example_storage self
                  out.2.1 out.2.2) example_store out.1);
    reflexivity.
Defined.

(** Three nodes and a target of three: the call fails, and the
    connectivity attribute has been padded to four edges. *)
Lemma failed_node_check_leaves_edges_padded_witness :
  let self := example_pad (VInt 3) (VInt 4) in
  let edges := @__pad_edge_store example_storage (inl 3) None
                 (self, example_store) in
  @call_body example_storage (self, Data example_store)
  = (Raise (NodesNotGreater 3 3), (edges.2.1, Data edges.2.2)) ∧
  record_shape (Data edges.2.2) GlobalStore "edge_index" = Some [2; 4].
Proof.
  intros self edges. split; [|vm_compute; reflexivity].
  assert (@store_num_nodes example_storage edges.2.2 = 3) as Hn
    by (vm_compute; reflexivity).
  pose proof (@failed_node_check_leaves_edges_padded example_storage
                self edges.2.1 example_store edges.2.2 3) as Hcall.
  rewrite Hn in Hcall. apply Hcall.
  - reflexivity.
  - reflexivity.
  - reflexivity.
  - reflexivity.
  - vm_compute. reflexivity.
  - vm_compute. discriminate.
  - lia.
Defined.

(** ** Which error construction of a policy reports *)

Lemma validate_items_first_failure vkv good key val rest e :
  Forall (λ kv, vkv kv.1 kv.2 = Ok tt) good →
  vkv key val = Raise e →
  validate_items vkv (good ++ (key, val) :: rest) = Raise e.
Proof.
  intros Hgood Hbad. induction Hgood as [|[k v] good Hkv Hgood IH]; simpl in *.
  - by rewrite Hbad.
  - by rewrite Hkv.
Qed.

Lemma validate_key_elems_not_str elems :
  ¬ Forall (λ o, is_str o = true) elems →
  validate_key_elems elems = Raise EdgeKeyElemType.
Proof.
  induction elems as [|o rest IH]; intros Hnot.
  - destruct Hnot. constructor.
  - simpl. destruct (is_str o) eqn:Ho; simpl; [|done].
    apply IH. intros Hrest. apply Hnot. by constructor.
Qed.

(** X13.  Construction of a policy by edge type reports the first check
    that fails, items being checked in the order of the dictionary: an
    argument that is neither absent nor a dictionary is reported as such;
    otherwise the first item that fails decides, whatever follows it; and
    for one item the key is checked for being a tuple, then the value for
    its type, then the key for having three elements -- the error carries
    the number it has -- then the elements for being strings. *)
Theorem edge_type_policy_reports_first_violation :
  (∀ pv d, is_dict (or_empty_dict pv) = false →
     EdgeTypePadding_init pv d = Raise PaddingValuesNotDict) ∧
  (∀ good key val rest d e,
     Forall (λ kv, EdgeTypePadding_validate_key_val kv.1 kv.2 = Ok tt) good →
     EdgeTypePadding_validate_key_val key val = Raise e →
     EdgeTypePadding_init (PyDict (good ++ (key, val) :: rest)) d = Raise e) ∧
  (∀ key val, is_tuple key = false →
     EdgeTypePadding_validate_key_val key val = Raise KeyTypeNotAccepted) ∧
  (∀ elems val, StoreType_val_types val = false →
     EdgeTypePadding_validate_key_val (PyTuple elems) val
     = Raise ValTypeNotAccepted) ∧
  (∀ elems val, StoreType_val_types val = true →
     length elems ≠ key_num_elems →
     EdgeTypePadding_validate_key_val (PyTuple elems) val
     = Raise (InvalidEdgeTypeArity (length elems))) ∧
  (∀ elems val, StoreType_val_types val = true →
     length elems = key_num_elems →
     ¬ Forall (λ o, is_str o = true) elems →
     EdgeTypePadding_validate_key_val (PyTuple elems) val
     = Raise EdgeKeyElemType).
Proof.
  split_and!.
  - intros pv d Hdict. unfold EdgeTypePadding_init.
    by destruct pv.
  - intros good key val rest d e Hgood Hbad. unfold EdgeTypePadding_init.
    simpl. by rewrite (validate_items_first_failure _ _ _ _ _ _ Hgood Hbad).
  - intros key val Hkey.
    unfold EdgeTypePadding_validate_key_val, MappingPadding_validate_key_val.
    by rewrite Hkey.
  - intros elems val Hval.
    unfold EdgeTypePadding_validate_key_val, MappingPadding_validate_key_val.
    simpl. by rewrite Hval.
  - intros elems val Hval Hlen.
    unfold EdgeTypePadding_validate_key_val, MappingPadding_validate_key_val.
    simpl. rewrite Hval. simpl. by rewrite bool_decide_eq_false_2.
  - intros elems val Hval Hlen Hstr.
    unfold EdgeTypePadding_validate_key_val, MappingPadding_validate_key_val.
    simpl. rewrite Hval. simpl. rewrite bool_decide_eq_true_2 by done. simpl.
    by apply validate_key_elems_not_str.
Qed.

(** A key of two elements after a key that is accepted. *)
Lemma edge_type_policy_reports_first_violation_witness :
  EdgeTypePadding_init
    (PyDict [(PyTuple [PyStr "a"; PyStr "rel"; PyStr "b"], PyNum float_one);
             (PyTuple [PyStr "a"; PyStr "b"], PyNum float_zero);
             (PyStr "c", PyNone)])
    float_zero
  = Raise (InvalidEdgeTypeArity 2).
Proof.
  apply (proj1 (proj2 edge_type_policy_reports_first_violation)
           [(PyTuple [PyStr "a"; PyStr "rel"; PyStr "b"], PyNum float_one)]
           (PyTuple [PyStr "a"; PyStr "b"]) (PyNum float_zero)
           [(PyStr "c", PyNone)]).
  - repeat constructor.
  - apply (proj1 (proj2 (proj2 (proj2 (proj2
             edge_type_policy_reports_first_violation))))
             [PyStr "a"; PyStr "b"] (PyNum float_zero)).
    + reflexivity.
    + discriminate.
Defined.

(** ** Constructed transforms at work *)

Section Constructed.
Context `{Storage}.

Lemma Pad_init_sizes nodes edges node_pad_value edge_pad_value
    mask_pad_value excluded self :
  Pad_init nodes edges node_pad_value edge_pad_value mask_pad_value excluded
  = Ok self →
  _NumNodes_init nodes = Ok (max_num_nodes self) ∧
  _NumEdges_init edges (max_num_nodes self) = Ok (max_num_edges self).
Proof.
  rewrite Pad_init_unfold.
  destruct (_NumNodes_init nodes) as [nn|]; [|discriminate].
  destruct (_NumEdges_init edges nn) as [ne|] eqn:Hne; [|discriminate].
  destruct (bool_decide _); [|discriminate].
  destruct (_process_padding_argument _ node_pad_value _); [|discriminate].
  destruct (_process_padding_argument _ edge_pad_value _); [|discriminate].
  by intros [= <-].
Qed.

(** X14.  Which constructed transforms a [Data] accepts, the two pad
    values being such that their policies suit a [Data]: built with a
    mapping as [max_num_nodes] the transform refuses every [Data] for its
    node counts; built with an integer as [max_num_nodes] and a mapping as
    [max_num_edges] it refuses every [Data] for its edge counts; built
    with an integer [n] and [max_num_edges] absent or an integer [m], it
    goes to work on every [Data] -- excluded attributes deleted, edges
    padded, then nodes -- towards [n] nodes and [n * n], respectively [m],
    edges. *)
Theorem constructed_transform_on_Data
    (nodes : SizeArg (gmap NodeStoreType Z))
    (edges : SizeArg (gmap EdgeStoreType Z))
    (node_pad_value edge_pad_value : pyobj) (mask_pad_value : option PadVal)
    (excluded : option (list AttrNameType)) (self : Pad) (store : Store) :
  Pad_init nodes edges node_pad_value edge_pad_value mask_pad_value excluded
  = Ok self →
  isinstance_homo (policy_of_pad_value node_pad_value) = true →
  isinstance_homo (policy_of_pad_value edge_pad_value) = true →
  (∀ d, nodes = SzDict d →
     call_body (self, Data store) = (Raise DataNumNodesType, (self, Data store))) ∧
  (∀ n d, nodes = SzInt n → edges = SzDict d →
     call_body (self, Data store) = (Raise DataNumEdgesType, (self, Data store))) ∧
  (∀ n, nodes = SzInt n → (∀ d, edges ≠ SzDict d) →
     _NumNodes_get_val (max_num_nodes self) None = Ok (Some n) ∧
     _NumEdges_get_val None (max_num_edges self)
     = (Ok (Some (match edges with SzInt m => m | _ => n * n end)),
        max_num_edges self) ∧
     call_body (self, Data store) =
     let store0 := drop_excluded (excluded_set excluded) store in
     let edges := __pad_edge_store (inl (store_num_nodes store0)) None
                    (self, store0) in
     match edges.1 with
     | Raise e => (Raise e, (edges.2.1, Data edges.2.2))
     | Ok _ =>
         let nodes := __pad_node_store None edges.2 in
         (nodes.1, (nodes.2.1, Data nodes.2.2))
     end).
Proof.
  intros Hinit Hnp Hep.
  destruct (Pad_init_Ok_inv _ _ _ _ _ _ _ Hinit) as (Hnode & Hedge & Hexcl & _).
  destruct (Pad_init_sizes _ _ _ _ _ _ _ Hinit) as [Hnn Hne].
  rewrite <-Hnode in Hnp. rewrite <-Hedge in Hep.
  split_and!.
  - intros d ->. injection Hnn as Hnn.
    unfold call_body, call_Data, mbind, SM_bind, gets, liftR, assert.
    cbn [fst snd isinstance_Data]. by rewrite Hnp, Hep, <-Hnn.
  - intros n d -> ->. injection Hnn as Hnn. rewrite <-Hnn in Hne.
    injection Hne as Hne.
    unfold call_body, call_Data, mbind, SM_bind, gets, liftR, assert.
    cbn [fst snd isinstance_Data].
    by rewrite Hnp, Hep, <-Hnn, <-Hne.
  - intros n -> Hnodict. injection Hnn as Hnn. rewrite <-Hnn in Hne.
    assert (edges_value (max_num_edges self)
            = VInt (match edges with SzInt m => m | _ => n * n end)) as Hev.
    { destruct edges as [|m|d|]; simpl in Hne; try discriminate.
      - by injection Hne as <-.
      - by injection Hne as <-.
      - by destruct (Hnodict d). }
    split_and!.
    + by rewrite <-Hnn.
    + unfold _NumEdges_get_val. by rewrite Hev.
    + rewrite <-Hexcl. apply call_Data_run; try done.
      * by rewrite <-Hnn.
      * by rewrite Hev.
Qed.

End Constructed.

(** A mapping of node counts on a [Data]. *)
Lemma constructed_transform_on_Data_witness :
  let self := example_pad (VDict {[ "a" := 4 ]}) (VDict ∅) in
  @call_body example_storage (self, Data example_store)
  = (Raise DataNumNodesType, (self, Data example_store)).
Proof.
  intros self.
  apply (proj1 (@constructed_transform_on_Data example_storage
                  (SzDict {[ "a" := 4 ]}) SzNone PyNone PyNone None None
                  self example_store eq_refl eq_refl eq_refl) {[ "a" := 4 ]}).
  reflexivity.
Defined.


(** ** Node features of a record after a call *)

Section NodeFeatures.
Context `{Storage}.

Lemma __pad_node_store_grows node_type self store self' store' k :
  __pad_node_store node_type (self, store) = (Ok tt, (self', store')) →
  k ∈ node_attrs_to_pad self store →
  ∃ target t t' pad_value before nd after,
    _NumNodes_get_val (max_num_nodes self) node_type = Ok (Some target) ∧
    store_num_nodes store < target ∧
    store !! k = Some (ATensor t) ∧ store' !! k = Some (ATensor t') ∧
    __get_node_padding self k node_type = Ok pad_value ∧
    shape t = (before ++ nd :: after)%list ∧
    length before = normal_dim (ndim t) (__cat_dim__ k t) ∧
    shape t' = (before ++ (nd + (target - store_num_nodes store)) :: after)%list ∧
    (∀ idx, in_shape (shape t) idx → item t' idx = item t idx) ∧
    (∀ idx, in_shape (shape t') idx → nd ≤ idx !!! length before →
            item t' idx = pad_value).
Proof.
  rewrite __pad_node_store_run. intros Hrun Hin.
  destruct (node_attrs_to_pad self store) as [|k0 ks] eqn:Hattrs.
  { by apply elem_of_nil in Hin. }
  rewrite <-Hattrs in Hrun, Hin. clear Hattrs.
  destruct (_NumNodes_get_val _ _) as [[target|]|]; try discriminate.
  simpl in Hrun.
  destruct (store_num_nodes store <? target) eqn:Hlt; [|discriminate].
  apply Z.ltb_lt in Hlt.
  pose proof (for_update_attr_ok _ _ _ _
                (NoDup_List_filter _ _ (NoDup_keys store)) Hrun k Hin)
    as (a & a' & Ha & Hstep & Ha').
  simpl in Ha, Ha'.
  unfold node_step, mbind, Res_bind, attr_tensor in Hstep.
  destruct (__get_node_padding self k node_type) as [pv|]; [|discriminate].
  destruct a as [t|o]; [|discriminate].
  destruct (_pad_tensor_dim _ _ _ _) as [t'|] eqn:Hpad; [|discriminate].
  injection Hstep as <-.
  destruct (_pad_tensor_dim_inv _ _ _ _ _ Hpad)
    as (before & nd & after & Hshape & Hlen & Hshape' & Hkeep & Hnew).
  by exists target, t, t', pv, before, nd, after.
Qed.

Lemma same_config_node_padding self self' :
  same_config self self' →
  max_num_nodes self' = max_num_nodes self ∧
  (∀ store, node_attrs_to_pad self' store = node_attrs_to_pad self store) ∧
  (∀ k node_type,
     __get_node_padding self' k node_type = __get_node_padding self k node_type).
Proof.
  unfold same_config, config. intros [= _ Hnn Hexcl Hnp _ Hmask _ _ _].
  split; [done|]. split.
  - intros store. unfold node_attrs_to_pad, __should_pad_node_attr.
    by rewrite Hexcl, Hmask.
  - intros k node_type. unfold __get_node_padding. by rewrite Hnp, Hmask.
Qed.

(** X16.  The node features of a record after a call that returns.  On a
    [HeteroData], every attribute of the store of a node type that is not
    excluded and is node-level in the store without the excluded
    attributes is, afterwards, a tensor grown along its concatenation
    dimension by the difference between the count configured for the node
    type and the node count of that store, with the old entries in place
    and the new entries holding the fill value of the attribute for the
    node type.  On a [Data], the same holds of the store as edge padding
    leaves it, with the one configured count. *)
Theorem node_features_after_call (self self' : Pad) (data' : BaseData) :
  (∀ ns es t store k,
     call_body (self, HeteroData ns es) = (Ok tt, (self', data')) →
     ns !! t = Some store →
     let store0 := drop_excluded (exclude_keys self) store in
     k ∈ dom store0 → is_node_attr store0 k = true →
     ∃ store' target tens tens' pad_value before nd after,
       get_store (NodeStore t) data' = Some store' ∧
       _NumNodes_get_val (max_num_nodes self) (Some t) = Ok (Some target) ∧
       store_num_nodes store0 < target ∧
       store !! k = Some (ATensor tens) ∧ store' !! k = Some (ATensor tens') ∧
       __get_node_padding self k (Some t) = Ok pad_value ∧
       shape tens = (before ++ nd :: after)%list ∧
       length before = normal_dim (ndim tens) (__cat_dim__ k tens) ∧
       shape tens'
       = (before ++ (nd + (target - store_num_nodes store0)) :: after)%list ∧
       (∀ idx, in_shape (shape tens) idx → item tens' idx = item tens idx) ∧
       (∀ idx, in_shape (shape tens') idx → nd ≤ idx !!! length before →
               item tens' idx = pad_value)) ∧
  (∀ store,
     call_body (self, Data store) = (Ok tt, (self', data')) →
     let store0 := drop_excluded (exclude_keys self) store in
     ∃ self1 store1 store',
       data' = Data store' ∧
       __pad_edge_store (inl (store_num_nodes store0)) None (self, store0)
       = (Ok tt, (self1, store1)) ∧
       ∀ k, k ∈ dom store1 → is_node_attr store1 k = true →
         ∃ target tens tens' pad_value before nd after,
           _NumNodes_get_val (max_num_nodes self) None = Ok (Some target) ∧
           store_num_nodes store1 < target ∧
           store1 !! k = Some (ATensor tens) ∧
           store' !! k = Some (ATensor tens') ∧
           __get_node_padding self k None = Ok pad_value ∧
           shape tens = (before ++ nd :: after)%list ∧
           length before = normal_dim (ndim tens) (__cat_dim__ k tens) ∧
           shape tens'
           = (before ++ (nd + (target - store_num_nodes store1)) :: after)%list ∧
           (∀ idx, in_shape (shape tens) idx → item tens' idx = item tens idx) ∧
           (∀ idx, in_shape (shape tens') idx → nd ≤ idx !!! length before →
                   item tens' idx = pad_value)).
Proof.
  assert (∀ s (st : Store) k,
            k ∈ dom st → (∀ k', k' ∈ dom st → k' ∉ exclude_keys s) →
            is_node_attr st k = true → k ∈ node_attrs_to_pad s st) as Hsel.
  { intros s st k Hk Hkept Hnode. unfold node_attrs_to_pad.
    apply elem_of_List_filter. split; [by apply elem_of_keys|].
    rewrite Hnode. unfold __should_pad_node_attr.
    rewrite (bool_decide_eq_true_2 (k ∉ exclude_keys s)) by by apply Hkept.
    by destruct (bool_decide _). }
  split.
  - intros ns es t store k Hcall Hstore store0 Hk Hnode.
    apply call_HeteroData_ok in Hcall
      as (ns1 & ns' & es' & -> & Hcfg & Hext & Hdes & Hdns & Hedges & Hnodes).
    assert (ns1 !! t = Some store) as Hstore1.
    { destruct (Hext t) as [->|[Hnone _]]; [done|congruence]. }
    destruct (Hnodes t store Hstore1) as (store' & Hst' & Hrun).
    destruct (same_config_node_padding _ _ Hcfg) as (Hmax & Hattrs & Hfill).
    destruct (__pad_node_store_grows _ _ _ _ _ k Hrun)
      as (target & tens & tens' & pv & before & nd & after
          & Htarget & Hlt & Ht & Ht' & Hpv & Hshape & Hlen & Hshape' & Hkeep & Hnew).
    { rewrite Hattrs. apply Hsel; [done| |done].
      intros k' Hk' Hin. by apply (drop_excluded_None _ store) in Hin. }
    rewrite Hmax in Htarget. rewrite Hfill in Hpv.
    exists store', target, tens, tens', pv, before, nd, after.
    split_and!; try done.
    fold store0 in Ht. unfold store0 in Ht. rewrite drop_excluded_lookup in Ht.
    by destruct (decide (k ∈ exclude_keys self)).
  - intros store Hcall store0.
    apply call_Data_ok in Hcall as (self1 & store1 & store' & -> & Hedge & Hnodes).
    exists self1, store1, store'. split; [done|]. split; [done|].
    intros k Hk Hnode.
    pose proof (__pad_edge_store_frame
                  (inl (store_num_nodes (drop_excluded (exclude_keys self) store)))
                  None (self, drop_excluded (exclude_keys self) store))
      as [Hcfg Hdom].
    rewrite Hedge in Hcfg, Hdom. cbn [fst snd] in Hcfg, Hdom.
    pose proof (__pad_node_store_self None self1 store1) as Hself.
    rewrite Hnodes in Hself. cbn [fst snd] in Hself. subst self'.
    destruct (same_config_node_padding _ _ Hcfg) as (Hmax & Hattrs & Hfill).
    destruct (__pad_node_store_grows _ _ _ _ _ k Hnodes)
      as (target & tens & tens' & pv & before & nd & after
          & Htarget & Hlt & Ht & Ht' & Hpv & Hshape & Hlen & Hshape' & Hkeep & Hnew).
    { rewrite Hattrs. apply Hsel; [done| |done].
      intros k' Hk' Hin. rewrite Hdom in Hk'.
      by apply (drop_excluded_None _ store) in Hin. }
    rewrite Hmax in Htarget. rewrite Hfill in Hpv.
    by exists target, tens, tens', pv, before, nd, after.
Qed.
End NodeFeatures.

(** Two nodes of type [a], four configured: [x] grows to four rows. *)
Lemma node_features_after_call_witness :
  let out := @call_body example_storage (example_hetero_pad, example_hetero) in
  ∃ store' tens',
    get_store (NodeStore "a") out.2.2 = Some store' ∧
    store' !! "x" = Some (ATensor tens') ∧ shape tens' = [4; 1].
Proof.
  intros out.
  destruct (proj1 (@node_features_after_call example_storage example_hetero_pad
                     out.2.1 out.2.2)
              {[ "a" := {[ "x" := ATensor (tensor_of_rows [[float_one]; [float_one]]) ]};
                 "b" := {[ "x" := ATensor example_x ]} ]}
              {[ ("a", "rel", "b") := {[ "edge_index" := ATensor example_edge_index ]} ]}
              "a"
              {[ "x" := ATensor (tensor_of_rows [[float_one]; [float_one]]) ]}
              "x")
    as (store' & target & tens & tens' & pv & before & nd & after
        & Hstore' & Htarget & _ & Ht & Ht' & _ & Hshape & Hlen & Hshape' & _).
  - vm_compute. reflexivity.
  - reflexivity.
  - apply elem_of_dom. eexists. vm_compute. reflexivity.
  - vm_compute. reflexivity.
  - vm_compute in Htarget. injection Htarget as <-.
    vm_compute in Ht. injection Ht as <-.
    destruct before as [|? ?]; [|discriminate Hlen].
    injection Hshape as <- <-.
    exists store', tens'. split; [exact Hstore'|]. split; [exact Ht'|].
    exact Hshape'.
Defined.
